(** * caddy-dynamic-routing: certificate bundles and routing by token

    A shallow embedding of the two Caddy modules of the repository:

  - [tls-redis.go]: the certificate getter [RedisCertGetter], with the
    bundle decoder [tlsCertFromCertAndKeyPEMBundle];
  - the routing handler [Middleware], with [ServeHTTP] and
    [UnmarshalCaddyfile].

    Go strings and byte slices are [string]; Go [int] is [Z]; a Go
    [(T, error)] result is [result T].  The packages the code calls
    ([strings], [strconv], [encoding/pem], [crypto/tls], [caddyfile],
    [go-redis]) are modelled by the part of their interface that the code
    uses. *)

From Stdlib Require Import String Ascii List ZArith Lia Bool Arith.
Import ListNotations.

Local Open Scope list_scope.
Local Open Scope string_scope.

(** ** Go values *)

(** A Go [error] is its message. *)
Definition error : Type := string.

Inductive result (A : Type) : Type :=
| Ok (a : A)
| Err (e : error).
Arguments Ok {A} a.
Arguments Err {A} e.

(** The line feed of Go's ["\n"]. *)
Definition nl : string := String (ascii_of_nat 10) EmptyString.

(** Slices of a string: [take n s] is [s[:n]], [drop n s] is [s[n:]]. *)
Fixpoint take (n : nat) (s : string) : string :=
  match n, s with
  | S n', String c s' => String c (take n' s')
  | _, _ => EmptyString
  end.

Fixpoint drop (n : nat) (s : string) : string :=
  match n, s with
  | S n', String _ s' => drop n' s'
  | _, _ => s
  end.

(** ** Package [strings] *)

Module strings.

(** [strings.HasPrefix]. *)
Definition HasPrefix (s pre : string) : bool := String.prefix pre s.

(** [strings.HasSuffix]:
    [len(s) >= len(suffix) && s[len(s)-len(suffix):] == suffix]. *)
Definition HasSuffix (s suffix : string) : bool :=
  (String.length suffix <=? String.length s)%nat
  && String.eqb (drop (String.length s - String.length suffix) s) suffix.

(** [strings.Index]: the index of the first instance of [substr] in [s],
    or [-1]. *)
Fixpoint Index (s substr : string) : Z :=
  if HasPrefix s substr then 0%Z
  else match s with
       | EmptyString => (-1)%Z
       | String _ s' =>
           let i := Index s' substr in
           if (i <? 0)%Z then (-1)%Z else (i + 1)%Z
       end.

(** [strings.Count] for a non-empty [substr]: the number of
    non-overlapping instances.  Each instance consumes at least one
    byte, so [length s] rounds suffice. *)
Fixpoint countFrom (rounds : nat) (s substr : string) : Z :=
  match rounds with
  | O => 0%Z
  | S rounds' =>
      let i := Index s substr in
      if (i <? 0)%Z then 0%Z
      else (1 + countFrom rounds'
                  (drop (Z.to_nat i + String.length substr) s) substr)%Z
  end.

Definition Count (s substr : string) : Z :=
  if String.eqb substr EmptyString
  then (Z.of_nat (String.length s) + 1)%Z
  else countFrom (String.length s) s substr.

(** The loop of [strings.Replace], for a non-empty [old]: [n] rounds,
    each copying [s[start:j]] and [new] and moving past the instance. *)
Fixpoint replaceFrom (n : nat) (s old new : string) : string :=
  match n with
  | O => s
  | S n' =>
      let j := Z.to_nat (Index s old) in
      take j s ++ new ++ replaceFrom n' (drop (j + String.length old) s) old new
  end.

(** [strings.Replace(s, old, new, n)]: the first [n] non-overlapping
    instances of [old] replaced by [new]; all of them when [n < 0]. *)
Definition Replace (s old new : string) (n : Z) : string :=
  if String.eqb old new || (n =? 0)%Z then s
  else
    let m := Count s old in
    if (m =? 0)%Z then s
    else
      let n := if (n <? 0)%Z || (m <? n)%Z then m else n in
      replaceFrom (Z.to_nat n) s old new.

(** [strings.Join] of a slice with a separator. *)
Fixpoint Join (elems : list string) (sep : string) : string :=
  match elems with
  | [] => EmptyString
  | [e] => e
  | e :: rest => e ++ sep ++ Join rest sep
  end.

End strings.

(** [s] is [pre], then [old], then [post], and no instance of [old] in
    [s] starts before this one. *)
Definition firstInstance (s old pre post : string) : Prop :=
  s = pre ++ old ++ post
  /\ forall pre' post',
       s = pre' ++ old ++ post' -> String.length pre <= String.length pre'.

(** ** Package [encoding/pem] *)

Module pem.

(** [pem.Block]. *)
Record Block : Type := mkBlock {
  Type_ : string;
  Headers : list (string * string);
  Bytes : string
}.

End pem.

(** ** The bundle decoder of [tls-redis.go] *)

Section BundleDecoder.

(** [tls.Certificate]. *)
Variable Certificate : Type.

(** [pem.Decode]: the next block of the input and the rest of the input;
    no block ([None]) when the input holds none. *)
Variable pem_Decode : string -> option pem.Block * string.

(** [pem.Encode] into a [bytes.Buffer]: the bytes written. *)
Variable pem_Encode : pem.Block -> result string.

(** [tls.X509KeyPair]. *)
Variable X509KeyPair : string -> string -> result Certificate.

Definition errECPairing : error :=
  "expected elliptic private key to immediately follow EC parameters".

(** The [for] loop of [tlsCertFromCertAndKeyPEMBundle].  [rounds] bounds
    the number of iterations; [None] is an exhausted bound. *)
Fixpoint scanLoop (rounds : nat) (bundle certBuilder keyBuilder : string)
         (foundKey : bool) : option (result (string * string)) :=
  match rounds with
  | O => None
  | S rounds' =>
      let '(derBlock, bundle) := pem_Decode bundle in
      match derBlock with
      | None => Some (Ok (certBuilder, keyBuilder))
      | Some derBlock =>
          if String.eqb (pem.Type_ derBlock) "CERTIFICATE" then
            match pem_Encode derBlock with
            | Err err => Some (Err err)
            | Ok out =>
                scanLoop rounds' bundle (certBuilder ++ out) keyBuilder foundKey
            end
          else if String.eqb (pem.Type_ derBlock) "EC PARAMETERS" then
            if negb foundKey then
              match pem_Encode derBlock with
              | Err err => Some (Err err)
              | Ok out =>
                  let keyBuilder := keyBuilder ++ out in
                  let '(derBlock, bundle) := pem_Decode bundle in
                  match derBlock with
                  | None => Some (Err errECPairing)
                  | Some derBlock =>
                      if negb (String.eqb (pem.Type_ derBlock) "EC PRIVATE KEY")
                      then Some (Err errECPairing)
                      else
                        match pem_Encode derBlock with
                        | Err err => Some (Err err)
                        | Ok out =>
                            scanLoop rounds' bundle certBuilder
                                     (keyBuilder ++ out) true
                        end
                  end
              end
            else scanLoop rounds' bundle certBuilder keyBuilder foundKey
          else if String.eqb (pem.Type_ derBlock) "PRIVATE KEY"
                  || strings.HasSuffix (pem.Type_ derBlock) " PRIVATE KEY" then
            if negb foundKey then
              match pem_Encode derBlock with
              | Err err => Some (Err err)
              | Ok out =>
                  scanLoop rounds' bundle certBuilder (keyBuilder ++ out) true
              end
            else scanLoop rounds' bundle certBuilder keyBuilder foundKey
          else
            Some (Err ("unrecognized PEM block type: " ++ pem.Type_ derBlock))
      end
  end.

(** [tlsCertFromCertAndKeyPEMBundle].  Every successful [pem.Decode]
    consumes input, so [length bundle + 1] iterations are enough
    ([tlsCertFromCertAndKeyPEMBundle_returns] below). *)
Definition tlsCertFromCertAndKeyPEMBundle (bundle : string)
  : option (result Certificate) :=
  match scanLoop (S (String.length bundle)) bundle EmptyString EmptyString false with
  | None => None
  | Some (Err err) => Some (Err err)
  | Some (Ok (certPEMBytes, keyPEMBytes)) =>
      if (String.length certPEMBytes =? 0)%nat then
        Some (Err "failed to parse PEM data")
      else if (String.length keyPEMBytes =? 0)%nat then
        Some (Err "no private key block found")
      else
        match X509KeyPair certPEMBytes keyPEMBytes with
        | Err err => Some (Err ("making X509 key pair: " ++ err))
        | Ok cert => Some (Ok cert)
        end
  end.

(** *** The bundle as a sequence of blocks

    The blocks that successive [pem.Decode] calls yield, in encounter
    order, and the properties of a block sequence that the decoder's
    contract names. *)

Fixpoint blocksFrom (rounds : nat) (bundle : string) : list pem.Block :=
  match rounds with
  | O => []
  | S rounds' =>
      match pem_Decode bundle with
      | (None, _) => []
      | (Some blk, rest) => blk :: blocksFrom rounds' rest
      end
  end.

Definition pemBlocks (bundle : string) : list pem.Block :=
  blocksFrom (S (String.length bundle)) bundle.

Definition isCertificate (blk : pem.Block) : bool :=
  String.eqb (pem.Type_ blk) "CERTIFICATE".

Definition isECParameters (blk : pem.Block) : bool :=
  String.eqb (pem.Type_ blk) "EC PARAMETERS".

Definition isECPrivateKey (blk : pem.Block) : bool :=
  String.eqb (pem.Type_ blk) "EC PRIVATE KEY".

Definition isPrivateKey (blk : pem.Block) : bool :=
  String.eqb (pem.Type_ blk) "PRIVATE KEY"
  || strings.HasSuffix (pem.Type_ blk) " PRIVATE KEY".

Definition recognised (blk : pem.Block) : bool :=
  isCertificate blk || isECParameters blk || isPrivateKey blk.

(** A block that [pem.Encode] accepts. *)
Definition encodableBy (blk : pem.Block) : Prop :=
  exists out, pem_Encode blk = Ok out.

(** The PEM text of a block; empty where [pem.Encode] refuses it. *)
Definition encoded (blk : pem.Block) : string :=
  match pem_Encode blk with
  | Ok out => out
  | Err _ => EmptyString
  end.

(** The certificate chain of a block sequence: its [CERTIFICATE] blocks,
    re-encoded, in encounter order. *)
Definition chainOf (blocks : list pem.Block) : string :=
  fold_right String.append EmptyString (map encoded (filter isCertificate blocks)).

(** The key of a block sequence: its first key-bearing block, where an
    [EC PARAMETERS] block bears a key together with the [EC PRIVATE KEY]
    block right after it, and with nothing else. *)
Fixpoint firstKey (blocks : list pem.Block) : option string :=
  match blocks with
  | [] => None
  | blk :: rest =>
      if isECParameters blk then
        match rest with
        | next :: _ =>
            if isECPrivateKey next then Some (encoded blk ++ encoded next)
            else None
        | [] => None
        end
      else if isPrivateKey blk then Some (encoded blk)
      else firstKey rest
  end.

(** The loop of [scanLoop], read over the block sequence. *)
Fixpoint scanBlocks (blocks : list pem.Block) (certBuilder keyBuilder : string)
           (foundKey : bool) : result (string * string) :=
  match blocks with
  | [] => Ok (certBuilder, keyBuilder)
  | blk :: rest =>
      if isCertificate blk then
        match pem_Encode blk with
        | Err err => Err err
        | Ok out => scanBlocks rest (certBuilder ++ out) keyBuilder foundKey
        end
      else if isECParameters blk then
        if negb foundKey then
          match pem_Encode blk with
          | Err err => Err err
          | Ok out =>
              match rest with
              | [] => Err errECPairing
              | next :: rest' =>
                  if negb (isECPrivateKey next) then Err errECPairing
                  else
                    match pem_Encode next with
                    | Err err => Err err
                    | Ok out' =>
                        scanBlocks rest' certBuilder ((keyBuilder ++ out) ++ out') true
                    end
              end
          end
        else scanBlocks rest certBuilder keyBuilder foundKey
      else if isPrivateKey blk then
        if negb foundKey then
          match pem_Encode blk with
          | Err err => Err err
          | Ok out => scanBlocks rest certBuilder (keyBuilder ++ out) true
          end
        else scanBlocks rest certBuilder keyBuilder foundKey
      else Err ("unrecognized PEM block type: " ++ pem.Type_ blk)
  end.

End BundleDecoder.

(** ** A textual PEM codec

    The armour of RFC 7468 without headers and with the body kept as its
    base64 text: [-----BEGIN T-----], the body, [-----END T-----], each on
    a line of its own.  It stands for [encoding/pem] where a bundle has to
    be run; on such bundles it yields the blocks that [pem.Decode] yields,
    up to the base64 decoding of the body. *)

Module PemText.

Definition pemStart : string := "-----BEGIN ".
Definition pemEnd : string := "-----END ".
Definition pemEndOfLine : string := "-----" ++ nl.

Definition isNewline (c : ascii) : bool := Ascii.eqb c (ascii_of_nat 10).

Fixpoint removeNewlines (s : string) : string :=
  match s with
  | EmptyString => EmptyString
  | String c s' =>
      if isNewline c then removeNewlines s' else String c (removeNewlines s')
  end.

(** The text of a block of type [typ] with base64 body [body]. *)
Definition armour (typ body : string) : string :=
  pemStart ++ typ ++ pemEndOfLine
  ++ (if String.eqb body EmptyString then EmptyString else body ++ nl)
  ++ pemEnd ++ typ ++ pemEndOfLine.

Definition Encode (blk : pem.Block) : result string :=
  Ok (armour (pem.Type_ blk) (pem.Bytes blk)).

Definition Decode (data : string) : option pem.Block * string :=
  if strings.HasPrefix data pemStart then
    let rest := drop (String.length pemStart) data in
    let i := strings.Index rest pemEndOfLine in
    if (i <? 0)%Z then (None, data)
    else
      let typ := take (Z.to_nat i) rest in
      let rest := drop (Z.to_nat i + String.length pemEndOfLine) rest in
      let trailer := pemEnd ++ typ ++ pemEndOfLine in
      let j := strings.Index rest trailer in
      if (j <? 0)%Z then (None, data)
      else
        (Some (pem.mkBlock typ [] (removeNewlines (take (Z.to_nat j) rest))),
         drop (Z.to_nat j + String.length trailer) rest)
  else (None, data).

(** A key pair is kept as its two PEM streams; every pair is accepted,
    the cryptographic check of [tls.X509KeyPair] being outside the
    decoder. *)
Definition KeyPair : Type := (string * string)%type.

Definition X509KeyPair (certPEMBlock keyPEMBlock : string) : result KeyPair :=
  Ok (certPEMBlock, keyPEMBlock).

Definition decode : string -> option (result KeyPair) :=
  tlsCertFromCertAndKeyPEMBundle KeyPair Decode Encode X509KeyPair.

End PemText.


(** ** Package [strconv] *)

Module strconv.

Definition digit (c : ascii) : option Z :=
  let n := nat_of_ascii c in
  if ((48 <=? n) && (n <=? 57))%nat then Some (Z.of_nat (n - 48)) else None.

Fixpoint digits (s : string) (acc : Z) : option Z :=
  match s with
  | EmptyString => Some acc
  | String c s' =>
      match digit c with
      | Some d => digits s' (10 * acc + d)%Z
      | None => None
      end
  end.

(** [strconv.Atoi]: an optional sign and decimal digits, within the
    64-bit [int]. *)
Definition Atoi (s : string) : result Z :=
  let '(neg, body) :=
    match s with
    | String c s' =>
        if Ascii.eqb c "-"%char then (true, s')
        else if Ascii.eqb c "+"%char then (false, s')
        else (false, s)
    | EmptyString => (false, s)
    end in
  match body with
  | EmptyString => Err "invalid syntax"
  | _ =>
      match digits body 0 with
      | None => Err "invalid syntax"
      | Some n =>
          let v := if neg : bool then (- n)%Z else n in
          if ((v <? - 2 ^ 63) || (2 ^ 63 - 1 <? v))%Z
          then Err "value out of range"
          else Ok v
      end
  end.

End strconv.

(** ** Package [caddyfile]: the token dispenser *)

Module caddyfile.

(** [caddyfile.Token]: [wasQuoted] is the quote character that enclosed
    the text, [0] for a token that was written without quotes. *)
Record Token : Type := mkToken {
  File : string;
  Line : Z;
  Text : string;
  wasQuoted : Z
}.

(** [t.Quoted()] *)
Definition Quoted (t : Token) : bool := (0 <? wasQuoted t)%Z.

(** [caddyfile.Dispenser]: the tokens, the cursor and the nesting depth. *)
Record Dispenser : Type := mkDispenser {
  tokens : list Token;
  cursor : Z;
  nesting : Z
}.

Definition NewDispenser (toks : list Token) : Dispenser :=
  mkDispenser toks (-1) 0.

Definition withCursor (d : Dispenser) (c : Z) : Dispenser :=
  mkDispenser (tokens d) c (nesting d).

Definition withNesting (d : Dispenser) (n : Z) : Dispenser :=
  mkDispenser (tokens d) (cursor d) n.

Definition len (d : Dispenser) : Z := Z.of_nat (List.length (tokens d)).

Definition tokenAt (d : Dispenser) (i : Z) : option Token :=
  if (i <? 0)%Z then None else nth_error (tokens d) (Z.to_nat i).

(** [d.Next()]: loads the next token. *)
Definition Next (d : Dispenser) : bool * Dispenser :=
  if (cursor d <? len d - 1)%Z then (true, withCursor d (cursor d + 1))
  else (false, d).

(** [d.Val()]: the text of the current token. *)
Definition Val (d : Dispenser) : string :=
  if ((cursor d <? 0) || (len d <=? cursor d))%Z then EmptyString
  else match tokenAt d (cursor d) with
       | Some t => Text t
       | None => EmptyString
       end.

(** [d.Token()]: the current token, the zero token when none is loaded. *)
Definition Token_ (d : Dispenser) : Token :=
  if ((cursor d <? 0) || (len d <=? cursor d))%Z
  then mkToken EmptyString 0 EmptyString 0
  else match tokenAt d (cursor d) with
       | Some t => t
       | None => mkToken EmptyString 0 EmptyString 0
       end.

Fixpoint countNewlines (s : string) : Z :=
  match s with
  | EmptyString => 0%Z
  | String c s' =>
      ((if Ascii.eqb c (ascii_of_nat 10) then 1 else 0) + countNewlines s')%Z
  end.

(** A token is on a new line when it is from another file or starts
    after the line on which the token before it ends. *)
Definition isNextOnNewLine (t1 t2 : Token) : bool :=
  negb (String.eqb (File t1) (File t2))
  || (Line t1 + countNewlines (Text t1) <? Line t2)%Z.

Definition nextOnSameLine (d : Dispenser) : bool * Dispenser :=
  if (cursor d <? 0)%Z then (true, withCursor d (cursor d + 1))
  else if (len d - 1 <=? cursor d)%Z then (false, d)
  else
    match tokenAt d (cursor d), tokenAt d (cursor d + 1) with
    | Some curr, Some next =>
        if negb (isNextOnNewLine curr next)
        then (true, withCursor d (cursor d + 1))
        else (false, d)
    | _, _ => (false, d)
    end.

(** [d.NextArg()]: loads the next token when it is an argument on the
    same line.  An opening brace that was written without quotes opens a
    block and is not an argument; a quoted one is an argument as any
    other text. *)
Definition NextArg (d : Dispenser) : bool * Dispenser :=
  let '(same, d) := nextOnSameLine d in
  if negb same then (false, d)
  else if String.eqb (Val d) "{" && negb (Quoted (Token_ d))
  then (false, withCursor d (cursor d - 1))
  else (true, d).

(** [d.NextBlock(initialNestingLevel)]: opens a block or loads the next
    token of the block that is open. *)
Definition NextBlock (initialNestingLevel : Z) (d : Dispenser)
    : bool * Dispenser :=
  if (initialNestingLevel <? nesting d)%Z then
    let '(more, d) := Next d in
    if negb more then (false, d)
    else
      let '(d, n) :=
        if String.eqb (Val d) "}" then
          let '(same, d') := nextOnSameLine d in
          if negb same then (d', (nesting d - 1)%Z)
          else if String.eqb (Val d') "{" then
            let '(same', d'') := nextOnSameLine d' in
            if negb same' then (d'', (nesting d + 1)%Z) else (d'', nesting d)
          else (d', nesting d)
        else if String.eqb (Val d) "{" then
          let '(same, d') := nextOnSameLine d in
          if negb same then (d', (nesting d + 1)%Z) else (d', nesting d)
        else (d, nesting d) in
      let d := withNesting d n in
      ((initialNestingLevel <? nesting d)%Z, d)
  else
    let '(same, d) := nextOnSameLine d in
    if negb same then (false, d)
    else if negb (String.eqb (Val d) "{") then
      (false, withCursor d (cursor d - 1))
    else
      let '(_, d) := Next d in
      if String.eqb (Val d) "}" then (false, d)
      else (true, withNesting d (nesting d + 1)).

(** [d.Err], [d.Errf] and [d.ArgErr]: the message of the error; the
    position that the dispenser appends to it is left out. *)
Definition Err_ (d : Dispenser) (msg : string) : error := msg.

Definition ArgErr (d : Dispenser) : error :=
  if String.eqb (Val d) "{" then
    Err_ d "unexpected token '{', expecting argument"
  else
    Err_ d ("wrong argument count or unexpected line ending after '"
            ++ Val d ++ "'").

End caddyfile.

(** ** Package [go-redis] *)

Module redis.

(** [redis.Options], the fields that the modules set. *)
Record Options : Type := mkOptions {
  Addr : string;
  DB : Z
}.

(** A client is the options it was made with. *)
Definition Client : Type := Options.

Definition NewClient (opt : Options) : Client := opt.

(** The store that a client reaches: [HGet(key, field).Result()]. *)
Definition Store : Type := string -> string -> result string.

End redis.

(** [http.Request], the fields that matter here. *)
Record Request : Type := mkRequest {
  Host : string;
  Method : string;
  RequestURI : string
}.

(** What a call does besides returning: the store read, the debug line
    and the call of the next handler, in the order they happen. *)
Inductive Event : Type :=
| EvHGet (key field : string)
| EvDebugf (msg : string)
| EvNext (r : Request).

(** ** [tls-redis.go]: the certificate getter *)

Module TlsRedis.

Import caddyfile.


Record RedisCertGetter : Type := mkRedisCertGetter {
  Prefix : string;
  CertKey : string;
  redisClient : option redis.Client;
  redisOptions : redis.Options
}.

(** [new(RedisCertGetter)]: the zero value. *)
Definition new : RedisCertGetter :=
  mkRedisCertGetter EmptyString EmptyString None (redis.mkOptions EmptyString 0).

(** [Provision]. *)
Definition Provision (rcg : RedisCertGetter) : RedisCertGetter * option error :=
  (mkRedisCertGetter (Prefix rcg) (CertKey rcg)
     (Some (redis.NewClient (redisOptions rcg))) (redisOptions rcg),
   None).

Section GetCertificate.

Variable Certificate : Type.
Variable pem_Decode : string -> option pem.Block * string.
Variable pem_Encode : pem.Block -> result string.
Variable X509KeyPair : string -> string -> result Certificate.
Variable store : redis.Store.

(** [GetCertificate], for the server name of the hello. *)
Definition GetCertificate (rcg : RedisCertGetter) (ServerName : string)
    : list Event * option (result Certificate) :=
  let key := Prefix rcg ++ ":" ++ ServerName in
  let log := [EvDebugf ("SNI: " ++ ServerName); EvHGet key (CertKey rcg)] in
  match store key (CertKey rcg) with
  | Err err => (log, Some (Err err))
  | Ok pem =>
      (log,
       tlsCertFromCertAndKeyPEMBundle Certificate pem_Decode pem_Encode
         X509KeyPair pem)
  end.

End GetCertificate.

(** The local variables of [UnmarshalCaddyfile]. *)
Record Locals : Type := mkLocals {
  host : string;
  port : string;
  db : Z;
  prefix : string;
  certKey : string
}.

(** The [switch] of [UnmarshalCaddyfile] on the current token. *)
Definition dispatch (d : Dispenser) (l : Locals) (rcg : RedisCertGetter)
    : result (Dispenser * Locals * RedisCertGetter) :=
  if String.eqb (Val d) "host" then
    let '(ok, d) := NextArg d in
    let l := if ok : bool
             then mkLocals (Val d) (port l) (db l) (prefix l) (certKey l)
             else l in
    Ok (d, l, rcg)
  else if String.eqb (Val d) "port" then
    let '(ok, d) := NextArg d in
    let l := if ok : bool
             then mkLocals (host l) (Val d) (db l) (prefix l) (certKey l)
             else l in
    Ok (d, l, rcg)
  else if String.eqb (Val d) "db" then
    let '(ok, d) := NextArg d in
    if ok : bool then
      match strconv.Atoi (Val d) with
      | Err _ => Err (ArgErr d)
      | Ok parsedDb =>
          Ok (d, mkLocals (host l) (port l) parsedDb (prefix l) (certKey l), rcg)
      end
    else Ok (d, l, rcg)
  else if String.eqb (Val d) "prefix" then
    let '(ok, d) := NextArg d in
    let l := if ok : bool
             then mkLocals (host l) (port l) (db l) (Val d) (certKey l)
             else l in
    Ok (d, l,
        mkRedisCertGetter (prefix l) (CertKey rcg) (redisClient rcg)
          (redisOptions rcg))
  else if String.eqb (Val d) "certKey" then
    let '(ok, d) := NextArg d in
    let l := if ok : bool
             then mkLocals (host l) (port l) (db l) (prefix l) (Val d)
             else l in
    Ok (d, l,
        mkRedisCertGetter (Prefix rcg) (certKey l) (redisClient rcg)
          (redisOptions rcg))
  else Err (Err_ d ("Unknown field: " ++ Val d)).

(** [for d.NextBlock(0) { switch ... }]. *)
Fixpoint blockLoop (rounds : nat) (d : Dispenser) (l : Locals)
           (rcg : RedisCertGetter)
    : option (result (Dispenser * Locals * RedisCertGetter)) :=
  match rounds with
  | O => None
  | S rounds' =>
      let '(more, d) := NextBlock 0 d in
      if negb more then Some (Ok (d, l, rcg))
      else
        match dispatch d l rcg with
        | Err err => Some (Err err)
        | Ok (d, l, rcg) => blockLoop rounds' d l rcg
        end
  end.

(** [for d.Next() { for d.NextBlock(0) { ... } }]. *)
Fixpoint nextLoop (rounds : nat) (d : Dispenser) (l : Locals)
           (rcg : RedisCertGetter)
    : option (result (Dispenser * Locals * RedisCertGetter)) :=
  match rounds with
  | O => None
  | S rounds' =>
      let '(more, d) := Next d in
      if negb more then Some (Ok (d, l, rcg))
      else
        match blockLoop rounds' d l rcg with
        | None => None
        | Some (Err err) => Some (Err err)
        | Some (Ok (d, l, rcg)) => nextLoop rounds' d l rcg
        end
  end.

(** [UnmarshalCaddyfile].  Every iteration of either loop moves the
    cursor forward, so [length tokens + 2] rounds are enough. *)
Definition UnmarshalCaddyfile (rcg : RedisCertGetter) (d : Dispenser)
    : option (result RedisCertGetter) :=
  let l := mkLocals "127.0.0.1" "6379" 0 "s" "cert" in
  match nextLoop (List.length (tokens d) + 2) d l rcg with
  | None => None
  | Some (Err err) => Some (Err err)
  | Some (Ok (_, l, rcg)) =>
      Some (Ok (mkRedisCertGetter (Prefix rcg) (CertKey rcg) (redisClient rcg)
                  (redis.mkOptions (strings.Join [host l; port l] ":") (db l))))
  end.

End TlsRedis.

(** ** The routing handler *)

Module Routing.

Import caddyfile.

(** [Middleware]: the options and the store client; [ctx] and [logger]
    hold nothing that the handler's result depends on. *)
Record Middleware : Type := mkMiddleware {
  Prefix : string;
  TokenKey : string;
  Domain : string;
  redisClient : option redis.Client;
  redisOptions : redis.Options
}.

(** [var m Middleware]: the zero value. *)
Definition zero : Middleware :=
  mkMiddleware EmptyString EmptyString EmptyString None
    (redis.mkOptions EmptyString 0).

(** [Provision]. *)
Definition Provision (m : Middleware) : Middleware * option error :=
  (mkMiddleware (Prefix m) (TokenKey m) (Domain m)
     (Some (redis.NewClient (redisOptions m))) (redisOptions m),
   None).

(** The placeholder of the [domain] template. *)
Definition placeholder : string := "{{token}}".

(** What [ServeHTTP] leaves behind: the request, the events and the
    error it returns. *)
Record Served : Type := mkServed {
  request : Request;
  events : list Event;
  returned : option error
}.

(** [ServeHTTP]: [store] is the store behind [m.redisClient], [next] the
    next handler of the chain. *)
Definition ServeHTTP (store : redis.Store) (m : Middleware) (r : Request)
             (next : Request -> option error) : Served :=
  let key := Prefix m ++ ":" ++ Host r in
  match store key (TokenKey m) with
  | Err err => mkServed r [EvHGet key (TokenKey m)] (Some err)
  | Ok token =>
      if negb (String.eqb token EmptyString) then
        let newHost := strings.Replace (Domain m) placeholder token 1 in
        let r' := mkRequest newHost (Method r) (RequestURI r) in
        mkServed r'
          [EvHGet key (TokenKey m);
           EvDebugf ("Replacing " ++ Host r ++ " to " ++ newHost);
           EvNext r']
          (next r')
      else
        mkServed r [EvHGet key (TokenKey m); EvNext r] (next r)
  end.

(** The local variables of [UnmarshalCaddyfile]. *)
Record Locals : Type := mkLocals {
  host : string;
  port : string;
  db : Z;
  prefix : string;
  tokenKey : string
}.

(** The [switch] of [UnmarshalCaddyfile] on the current token. *)
Definition dispatch (d : Dispenser) (l : Locals) (m : Middleware)
    : result (Dispenser * Locals * Middleware) :=
  if String.eqb (Val d) "host" then
    let '(ok, d) := NextArg d in
    let l := if ok : bool
             then mkLocals (Val d) (port l) (db l) (prefix l) (tokenKey l)
             else l in
    Ok (d, l, m)
  else if String.eqb (Val d) "port" then
    let '(ok, d) := NextArg d in
    let l := if ok : bool
             then mkLocals (host l) (Val d) (db l) (prefix l) (tokenKey l)
             else l in
    Ok (d, l, m)
  else if String.eqb (Val d) "db" then
    let '(ok, d) := NextArg d in
    if ok : bool then
      match strconv.Atoi (Val d) with
      | Err _ => Err (ArgErr d)
      | Ok parsedDb =>
          Ok (d, mkLocals (host l) (port l) parsedDb (prefix l) (tokenKey l), m)
      end
    else Ok (d, l, m)
  else if String.eqb (Val d) "prefix" then
    let '(ok, d) := NextArg d in
    let l := if ok : bool
             then mkLocals (host l) (port l) (db l) (Val d) (tokenKey l)
             else l in
    Ok (d, l,
        mkMiddleware (prefix l) (TokenKey m) (Domain m) (redisClient m)
          (redisOptions m))
  else if String.eqb (Val d) "domain" then
    let '(ok, d) := NextArg d in
    if negb ok then Err (Err_ d "expect domain value")
    else
      Ok (d, l,
          mkMiddleware (Prefix m) (TokenKey m) (Val d) (redisClient m)
            (redisOptions m))
  else if String.eqb (Val d) "tokenKey" then
    let '(ok, d) := NextArg d in
    let l := if ok : bool
             then mkLocals (host l) (port l) (db l) (prefix l) (Val d)
             else l in
    Ok (d, l,
        mkMiddleware (Prefix m) (tokenKey l) (Domain m) (redisClient m)
          (redisOptions m))
  else Err (Err_ d ("Unknown field: " ++ Val d)).

(** [for d.NextBlock(0) { switch ... }]. *)
Fixpoint blockLoop (rounds : nat) (d : Dispenser) (l : Locals) (m : Middleware)
    : option (result (Dispenser * Locals * Middleware)) :=
  match rounds with
  | O => None
  | S rounds' =>
      let '(more, d) := NextBlock 0 d in
      if negb more then Some (Ok (d, l, m))
      else
        match dispatch d l m with
        | Err err => Some (Err err)
        | Ok (d, l, m) => blockLoop rounds' d l m
        end
  end.

(** [for d.Next() { for d.NextBlock(0) { ... } }]. *)
Fixpoint nextLoop (rounds : nat) (d : Dispenser) (l : Locals) (m : Middleware)
    : option (result (Dispenser * Locals * Middleware)) :=
  match rounds with
  | O => None
  | S rounds' =>
      let '(more, d) := Next d in
      if negb more then Some (Ok (d, l, m))
      else
        match blockLoop rounds' d l m with
        | None => None
        | Some (Err err) => Some (Err err)
        | Some (Ok (d, l, m)) => nextLoop rounds' d l m
        end
  end.

(** [UnmarshalCaddyfile].  Every iteration of either loop moves the
    cursor forward, so [length tokens + 2] rounds are enough. *)
Definition UnmarshalCaddyfile (m : Middleware) (d : Dispenser)
    : option (result Middleware) :=
  let l := mkLocals "127.0.0.1" "6379" 0 "s" "token" in
  match nextLoop (List.length (tokens d) + 2) d l m with
  | None => None
  | Some (Err err) => Some (Err err)
  | Some (Ok (_, l, m)) =>
      Some (Ok (mkMiddleware (Prefix m) (TokenKey m) (Domain m) (redisClient m)
                  (redis.mkOptions (strings.Join [host l; port l] ":") (db l))))
  end.

(** [parseCaddyfile]: unmarshals into a new [Middleware]. *)
Definition parseCaddyfile (d : Dispenser) : option (result Middleware) :=
  UnmarshalCaddyfile zero d.

(** Starting the handler from a Caddyfile: [parseCaddyfile], then
    [Provision]. *)
Definition configure (d : Dispenser) : option (result Middleware) :=
  match parseCaddyfile d with
  | None => None
  | Some (Err err) => Some (Err err)
  | Some (Ok m) =>
      match Provision m with
      | (m, None) => Some (Ok m)
      | (_, Some err) => Some (Err err)
      end
  end.

End Routing.

(** A Caddyfile token of the file [Caddyfile], written without quotes. *)
Definition tok (line : Z) (text : string) : caddyfile.Token :=
  caddyfile.mkToken "Caddyfile" line text 0.

(** The same token written between double quotes. *)
Definition quoted (line : Z) (text : string) : caddyfile.Token :=
  caddyfile.mkToken "Caddyfile" line text 34.

(** ** Caddyfile blocks *)

Import caddyfile.

(** The tokens of option lines [name value], one line each, from line
    [line] on. *)
Fixpoint optionLines (line : Z) (opts : list (string * string)) : list Token :=
  match opts with
  | [] => []
  | (name, value) :: opts' =>
      tok line name :: tok line value :: optionLines (line + 1) opts'
  end.

(** An option line that the routing handler accepts: a known name, a
    value that fits on the line, and a number for [db]. *)
Definition settable (opt : string * string) : bool :=
  let '(name, value) := opt in
  (String.eqb name "host" || String.eqb name "port" || String.eqb name "prefix"
   || String.eqb name "domain" || String.eqb name "tokenKey"
   || (String.eqb name "db"
       && match strconv.Atoi value with Ok _ => true | Err _ => false end))
  && negb (String.eqb value "{")
  && (countNewlines value =? 0)%Z.

(** A [routing] block: the option lines [opts], then a line with
    [domain] alone, then [rest]. *)
Definition routingBlock (opts : list (string * string)) (rest : list Token)
  : list Token :=
  tok 1 "routing" :: tok 1 "{"
  :: (optionLines 2 opts
      ++ tok (2 + Z.of_nat (List.length opts)) "domain" :: rest)%list.

(** The text [text] is among the tokens of the dispenser. *)
Definition dispenses (d : Dispenser) (text : string) : Prop :=
  exists t, In t (tokens d) /\ Text t = text.

(** The cursor is on a token. *)
Definition onToken (d : Dispenser) : Prop :=
  (0 <= cursor d <= len d - 1)%Z.

(** The tokens after the cursor. *)
Definition remaining (d : Dispenser) : nat :=
  Z.to_nat (len d - 1 - cursor d).

(** The dispenser on the tokens [pre ++ tl], with its cursor on the first
    token of [tl]. *)
Definition here (pre tl : list Token) (n : Z) : Dispenser :=
  mkDispenser (pre ++ tl) (Z.of_nat (List.length pre)) n.

(** A block in braces: the directive and the opening brace on line 1,
    the option lines [opts] from line 2 on, and the closing brace on a
    line of its own. *)
Definition closedBlock (directive : string) (opts : list (string * string))
    : list Token :=
  tok 1 directive :: tok 1 "{"
  :: (optionLines 2 opts ++ [tok (2 + Z.of_nat (List.length opts)) "}"])%list.

(** A block that breaks off: the option lines [opts], then the tokens
    [rest]. *)
Definition openBlock (directive : string) (opts : list (string * string))
           (rest : list Token) : list Token :=
  tok 1 directive :: tok 1 "{" :: (optionLines 2 opts ++ rest)%list.

(** The names that the [switch] of the routing handler knows. *)
Definition routingOption (name : string) : bool :=
  String.eqb name "host" || String.eqb name "port" || String.eqb name "db"
  || String.eqb name "prefix" || String.eqb name "domain"
  || String.eqb name "tokenKey".

(** What a line [name value] of a [routing] block sets: the local
    variable, and for [prefix], [domain] and [tokenKey] the field. *)
Definition routingAssign (lm : Routing.Locals * Routing.Middleware)
           (opt : string * string) : Routing.Locals * Routing.Middleware :=
  let '(l, m) := lm in
  let '(name, value) := opt in
  if String.eqb name "host" then
    (Routing.mkLocals value (Routing.port l) (Routing.db l) (Routing.prefix l)
       (Routing.tokenKey l), m)
  else if String.eqb name "port" then
    (Routing.mkLocals (Routing.host l) value (Routing.db l) (Routing.prefix l)
       (Routing.tokenKey l), m)
  else if String.eqb name "db" then
    match strconv.Atoi value with
    | Ok parsedDb =>
        (Routing.mkLocals (Routing.host l) (Routing.port l) parsedDb
           (Routing.prefix l) (Routing.tokenKey l), m)
    | Err _ => (l, m)
    end
  else if String.eqb name "prefix" then
    (Routing.mkLocals (Routing.host l) (Routing.port l) (Routing.db l) value
       (Routing.tokenKey l),
     Routing.mkMiddleware value (Routing.TokenKey m) (Routing.Domain m)
       (Routing.redisClient m) (Routing.redisOptions m))
  else if String.eqb name "domain" then
    (l,
     Routing.mkMiddleware (Routing.Prefix m) (Routing.TokenKey m) value
       (Routing.redisClient m) (Routing.redisOptions m))
  else if String.eqb name "tokenKey" then
    (Routing.mkLocals (Routing.host l) (Routing.port l) (Routing.db l)
       (Routing.prefix l) value,
     Routing.mkMiddleware (Routing.Prefix m) value (Routing.Domain m)
       (Routing.redisClient m) (Routing.redisOptions m))
  else (l, m).

(** The local variables of the routing handler at the start. *)
Definition routingDefaults : Routing.Locals :=
  Routing.mkLocals "127.0.0.1" "6379" 0 "s" "token".

(** What the routing handler is after the option lines [opts]: the
    assignments in the order of the lines, then the store options from
    the local variables. *)
Definition routingConfigured (m : Routing.Middleware)
           (opts : list (string * string)) : Routing.Middleware :=
  let '(l, m') := fold_left routingAssign opts (routingDefaults, m) in
  Routing.mkMiddleware (Routing.Prefix m') (Routing.TokenKey m')
    (Routing.Domain m') (Routing.redisClient m')
    (redis.mkOptions
       (strings.Join [Routing.host l; Routing.port l] ":") (Routing.db l)).

(** The loop of the routing handler entered at its [switch]. *)
Definition routingFromSwitch (rounds : nat) (d : Dispenser)
           (l : Routing.Locals) (m : Routing.Middleware)
    : option (result (Dispenser * Routing.Locals * Routing.Middleware)) :=
  match Routing.dispatch d l m with
  | Err err => Some (Err err)
  | Ok (d, l, m) => Routing.blockLoop rounds d l m
  end.

(** The names that the [switch] of the certificate getter knows. *)
Definition certOption (name : string) : bool :=
  String.eqb name "host" || String.eqb name "port" || String.eqb name "db"
  || String.eqb name "prefix" || String.eqb name "certKey".

(** An option line that the certificate getter accepts. *)
Definition settableCert (opt : string * string) : bool :=
  let '(name, value) := opt in
  (String.eqb name "host" || String.eqb name "port" || String.eqb name "prefix"
   || String.eqb name "certKey"
   || (String.eqb name "db"
       && match strconv.Atoi value with Ok _ => true | Err _ => false end))
  && negb (String.eqb value "{")
  && (countNewlines value =? 0)%Z.

(** What a line [name value] of a [redis] block sets: the local
    variable, and for [prefix] and [certKey] the field. *)
Definition certAssign (lr : TlsRedis.Locals * TlsRedis.RedisCertGetter)
           (opt : string * string) : TlsRedis.Locals * TlsRedis.RedisCertGetter :=
  let '(l, rcg) := lr in
  let '(name, value) := opt in
  if String.eqb name "host" then
    (TlsRedis.mkLocals value (TlsRedis.port l) (TlsRedis.db l)
       (TlsRedis.prefix l) (TlsRedis.certKey l), rcg)
  else if String.eqb name "port" then
    (TlsRedis.mkLocals (TlsRedis.host l) value (TlsRedis.db l)
       (TlsRedis.prefix l) (TlsRedis.certKey l), rcg)
  else if String.eqb name "db" then
    match strconv.Atoi value with
    | Ok parsedDb =>
        (TlsRedis.mkLocals (TlsRedis.host l) (TlsRedis.port l) parsedDb
           (TlsRedis.prefix l) (TlsRedis.certKey l), rcg)
    | Err _ => (l, rcg)
    end
  else if String.eqb name "prefix" then
    (TlsRedis.mkLocals (TlsRedis.host l) (TlsRedis.port l) (TlsRedis.db l)
       value (TlsRedis.certKey l),
     TlsRedis.mkRedisCertGetter value (TlsRedis.CertKey rcg)
       (TlsRedis.redisClient rcg) (TlsRedis.redisOptions rcg))
  else if String.eqb name "certKey" then
    (TlsRedis.mkLocals (TlsRedis.host l) (TlsRedis.port l) (TlsRedis.db l)
       (TlsRedis.prefix l) value,
     TlsRedis.mkRedisCertGetter (TlsRedis.Prefix rcg) value
       (TlsRedis.redisClient rcg) (TlsRedis.redisOptions rcg))
  else (l, rcg).

(** The local variables of the certificate getter at the start. *)
Definition certDefaults : TlsRedis.Locals :=
  TlsRedis.mkLocals "127.0.0.1" "6379" 0 "s" "cert".

(** What the certificate getter is after the option lines [opts]. *)
Definition certConfigured (rcg : TlsRedis.RedisCertGetter)
           (opts : list (string * string)) : TlsRedis.RedisCertGetter :=
  let '(l, rcg') := fold_left certAssign opts (certDefaults, rcg) in
  TlsRedis.mkRedisCertGetter (TlsRedis.Prefix rcg') (TlsRedis.CertKey rcg')
    (TlsRedis.redisClient rcg')
    (redis.mkOptions
       (strings.Join [TlsRedis.host l; TlsRedis.port l] ":") (TlsRedis.db l)).

(** The loop of the certificate getter entered at its [switch]. *)
Definition certFromSwitch (rounds : nat) (d : Dispenser)
           (l : TlsRedis.Locals) (rcg : TlsRedis.RedisCertGetter)
    : option (result (Dispenser * TlsRedis.Locals * TlsRedis.RedisCertGetter)) :=
  match TlsRedis.dispatch d l rcg with
  | Err err => Some (Err err)
  | Ok (d, l, rcg) => TlsRedis.blockLoop rounds d l rcg
  end.

(** ** Sample inputs *)

Module Samples.

Import PemText.

Definition certA : string := armour "CERTIFICATE" "AAAA".
Definition certD : string := armour "CERTIFICATE" "DDDD".
Definition ecParams : string := armour "EC PARAMETERS" "BBBB".
Definition ecKey : string := armour "EC PRIVATE KEY" "CCCC".
Definition rsaKey : string := armour "RSA PRIVATE KEY" "EEEE".

Definition blockOf (typ body : string) : pem.Block := pem.mkBlock typ [] body.

(** A certificate, an EC key in two blocks, and a second certificate. *)
Definition ecBundle : string := certA ++ ecParams ++ ecKey ++ certD.

(** A key and nothing else. *)
Definition keyOnlyBundle : string := rsaKey.

(** EC parameters with a certificate instead of their key. *)
Definition unpairedBundle : string := certA ++ ecParams ++ certD.

(** EC parameters alone. *)
Definition loneParamsBundle : string := ecParams.

(** EC parameters after the key, and the same bundle without them. *)
Definition trailingParamsBundle : string := certA ++ rsaKey ++ ecParams ++ certD.
Definition plainBundle : string := certA ++ rsaKey ++ certD.

(** The [routing] block of the repository's Caddyfile. *)
Definition routingFull : caddyfile.Dispenser :=
  caddyfile.NewDispenser
    [tok 9 "routing"; tok 9 "{";
     tok 10 "host"; tok 10 "127.0.0.1";
     tok 11 "port"; tok 11 "6379";
     tok 12 "db"; tok 12 "0";
     tok 13 "prefix"; tok 13 "site";
     tok 14 "tokenKey"; tok 14 "token";
     tok 16 "domain"; tok 16 "{{token}}.test.com";
     tok 17 "}"].

(** A [routing] block with the template and nothing else. *)
Definition routingDomainOnly : caddyfile.Dispenser :=
  caddyfile.NewDispenser
    [tok 9 "routing"; tok 9 "{";
     tok 10 "domain"; tok 10 "{{token}}.test.com";
     tok 11 "}"].

(** A [routing] block with [prefix] and [tokenKey] named without a
    value. *)
Definition routingBareOptions : caddyfile.Dispenser :=
  caddyfile.NewDispenser
    [tok 9 "routing"; tok 9 "{";
     tok 10 "prefix";
     tok 11 "tokenKey";
     tok 12 "domain"; tok 12 "{{token}}.test.com";
     tok 13 "}"].

(** A [routing] block without the template. *)
Definition routingHostOnly : caddyfile.Dispenser :=
  caddyfile.NewDispenser
    [tok 9 "routing"; tok 9 "{";
     tok 10 "host"; tok 10 "10.0.0.1";
     tok 11 "}"].

(** A block of a type that the decoder does not know, after a
    certificate and a key. *)
Definition unknownBundle : string :=
  certA ++ ecParams ++ ecKey ++ armour "FOO" "FFFF" ++ certD.

(** Certificates and no key. *)
Definition certOnlyBundle : string := certA ++ certD.

(** A second key after the first. *)
Definition twoKeysBundle : string := certA ++ rsaKey ++ ecKey ++ certD.

(** A [tls.X509KeyPair] that refuses the pair. *)
Definition mismatch : string -> string -> result KeyPair :=
  fun _ _ => Err "tls: private key does not match public key".

(** A store with one record. *)
Definition oneRecord (key field value : string) : redis.Store :=
  fun k f =>
    if String.eqb k key && String.eqb f field then Ok value
    else Err "redis: nil".

(** A [get_certificate redis] block with the address and nothing else. *)
Definition redisHostOnly : caddyfile.Dispenser :=
  caddyfile.NewDispenser
    [tok 20 "redis"; tok 20 "{";
     tok 21 "host"; tok 21 "127.0.0.1";
     tok 22 "}"].

End Samples.

(** * Properties *)

(** ** Strings and slices *)

Lemma append_nil_r (s : string) : s ++ EmptyString = s.
Proof. induction s as [|c s IH]; simpl; [reflexivity | now rewrite IH]. Qed.

Lemma append_assoc (s t u : string) : (s ++ t) ++ u = s ++ t ++ u.
Proof. induction s as [|c s IH]; simpl; [reflexivity | now rewrite IH]. Qed.

Lemma length_append (s t : string) :
  String.length (s ++ t) = String.length s + String.length t.
Proof. induction s as [|c s IH]; simpl; [reflexivity | now rewrite IH]. Qed.

Lemma append_eq_nil (s t : string) : s ++ t = EmptyString -> s = EmptyString.
Proof. destruct s; simpl; [reflexivity | discriminate]. Qed.

Lemma length_zero_nil (s : string) :
  (String.length s =? 0)%nat = true <-> s = EmptyString.
Proof.
  destruct s; simpl; split; intro H; try reflexivity; discriminate.
Qed.

Lemma length_drop (n : nat) (s : string) :
  String.length (drop n s) = String.length s - n.
Proof.
  revert s; induction n as [|n IH]; intros [|c s]; simpl; auto.
Qed.

Lemma length_take (n : nat) (s : string) :
  n <= String.length s -> String.length (take n s) = n.
Proof.
  revert s; induction n as [|n IH]; intros [|c s]; simpl; intro H;
    try reflexivity; try lia.
  rewrite IH; [reflexivity | lia].
Qed.

Lemma take_append (s t : string) : take (String.length s) (s ++ t) = s.
Proof. induction s as [|c s IH]; simpl; [now destruct t | now rewrite IH]. Qed.

Lemma drop_append (s t : string) : drop (String.length s) (s ++ t) = t.
Proof. induction s as [|c s IH]; simpl; [now destruct t | exact IH]. Qed.

Lemma drop_drop (n k : nat) (s : string) : drop k (drop n s) = drop (n + k) s.
Proof.
  revert s; induction n as [|n IH]; intros s; simpl.
  - now destruct s.
  - destruct s as [|c s]; [now destruct k | apply IH].
Qed.

Lemma take_drop (n : nat) (s : string) : take n s ++ drop n s = s.
Proof.
  revert s; induction n as [|n IH]; intros [|c s]; simpl; try reflexivity.
  now rewrite IH.
Qed.

Lemma append_inj_length (s s' t t' : string) :
  s ++ t = s' ++ t' -> String.length s = String.length s' -> s = s' /\ t = t'.
Proof.
  revert s'; induction s as [|c s IH]; intros [|c' s'] H L; simpl in *;
    try discriminate; auto.
  injection H as -> H. destruct (IH s' H) as [-> ->]; auto.
Qed.

Lemma prefix_append (p s : string) :
  String.prefix p s = true <-> exists t, s = p ++ t.
Proof.
  revert s; induction p as [|c p IH]; intros s; simpl.
  - destruct s; split; eauto.
  - destruct s as [|c' s]; simpl.
    + split; [discriminate | intros [t H]; discriminate].
    + destruct (Ascii.ascii_dec c c') as [->|Hne].
      * rewrite IH. split; intros [t H]; exists t; [now rewrite H|].
        now injection H.
      * split; [discriminate | intros [t H]; injection H; congruence].
Qed.

Lemma prefix_length (p s : string) :
  String.prefix p s = true -> String.length p <= String.length s.
Proof.
  intros H. apply prefix_append in H as [t ->]. rewrite length_append. lia.
Qed.

(** ** The bundle decoder *)

Section BundleDecoderFacts.

Variable Certificate : Type.
Variable pem_Decode : string -> option pem.Block * string.
Variable pem_Encode : pem.Block -> result string.
Variable X509KeyPair : string -> string -> result Certificate.

(** What the decoder relies on from [encoding/pem]: a decoded block
    consumes input; a decoded block can be encoded again ([pem.Encode]
    refuses only a header key with a colon, which [pem.Decode] never
    yields); an encoding is never empty (it starts with the [BEGIN]
    line). *)
Hypothesis pem_Decode_consumes :
  forall data blk rest,
    pem_Decode data = (Some blk, rest) ->
    String.length rest < String.length data.
Hypothesis pem_Encode_decoded :
  forall data blk rest,
    pem_Decode data = (Some blk, rest) -> exists out, pem_Encode blk = Ok out.
Hypothesis pem_Encode_nonempty :
  forall blk out, pem_Encode blk = Ok out -> out <> EmptyString.

Local Abbreviation scan := (scanLoop pem_Decode pem_Encode).
Local Abbreviation scanB := (scanBlocks pem_Encode).
Local Abbreviation blocks := (pemBlocks pem_Decode).
Local Abbreviation decode :=
  (tlsCertFromCertAndKeyPEMBundle Certificate pem_Decode pem_Encode X509KeyPair).
Local Abbreviation chain := (chainOf pem_Encode).
Local Abbreviation key := (firstKey pem_Encode).
Local Abbreviation enc := (encoded pem_Encode).
Local Abbreviation encodable := (encodableBy pem_Encode).

Lemma blocksFrom_rounds (r1 r2 : nat) (data : string) :
  String.length data < r1 -> String.length data < r2 ->
  blocksFrom pem_Decode r1 data = blocksFrom pem_Decode r2 data.
Proof.
  revert r2 data; induction r1 as [|r1 IH]; intros r2 data H1 H2; [lia|].
  destruct r2 as [|r2]; [lia|]. simpl.
  destruct (pem_Decode data) as [[blk|] rest] eqn:E; [|reflexivity].
  apply pem_Decode_consumes in E. f_equal. apply IH; lia.
Qed.

Lemma pemBlocks_nil (data : string) (rest : string) :
  pem_Decode data = (None, rest) -> blocks data = [].
Proof. intros E. unfold pemBlocks. simpl. now rewrite E. Qed.

Lemma pemBlocks_cons (data : string) (blk : pem.Block) (rest : string) :
  pem_Decode data = (Some blk, rest) -> blocks data = blk :: blocks rest.
Proof.
  intros E. unfold pemBlocks.
  change (blocksFrom pem_Decode (S (String.length data)) data)
    with (match pem_Decode data with
          | (None, _) => []
          | (Some b, rest') =>
              b :: blocksFrom pem_Decode (String.length data) rest'
          end).
  rewrite E. f_equal.
  apply pem_Decode_consumes in E. apply blocksFrom_rounds; lia.
Qed.

Lemma blocksFrom_encodable (r : nat) (data : string) :
  Forall encodable (blocksFrom pem_Decode r data).
Proof.
  revert data; induction r as [|r IH]; intros data; simpl; [constructor|].
  destruct (pem_Decode data) as [[blk|] rest] eqn:E; constructor.
  - exact (pem_Encode_decoded _ _ _ E).
  - apply IH.
Qed.

Lemma pemBlocks_encodable (data : string) : Forall encodable (blocks data).
Proof. apply blocksFrom_encodable. Qed.

(** The loop over the bytes is the loop over the blocks. *)
Lemma scanLoop_blocks (r : nat) (data cb kb : string) (fk : bool) :
  String.length data < r ->
  scan r data cb kb fk = Some (scanB (blocksFrom pem_Decode r data) cb kb fk).
Proof.
  revert data cb kb fk; induction r as [|r IH]; intros data cb kb fk Hr; [lia|].
  simpl. destruct (pem_Decode data) as [[blk|] rest] eqn:E; [|reflexivity].
  pose proof (pem_Decode_consumes _ _ _ E) as Hrest.
  cbn [scanBlocks]. unfold isCertificate, isECParameters, isPrivateKey.
  destruct (String.eqb (pem.Type_ blk) "CERTIFICATE").
  { destruct (pem_Encode blk); [apply IH; lia | reflexivity]. }
  destruct (String.eqb (pem.Type_ blk) "EC PARAMETERS").
  { destruct fk; simpl; [apply IH; lia|].
    destruct (pem_Encode blk) as [out|]; [|reflexivity].
    destruct r as [|r']; [lia|]. cbn [blocksFrom].
    destruct (pem_Decode rest) as [[next|] rest'] eqn:E'; [|reflexivity].
    pose proof (pem_Decode_consumes _ _ _ E') as Hrest'.
    unfold isECPrivateKey.
    destruct (String.eqb (pem.Type_ next) "EC PRIVATE KEY"); [|reflexivity].
    cbn [negb]. destruct (pem_Encode next); [|reflexivity].
    rewrite IH by lia.
    now rewrite (blocksFrom_rounds (S r') r' rest') by lia. }
  destruct (String.eqb (pem.Type_ blk) "PRIVATE KEY"
            || strings.HasSuffix (pem.Type_ blk) " PRIVATE KEY").
  { destruct fk; simpl; [apply IH; lia|].
    destruct (pem_Encode blk); [apply IH; lia | reflexivity]. }
  reflexivity.
Qed.

(** The decoder, read over the blocks of the bundle. *)
Lemma decode_blocks (bundle : string) :
  decode bundle =
  Some match scanB (blocks bundle) EmptyString EmptyString false with
       | Err err => Err err
       | Ok (certPEMBytes, keyPEMBytes) =>
           if (String.length certPEMBytes =? 0)%nat then
             Err "failed to parse PEM data"
           else if (String.length keyPEMBytes =? 0)%nat then
             Err "no private key block found"
           else
             match X509KeyPair certPEMBytes keyPEMBytes with
             | Err err => Err ("making X509 key pair: " ++ err)
             | Ok cert => Ok cert
             end
       end.
Proof.
  unfold tlsCertFromCertAndKeyPEMBundle, pemBlocks.
  rewrite scanLoop_blocks by lia.
  destruct (scanB _ _ _ _) as [[c k]|]; [|reflexivity].
  destruct (String.length c =? 0)%nat; [reflexivity|].
  destruct (String.length k =? 0)%nat; [reflexivity|].
  destruct (X509KeyPair c k); reflexivity.
Qed.

(** X8: the loop of the decoder ends on every bundle: the decoder
    returns, within [length bundle + 1] iterations. *)
Lemma tlsCertFromCertAndKeyPEMBundle_returns (bundle : string) :
  exists res, decode bundle = Some res.
Proof. rewrite decode_blocks. eauto. Qed.

(** *** Block types are disjoint *)

Lemma certificate_is_no_key (b : pem.Block) :
  isCertificate b = true ->
  isECParameters b = false /\ isPrivateKey b = false /\ isECPrivateKey b = false.
Proof.
  unfold isCertificate, isECParameters, isPrivateKey, isECPrivateKey.
  intros H. apply String.eqb_eq in H. rewrite H. repeat split; reflexivity.
Qed.

Lemma EC_parameters_is_no_key (b : pem.Block) :
  isECParameters b = true ->
  isCertificate b = false /\ isPrivateKey b = false /\ isECPrivateKey b = false.
Proof.
  unfold isCertificate, isECParameters, isPrivateKey, isECPrivateKey.
  intros H. apply String.eqb_eq in H. rewrite H. repeat split; reflexivity.
Qed.

Lemma EC_private_key_is_key (b : pem.Block) :
  isECPrivateKey b = true ->
  isCertificate b = false /\ isECParameters b = false /\ isPrivateKey b = true.
Proof.
  unfold isCertificate, isECParameters, isPrivateKey, isECPrivateKey.
  intros H. apply String.eqb_eq in H. rewrite H. repeat split; reflexivity.
Qed.

Lemma private_key_is_no_certificate (b : pem.Block) :
  isPrivateKey b = true -> isCertificate b = false.
Proof.
  intros H. destruct (isCertificate b) eqn:E; [|reflexivity].
  apply certificate_is_no_key in E as (_ & E & _). congruence.
Qed.

Lemma encoded_Ok (b : pem.Block) (out : string) :
  pem_Encode b = Ok out -> enc b = out.
Proof. unfold encoded. now intros ->. Qed.

Lemma chainOf_certificate (b : pem.Block) (bs : list pem.Block) :
  isCertificate b = true -> chain (b :: bs) = enc b ++ chain bs.
Proof. unfold chainOf. simpl. now intros ->. Qed.

Lemma chainOf_other (b : pem.Block) (bs : list pem.Block) :
  isCertificate b = false -> chain (b :: bs) = chain bs.
Proof. unfold chainOf. simpl. now intros ->. Qed.

Lemma chainOf_none (bs : list pem.Block) :
  (forall b, In b bs -> isCertificate b = false) -> chain bs = EmptyString.
Proof.
  induction bs as [|b bs IH]; intros H; [reflexivity|].
  rewrite chainOf_other by (apply H; now left).
  apply IH. intros b' Hb'. apply H. now right.
Qed.

Lemma chainOf_nonempty (bs : list pem.Block) :
  Forall encodable bs -> Exists (fun b => isCertificate b = true) bs ->
  chain bs <> EmptyString.
Proof.
  induction bs as [|b bs IH]; intros Henc Hex; [inversion Hex|].
  inversion Henc as [|? ? [out Hout] Henc']; subst.
  destruct (isCertificate b) eqn:E.
  - rewrite chainOf_certificate by assumption.
    rewrite (encoded_Ok _ _ Hout). intros Heq.
    apply append_eq_nil in Heq. exact (pem_Encode_nonempty _ _ Hout Heq).
  - rewrite chainOf_other by assumption. apply IH; [assumption|].
    inversion Hex; subst; [congruence | assumption].
Qed.

Lemma firstKey_nonempty (bs : list pem.Block) (k : string) :
  Forall encodable bs -> key bs = Some k -> k <> EmptyString.
Proof.
  induction bs as [|b bs IH]; intros Henc Hk; [discriminate|].
  inversion Henc as [|? ? [out Hout] Henc']; subst. simpl in Hk.
  destruct (isECParameters b).
  - destruct bs as [|next bs']; [discriminate|].
    destruct (isECPrivateKey next); [|discriminate].
    injection Hk as <-. rewrite (encoded_Ok _ _ Hout). intros Heq.
    apply append_eq_nil in Heq. exact (pem_Encode_nonempty _ _ Hout Heq).
  - destruct (isPrivateKey b).
    + injection Hk as <-. rewrite (encoded_Ok _ _ Hout).
      exact (pem_Encode_nonempty _ _ Hout).
    + now apply IH.
Qed.

(** *** The scan of a block sequence *)

(** A scan that completes has appended exactly the chain of the blocks. *)
Lemma scanBlocks_chain (n : nat) :
  forall bs cb kb fk cb' kb',
    List.length bs <= n ->
    scanB bs cb kb fk = Ok (cb', kb') -> cb' = cb ++ chain bs.
Proof.
  induction n as [|n IH]; intros [|b bs] cb kb fk cb' kb' Hn H;
    simpl in Hn; try lia.
  - injection H as <- <-. now rewrite append_nil_r.
  - injection H as <- <-. now rewrite append_nil_r.
  - cbn [scanBlocks] in H. destruct (isCertificate b) eqn:Ec.
    { destruct (pem_Encode b) as [out|] eqn:Eo; [|discriminate].
      apply IH in H; [|lia]. rewrite chainOf_certificate by assumption.
      rewrite (encoded_Ok _ _ Eo). now rewrite <- append_assoc. }
    rewrite chainOf_other by assumption.
    destruct (isECParameters b).
    { destruct fk; cbn [negb] in H; [apply IH in H; [assumption | lia]|].
      destruct (pem_Encode b) as [out|]; [|discriminate].
      destruct bs as [|next bs']; [discriminate|].
      destruct (isECPrivateKey next) eqn:En; cbn [negb] in H; [|discriminate].
      destruct (pem_Encode next) as [out'|]; [|discriminate].
      apply IH in H; [|simpl in Hn; lia].
      apply EC_private_key_is_key in En as (En & _).
      now rewrite chainOf_other by assumption. }
    destruct (isPrivateKey b); [|discriminate].
    destruct fk; cbn [negb] in H; [apply IH in H; [assumption | lia]|].
    destruct (pem_Encode b) as [out|]; [|discriminate].
    apply IH in H; [assumption | lia].
Qed.

(** The scan of recognised blocks: the chain, and the first key. *)
Lemma scanBlocks_well_formed (n : nat) :
  forall bs cb kb,
    List.length bs <= n ->
    Forall encodable bs -> Forall (fun b => recognised b = true) bs ->
    scanB bs cb kb true = Ok (cb ++ chain bs, kb)
    /\ (forall k, key bs = Some k ->
                  scanB bs cb kb false = Ok (cb ++ chain bs, kb ++ k)).
Proof.
  induction n as [|n IH]; intros [|b bs] cb kb Hn Henc Hrec;
    simpl in Hn; try lia.
  - rewrite append_nil_r. split; [reflexivity | discriminate].
  - rewrite append_nil_r. split; [reflexivity | discriminate].
  - inversion Henc as [|? ? [out Hout] Henc']; subst.
    inversion Hrec as [|? ? Hb Hrec']; subst.
    cbn [scanBlocks firstKey]. rewrite Hout.
    destruct (isCertificate b) eqn:Ec.
    { destruct (certificate_is_no_key _ Ec) as (-> & -> & _).
      rewrite chainOf_certificate by assumption.
      rewrite (encoded_Ok _ _ Hout), <- append_assoc.
      apply IH; [lia | assumption | assumption]. }
    rewrite chainOf_other by assumption.
    destruct (isECParameters b) eqn:Ep.
    { cbn [negb]. split; [apply IH; [lia | assumption | assumption]|].
      intros k Hk. destruct bs as [|next bs']; [discriminate|].
      destruct (isECPrivateKey next) eqn:En; [|discriminate].
      injection Hk as <-. cbn [negb].
      inversion Henc' as [|? ? [out' Hout'] Henc'']; subst.
      inversion Hrec' as [|? ? _ Hrec'']; subst.
      rewrite Hout', (encoded_Ok _ _ Hout), (encoded_Ok _ _ Hout').
      apply EC_private_key_is_key in En as (En & _).
      rewrite (chainOf_other next) by assumption.
      rewrite <- append_assoc.
      apply IH; [simpl in Hn; lia | assumption | assumption]. }
    destruct (isPrivateKey b) eqn:Ek.
    { cbn [negb]. split; [apply IH; [lia | assumption | assumption]|].
      intros k Hk. injection Hk as <-. rewrite (encoded_Ok _ _ Hout).
      apply IH; [lia | assumption | assumption]. }
    unfold recognised in Hb. rewrite Ec, Ep, Ek in Hb. discriminate.
Qed.

(** Leading certificates only extend the chain. *)
Lemma scanBlocks_certificates (certs tl : list pem.Block) :
  forall cb kb fk,
    Forall (fun b => isCertificate b = true) certs -> Forall encodable certs ->
    scanB (certs ++ tl) cb kb fk = scanB tl (cb ++ chain certs) kb fk.
Proof.
  induction certs as [|b certs IH]; intros cb kb fk Hc Henc.
  - simpl. unfold chainOf. simpl. now rewrite append_nil_r.
  - inversion Hc; subst. inversion Henc as [|? ? [out Hout] Henc']; subst.
    cbn [app scanBlocks]. rewrite H1, Hout.
    rewrite chainOf_certificate by assumption.
    rewrite (encoded_Ok _ _ Hout), <- append_assoc. now apply IH.
Qed.

(** Private keys alone leave the chain accumulator as it is. *)
Lemma scanBlocks_keys_only (bs : list pem.Block) :
  forall cb kb fk,
    Forall (fun b => isPrivateKey b = true) bs -> Forall encodable bs ->
    exists kb', scanB bs cb kb fk = Ok (cb, kb').
Proof.
  induction bs as [|b bs IH]; intros cb kb fk Hk Henc; [now exists kb|].
  inversion Hk as [|? ? Hb Hk']; subst.
  inversion Henc as [|? ? [out Hout] Henc']; subst.
  cbn [scanBlocks]. rewrite (private_key_is_no_certificate _ Hb), Hb, Hout.
  destruct (isECParameters b) eqn:Ep.
  { apply EC_parameters_is_no_key in Ep as (_ & Ep & _). congruence. }
  destruct fk; cbn [negb]; now apply IH.
Qed.

(** Once a key is found, an [EC PARAMETERS] block is passed over. *)
Lemma scanBlocks_skips_EC_parameters (n : nat) :
  forall pre ec post cb kb fk,
    List.length pre <= n ->
    isECParameters ec = true ->
    fk = true \/ Exists (fun b => isPrivateKey b = true) pre ->
    scanB (pre ++ ec :: post) cb kb fk = scanB (pre ++ post) cb kb fk.
Proof.
  induction n as [|n IH]; intros [|b pre] ec post cb kb fk Hn Hec Hk;
    simpl in Hn; try lia.
  - destruct Hk as [->|Hk]; [|inversion Hk].
    cbn [app scanBlocks]. rewrite Hec.
    now destruct (EC_parameters_is_no_key _ Hec) as (-> & _).
  - destruct Hk as [->|Hk]; [|inversion Hk].
    cbn [app scanBlocks]. rewrite Hec.
    now destruct (EC_parameters_is_no_key _ Hec) as (-> & _).
  - cbn [app scanBlocks].
    assert (Hk' : isPrivateKey b = false ->
                  fk = true \/ Exists (fun b => isPrivateKey b = true) pre).
    { intros Hb. destruct Hk as [Hk|Hk]; [now left|].
      inversion Hk; subst; [congruence | now right]. }
    destruct (isCertificate b) eqn:Ec.
    { destruct (pem_Encode b); [|reflexivity].
      apply IH; [lia | assumption|].
      apply Hk'. now apply certificate_is_no_key in Ec. }
    destruct (isECParameters b) eqn:Ep.
    { specialize (Hk' (proj1 (proj2 (EC_parameters_is_no_key _ Ep)))).
      destruct fk; cbn [negb].
      { apply IH; [lia | assumption | now left]. }
      destruct Hk' as [Hk'|Hk']; [discriminate|].
      destruct (pem_Encode b); [|reflexivity].
      destruct pre as [|next pre']; [inversion Hk'|]. cbn [app].
      destruct (isECPrivateKey next); cbn [negb]; [|reflexivity].
      destruct (pem_Encode next); [|reflexivity].
      apply IH; [simpl in Hn; lia | assumption | now left]. }
    destruct (isPrivateKey b) eqn:Ek; [|reflexivity].
    destruct fk; cbn [negb].
    { apply IH; [lia | assumption | now left]. }
    destruct (pem_Encode b); [|reflexivity].
    apply IH; [lia | assumption | now left].
Qed.

(** *** The contract of the decoder *)

(** C1: for a bundle of recognised blocks with a certificate and a key,
    the decoder returns the key pair made from the chain (the re-encoded
    [CERTIFICATE] blocks of the whole bundle in encounter order, those
    after the key included) and from the first key-bearing block (an
    [EC PARAMETERS] block together with the [EC PRIVATE KEY] block after
    it). *)
Theorem decode_well_formed_bundle
  (bundle k : string) (cert : Certificate) :
  Forall (fun b => recognised b = true) (blocks bundle) ->
  Exists (fun b => isCertificate b = true) (blocks bundle) ->
  key (blocks bundle) = Some k ->
  X509KeyPair (chain (blocks bundle)) k = Ok cert ->
  decode bundle = Some (Ok cert).
Proof.
  intros Hrec Hcert Hkey Hpair. rewrite decode_blocks.
  pose proof (pemBlocks_encodable bundle) as Henc.
  destruct (scanBlocks_well_formed _ (blocks bundle) EmptyString EmptyString
              (le_n _) Henc Hrec) as [_ Hscan].
  rewrite (Hscan _ Hkey). cbn [String.append].
  pose proof (chainOf_nonempty _ Henc Hcert) as Hc.
  pose proof (firstKey_nonempty _ _ Henc Hkey) as Hk.
  destruct (String.length (chain (blocks bundle)) =? 0)%nat eqn:Lc.
  { apply length_zero_nil in Lc. contradiction. }
  destruct (String.length k =? 0)%nat eqn:Lk.
  { apply length_zero_nil in Lk. contradiction. }
  now rewrite Hpair.
Qed.

(** C4 (amended): a bundle without any block, a bundle of private-key
    blocks only, and every bundle without a [CERTIFICATE] block whose scan
    completes, fails with the chain-empty error ["failed to parse PEM
    data"]: the chain is tested before the key, so a bundle with only a
    key does not get ["no private key block found"]. *)
Theorem decode_chain_empty_first (bundle : string) :
  blocks bundle = []
  \/ Forall (fun b => isPrivateKey b = true) (blocks bundle)
  \/ ((forall b, In b (blocks bundle) -> isCertificate b = false)
      /\ exists acc,
           scan (S (String.length bundle)) bundle EmptyString EmptyString false
           = Some (Ok acc)) ->
  decode bundle = Some (Err "failed to parse PEM data").
Proof.
  intros H. rewrite decode_blocks.
  assert (Hscan : exists kb,
             scanB (blocks bundle) EmptyString EmptyString false
             = Ok (EmptyString, kb)).
  { destruct H as [H|[H|[Hno [[cb kb] H]]]].
    - rewrite H. now exists EmptyString.
    - apply scanBlocks_keys_only; [assumption | apply pemBlocks_encodable].
    - rewrite scanLoop_blocks in H by lia.
      assert (H' : scanB (blocks bundle) EmptyString EmptyString false
                   = Ok (cb, kb)) by (unfold pemBlocks; congruence).
      exists kb. rewrite H'.
      apply (scanBlocks_chain _ _ _ _ _ _ _ (le_n _)) in H'.
      rewrite (chainOf_none _ Hno) in H'. now subst cb. }
  destruct Hscan as [kb ->]. reflexivity.
Qed.

(** C5 (amended): when the scan reaches an [EC PARAMETERS] block with no
    key found yet (only [CERTIFICATE] blocks before it) and the block
    right after it is missing or is not an [EC PRIVATE KEY] block, the
    decoder fails with ["expected elliptic private key to immediately
    follow EC parameters"]. *)
Theorem decode_EC_parameters_unpaired
  (bundle : string) (certs : list pem.Block) (ec : pem.Block)
  (rest : list pem.Block) :
  blocks bundle = (certs ++ ec :: rest)%list ->
  Forall (fun b => isCertificate b = true) certs ->
  isECParameters ec = true ->
  match rest with
  | [] => True
  | next :: _ => pem.Type_ next <> "EC PRIVATE KEY"
  end ->
  decode bundle =
  Some (Err "expected elliptic private key to immediately follow EC parameters").
Proof.
  intros Hb Hcerts Hec Hnext. rewrite decode_blocks.
  pose proof (pemBlocks_encodable bundle) as Henc. rewrite Hb in *.
  apply Forall_app in Henc as [Henc1 Henc2].
  inversion Henc2 as [|? ? [out Hout] _]; subst.
  rewrite scanBlocks_certificates by assumption.
  cbn [scanBlocks]. rewrite Hec, Hout.
  destruct (EC_parameters_is_no_key _ Hec) as (-> & _). cbn [negb].
  destruct rest as [|next rest']; [reflexivity|].
  unfold isECPrivateKey. apply String.eqb_neq in Hnext. now rewrite Hnext.
Qed.

(** C6: an [EC PARAMETERS] block that comes after a key-bearing block is
    passed over, whatever follows it: the decoder returns for the bundle
    what it returns for the bundle without that block, so no EC-pairing
    error is raised for it and the block after it is scanned as usual. *)
Theorem decode_ignores_EC_parameters_after_key
  (bundle bundle' : string) (pre : list pem.Block) (ec : pem.Block)
  (post : list pem.Block) :
  blocks bundle = (pre ++ ec :: post)%list ->
  blocks bundle' = (pre ++ post)%list ->
  isECParameters ec = true ->
  Exists (fun b => isPrivateKey b = true) pre ->
  decode bundle = decode bundle'.
Proof.
  intros Hb Hb' Hec Hkey. rewrite !decode_blocks, Hb, Hb'.
  now rewrite (scanBlocks_skips_EC_parameters _ pre ec post _ _ _ (le_n _) Hec
                 (or_intror Hkey)).
Qed.

(** *** More of the decoder: what a scan says about the blocks *)

(** A recognised, error-free opening of the bundle: the scan goes on
    after it with the chain and the key of the opening. *)
Lemma scanBlocks_prefix (n : nat) :
  forall pre tl cb kb,
    List.length pre <= n ->
    Forall encodable pre -> Forall (fun b => recognised b = true) pre ->
    scanB (pre ++ tl) cb kb true = scanB tl (cb ++ chain pre) kb true
    /\ (forall k, key pre = Some k ->
                  scanB (pre ++ tl) cb kb false
                  = scanB tl (cb ++ chain pre) (kb ++ k) true).
Proof.
  induction n as [|n IH]; intros [|b bs] tl cb kb Hn Henc Hrec;
    simpl in Hn; try lia.
  - cbn [app]. unfold chainOf. cbn. rewrite append_nil_r.
    split; [reflexivity | discriminate].
  - cbn [app]. unfold chainOf. cbn. rewrite append_nil_r.
    split; [reflexivity | discriminate].
  - inversion Henc as [|? ? [out Hout] Henc']; subst.
    inversion Hrec as [|? ? Hb Hrec']; subst.
    cbn [app scanBlocks firstKey]. rewrite Hout.
    destruct (isCertificate b) eqn:Ec.
    { destruct (certificate_is_no_key _ Ec) as (-> & -> & _).
      rewrite chainOf_certificate by assumption.
      rewrite (encoded_Ok _ _ Hout), <- append_assoc.
      apply IH; [lia | assumption | assumption]. }
    rewrite chainOf_other by assumption.
    destruct (isECParameters b) eqn:Ep.
    { cbn [negb]. split; [apply IH; [lia | assumption | assumption]|].
      intros k Hk. destruct bs as [|next bs']; [discriminate|].
      cbn [app]. destruct (isECPrivateKey next) eqn:En; [|discriminate].
      injection Hk as <-. cbn [negb].
      inversion Henc' as [|? ? [out' Hout'] Henc'']; subst.
      inversion Hrec' as [|? ? _ Hrec'']; subst.
      rewrite Hout', (encoded_Ok _ _ Hout), (encoded_Ok _ _ Hout').
      apply EC_private_key_is_key in En as (En & _).
      rewrite (chainOf_other next) by assumption.
      rewrite <- append_assoc.
      apply IH; [simpl in Hn; lia | assumption | assumption]. }
    destruct (isPrivateKey b) eqn:Ek.
    { cbn [negb]. split; [apply IH; [lia | assumption | assumption]|].
      intros k Hk. injection Hk as <-. rewrite (encoded_Ok _ _ Hout).
      apply IH; [lia | assumption | assumption]. }
    unfold recognised in Hb. rewrite Ec, Ep, Ek in Hb. discriminate.
Qed.

(** What a completed scan tells: every block is recognised, and the key
    accumulator has grown by the first key, if there is one. *)
Lemma scanBlocks_Ok_inv (n : nat) :
  forall bs cb kb fk cb' kb',
    List.length bs <= n ->
    scanB bs cb kb fk = Ok (cb', kb') ->
    Forall (fun b => recognised b = true) bs
    /\ (fk = true -> kb' = kb)
    /\ (fk = false ->
        match key bs with
        | Some k => kb' = kb ++ k
        | None => kb' = kb
        end).
Proof.
  induction n as [|n IH]; intros [|b bs] cb kb fk cb' kb' Hn H;
    simpl in Hn; try lia.
  - injection H as <- <-. repeat split; auto.
  - injection H as <- <-. repeat split; auto.
  - cbn [scanBlocks firstKey] in *. unfold recognised.
    destruct (isCertificate b) eqn:Ec.
    { destruct (certificate_is_no_key _ Ec) as (-> & -> & _).
      destruct (pem_Encode b) as [out|]; [|discriminate].
      apply IH in H as (Hr & Ht & Hf); [|lia].
      split; [constructor; [now rewrite Ec | assumption] | auto]. }
    destruct (isECParameters b) eqn:Ep.
    { destruct fk; cbn [negb] in H.
      { apply IH in H as (Hr & Ht & Hf); [|lia].
        split; [constructor; [now rewrite Ec, Ep | assumption]|].
        split; [assumption | discriminate]. }
      destruct (pem_Encode b) as [out|] eqn:Eo; [|discriminate].
      destruct bs as [|next bs']; [discriminate|].
      destruct (isECPrivateKey next) eqn:En; cbn [negb] in H; [|discriminate].
      destruct (pem_Encode next) as [out'|] eqn:Eo'; [|discriminate].
      apply IH in H as (Hr & Ht & _); [|simpl in Hn; lia].
      split.
      { constructor; [now rewrite Ec, Ep|].
        constructor; [|assumption].
        apply EC_private_key_is_key in En as (_ & _ & En).
        unfold recognised. rewrite En. now rewrite !orb_true_r. }
      split; [discriminate|]. intros _.
      rewrite (encoded_Ok _ _ Eo), (encoded_Ok _ _ Eo').
      rewrite (Ht eq_refl). apply append_assoc. }
    destruct (isPrivateKey b) eqn:Ek; [|discriminate].
    destruct fk; cbn [negb] in H.
    { apply IH in H as (Hr & Ht & Hf); [|lia].
      split; [constructor; [now rewrite Ec, Ep, Ek | assumption]|].
      split; [assumption | discriminate]. }
    destruct (pem_Encode b) as [out|] eqn:Eo; [|discriminate].
    apply IH in H as (Hr & Ht & _); [|lia].
    split; [constructor; [now rewrite Ec, Ep, Ek | assumption]|].
    split; [discriminate|]. intros _.
    rewrite (encoded_Ok _ _ Eo). exact (Ht eq_refl).
Qed.

(** What a failed scan tells: the pairing of EC parameters is broken, or
    a block of the bundle has an unrecognised type. *)
Lemma scanBlocks_Err_inv (n : nat) :
  forall bs cb kb fk err,
    List.length bs <= n ->
    Forall encodable bs ->
    scanB bs cb kb fk = Err err ->
    err = errECPairing
    \/ exists b, In b bs /\ recognised b = false
                 /\ err = "unrecognized PEM block type: " ++ pem.Type_ b.
Proof.
  induction n as [|n IH]; intros [|b bs] cb kb fk err Hn Henc H;
    simpl in Hn; try lia; try discriminate.
  inversion Henc as [|? ? [out Hout] Henc']; subst.
  assert (Hin : forall e,
             (e = errECPairing
              \/ exists b', In b' bs /\ recognised b' = false
                            /\ e = "unrecognized PEM block type: " ++ pem.Type_ b') ->
             e = errECPairing
             \/ exists b', In b' (b :: bs) /\ recognised b' = false
                           /\ e = "unrecognized PEM block type: " ++ pem.Type_ b').
  { intros e [He|(b' & Hb' & Hr & He)]; [now left|].
    right. exists b'. repeat split; [now right | assumption | assumption]. }
  cbn [scanBlocks] in H. rewrite Hout in H.
  destruct (isCertificate b) eqn:Ec.
  { apply Hin. apply IH in H; [assumption | lia | assumption]. }
  destruct (isECParameters b) eqn:Ep.
  { destruct fk; cbn [negb] in H.
    { apply Hin. apply IH in H; [assumption | lia | assumption]. }
    destruct bs as [|next bs']; [injection H as <-; now left|].
    destruct (isECPrivateKey next); cbn [negb] in H;
      [|injection H as <-; now left].
    inversion Henc' as [|? ? [out' Hout'] Henc'']; subst.
    rewrite Hout' in H. apply IH in H; [|simpl in Hn; lia | assumption].
    destruct H as [H|(b' & Hb' & Hr & He)]; [now left|].
    right. exists b'. repeat split; [now do 2 right | assumption | assumption]. }
  destruct (isPrivateKey b) eqn:Ek.
  { destruct fk; cbn [negb] in H;
      apply Hin; apply IH in H; (assumption || lia). }
  injection H as <-. right. exists b.
  repeat split; [now left | unfold recognised; now rewrite Ec, Ep, Ek].
Qed.

(** Once a key is found, a further key-bearing block is passed over. *)
Lemma scanBlocks_skips_after_key (n : nat) :
  forall pre x post cb kb fk,
    List.length pre <= n ->
    isECParameters x = true \/ isPrivateKey x = true ->
    fk = true \/ Exists (fun b => isPrivateKey b = true) pre ->
    scanB (pre ++ x :: post) cb kb fk = scanB (pre ++ post) cb kb fk.
Proof.
  assert (Hskip : forall x post cb kb,
             isECParameters x = true \/ isPrivateKey x = true ->
             scanB (x :: post) cb kb true = scanB post cb kb true).
  { intros x post cb kb [Hx|Hx]; cbn [scanBlocks].
    - rewrite Hx. now destruct (EC_parameters_is_no_key _ Hx) as (-> & _).
    - rewrite Hx, (private_key_is_no_certificate _ Hx).
      now destruct (isECParameters x). }
  induction n as [|n IH]; intros [|b pre] x post cb kb fk Hn Hx Hk;
    simpl in Hn; try lia.
  - destruct Hk as [->|Hk]; [|inversion Hk]. now apply Hskip.
  - destruct Hk as [->|Hk]; [|inversion Hk]. now apply Hskip.
  - cbn [app scanBlocks].
    assert (Hk' : isPrivateKey b = false ->
                  fk = true \/ Exists (fun b => isPrivateKey b = true) pre).
    { intros Hb. destruct Hk as [Hk|Hk]; [now left|].
      inversion Hk; subst; [congruence | now right]. }
    destruct (isCertificate b) eqn:Ec.
    { destruct (pem_Encode b); [|reflexivity].
      apply IH; [lia | assumption|].
      apply Hk'. now apply certificate_is_no_key in Ec. }
    destruct (isECParameters b) eqn:Ep.
    { specialize (Hk' (proj1 (proj2 (EC_parameters_is_no_key _ Ep)))).
      destruct fk; cbn [negb].
      { apply IH; [lia | assumption | now left]. }
      destruct Hk' as [Hk'|Hk']; [discriminate|].
      destruct (pem_Encode b); [|reflexivity].
      destruct pre as [|next pre']; [inversion Hk'|]. cbn [app].
      destruct (isECPrivateKey next); cbn [negb]; [|reflexivity].
      destruct (pem_Encode next); [|reflexivity].
      apply IH; [simpl in Hn; lia | assumption | now left]. }
    destruct (isPrivateKey b) eqn:Ek; [|reflexivity].
    destruct fk; cbn [negb].
    { apply IH; [lia | assumption | now left]. }
    destruct (pem_Encode b); [|reflexivity].
    apply IH; [lia | assumption | now left].
Qed.

Lemma chainOf_empty_or_certificate (bs : list pem.Block) :
  Exists (fun b => isCertificate b = true) bs \/ chain bs = EmptyString.
Proof.
  induction bs as [|b bs IH]; [now right|].
  destruct (isCertificate b) eqn:Ec; [left; now constructor|].
  rewrite chainOf_other by assumption.
  destruct IH as [IH|IH]; [left; now apply Exists_cons_tl | now right].
Qed.

(** A decoded certificate comes from a well-formed bundle. *)
Lemma decode_Ok_inv (bundle : string) (cert : Certificate) :
  decode bundle = Some (Ok cert) ->
  Forall (fun b => recognised b = true) (blocks bundle)
  /\ Exists (fun b => isCertificate b = true) (blocks bundle)
  /\ exists k, key (blocks bundle) = Some k
               /\ X509KeyPair (chain (blocks bundle)) k = Ok cert.
Proof.
  rewrite decode_blocks. intros H.
  destruct (scanB (blocks bundle) EmptyString EmptyString false)
    as [[c k]|] eqn:Es; [|discriminate].
  pose proof (scanBlocks_chain _ _ _ _ _ _ _ (le_n _) Es) as Hc.
  cbn [String.append] in Hc. subst c.
  destruct (scanBlocks_Ok_inv _ _ _ _ _ _ _ (le_n _) Es) as (Hrec & _ & Hk).
  specialize (Hk eq_refl). cbn [String.append] in Hk.
  destruct (String.length (chain (blocks bundle)) =? 0)%nat eqn:Lc;
    [discriminate|].
  destruct (String.length k =? 0)%nat eqn:Lk; [discriminate|].
  destruct (X509KeyPair (chain (blocks bundle)) k) as [cert'|] eqn:Ex;
    [|discriminate].
  assert (cert' = cert) by congruence. subst cert'.
  split; [assumption|]. split.
  - destruct (chainOf_empty_or_certificate (blocks bundle)) as [He|He];
      [assumption|]. rewrite He in Lc. discriminate.
  - destruct (key (blocks bundle)) as [k'|]; [|subst k; discriminate].
    exists k'. subst k. auto.
Qed.

(** *** More of the contract *)

(** X1: a block of an unrecognised type, reached after a recognised,
    error-free opening (certificates only, or with its first key
    complete), fails the decoder with the type of that block. *)
Theorem decode_unrecognized_block_type
  (bundle : string) (pre : list pem.Block) (bad : pem.Block)
  (rest : list pem.Block) :
  blocks bundle = (pre ++ bad :: rest)%list ->
  Forall (fun b => recognised b = true) pre ->
  Forall (fun b => isCertificate b = true) pre \/ (exists k, key pre = Some k) ->
  recognised bad = false ->
  decode bundle
  = Some (Err ("unrecognized PEM block type: " ++ pem.Type_ bad)).
Proof.
  intros Hb Hrec Hpre Hbad. rewrite decode_blocks.
  pose proof (pemBlocks_encodable bundle) as Henc. rewrite Hb in *.
  apply Forall_app in Henc as [Henc _].
  unfold recognised in Hbad.
  apply orb_false_iff in Hbad as [Hbad Hk].
  apply orb_false_iff in Hbad as [Hc He].
  destruct Hpre as [Hcerts|[k Hkey]].
  - rewrite scanBlocks_certificates by assumption.
    cbn [scanBlocks]. now rewrite Hc, He, Hk.
  - destruct (scanBlocks_prefix _ pre (bad :: rest) EmptyString EmptyString
                (le_n _) Henc Hrec) as [_ H].
    rewrite (H _ Hkey). cbn [scanBlocks]. now rewrite Hc, He, Hk.
Qed.

(** X2: a bundle of certificates without any key fails with ["no
    private key block found"]. *)
Theorem decode_no_private_key (bundle : string) :
  blocks bundle <> [] ->
  Forall (fun b => isCertificate b = true) (blocks bundle) ->
  decode bundle = Some (Err "no private key block found").
Proof.
  intros Hne Hcerts. rewrite decode_blocks.
  pose proof (pemBlocks_encodable bundle) as Henc.
  rewrite <- (app_nil_r (blocks bundle)) at 1.
  rewrite scanBlocks_certificates by assumption.
  cbn [scanBlocks String.append].
  assert (Hex : Exists (fun b => isCertificate b = true) (blocks bundle)).
  { destruct (blocks bundle) as [|b bs]; [contradiction|].
    inversion Hcerts; subst. now constructor. }
  pose proof (chainOf_nonempty _ Henc Hex) as Hc.
  destruct (String.length (chain (blocks bundle)) =? 0)%nat eqn:Lc.
  { apply length_zero_nil in Lc. contradiction. }
  reflexivity.
Qed.

(** X3: when the chain and the key are there but [tls.X509KeyPair]
    refuses them, the decoder fails with ["making X509 key pair: "]
    followed by the reason. *)
Theorem decode_key_pair_error (bundle k : string) (reason : error) :
  Forall (fun b => recognised b = true) (blocks bundle) ->
  Exists (fun b => isCertificate b = true) (blocks bundle) ->
  key (blocks bundle) = Some k ->
  X509KeyPair (chain (blocks bundle)) k = Err reason ->
  decode bundle = Some (Err ("making X509 key pair: " ++ reason)).
Proof.
  intros Hrec Hcert Hkey Hpair. rewrite decode_blocks.
  pose proof (pemBlocks_encodable bundle) as Henc.
  destruct (scanBlocks_well_formed _ (blocks bundle) EmptyString EmptyString
              (le_n _) Henc Hrec) as [_ Hscan].
  rewrite (Hscan _ Hkey). cbn [String.append].
  pose proof (chainOf_nonempty _ Henc Hcert) as Hc.
  pose proof (firstKey_nonempty _ _ Henc Hkey) as Hk.
  destruct (String.length (chain (blocks bundle)) =? 0)%nat eqn:Lc.
  { apply length_zero_nil in Lc. contradiction. }
  destruct (String.length k =? 0)%nat eqn:Lk.
  { apply length_zero_nil in Lk. contradiction. }
  now rewrite Hpair.
Qed.

(** X4: only the first key is used: a private-key block that comes after
    a key-bearing block changes nothing, the decoder returns what it
    returns for the bundle without that block. *)
Theorem decode_ignores_later_keys
  (bundle bundle' : string) (pre : list pem.Block) (later : pem.Block)
  (post : list pem.Block) :
  blocks bundle = (pre ++ later :: post)%list ->
  blocks bundle' = (pre ++ post)%list ->
  isPrivateKey later = true ->
  Exists (fun b => isPrivateKey b = true) pre ->
  decode bundle = decode bundle'.
Proof.
  intros Hb Hb' Hl Hkey. rewrite !decode_blocks, Hb, Hb'.
  now rewrite (scanBlocks_skips_after_key _ pre later post _ _ _ (le_n _)
                 (or_intror Hl) (or_intror Hkey)).
Qed.

(** X5: the decoder returns a key pair exactly for the bundles of
    recognised blocks with a certificate and a first key that
    [tls.X509KeyPair] accepts, and then it is that pair. *)
Theorem decode_succeeds_iff (bundle : string) (cert : Certificate) :
  decode bundle = Some (Ok cert) <->
  Forall (fun b => recognised b = true) (blocks bundle)
  /\ Exists (fun b => isCertificate b = true) (blocks bundle)
  /\ exists k, key (blocks bundle) = Some k
               /\ X509KeyPair (chain (blocks bundle)) k = Ok cert.
Proof.
  split; [apply decode_Ok_inv|].
  intros (Hrec & Hcert & k & Hkey & Hpair). rewrite decode_blocks.
  pose proof (pemBlocks_encodable bundle) as Henc.
  destruct (scanBlocks_well_formed _ (blocks bundle) EmptyString EmptyString
              (le_n _) Henc Hrec) as [_ Hscan].
  rewrite (Hscan _ Hkey). cbn [String.append].
  pose proof (chainOf_nonempty _ Henc Hcert) as Hc.
  pose proof (firstKey_nonempty _ _ Henc Hkey) as Hk.
  destruct (String.length (chain (blocks bundle)) =? 0)%nat eqn:Lc.
  { apply length_zero_nil in Lc. contradiction. }
  destruct (String.length k =? 0)%nat eqn:Lk.
  { apply length_zero_nil in Lk. contradiction. }
  now rewrite Hpair.
Qed.

(** X6: every failure of the decoder carries one of five messages: the
    EC pairing, the unrecognised type of a block of the bundle, the
    empty chain, the missing key, or the refusal of the key pair. *)
Theorem decode_error_messages (bundle : string) (err : error) :
  decode bundle = Some (Err err) ->
  err = "expected elliptic private key to immediately follow EC parameters"
  \/ (exists b, In b (blocks bundle) /\ recognised b = false
                /\ err = "unrecognized PEM block type: " ++ pem.Type_ b)
  \/ err = "failed to parse PEM data"
  \/ err = "no private key block found"
  \/ exists reason, err = "making X509 key pair: " ++ reason.
Proof.
  rewrite decode_blocks. intros H.
  destruct (scanB (blocks bundle) EmptyString EmptyString false)
    as [[c k]|e] eqn:Es.
  - destruct (String.length c =? 0)%nat; [injection H as <-; auto|].
    destruct (String.length k =? 0)%nat; [injection H as <-; auto 6|].
    destruct (X509KeyPair c k) as [cert|reason]; [discriminate|].
    injection H as <-. do 4 right. now exists reason.
  - injection H as <-.
    destruct (scanBlocks_Err_inv _ _ _ _ _ _ (le_n _)
                (pemBlocks_encodable bundle) Es) as [He|He]; auto.
Qed.

(** X7: [GetCertificate] returns a certificate only when the store holds,
    under the key [prefix:serverName] and the field [certKey], a bundle
    of recognised blocks with a certificate and a first key, and the
    certificate is the key pair of that chain and that key. *)
Theorem GetCertificate_certificate_from_store
  (store : redis.Store) (rcg : TlsRedis.RedisCertGetter)
  (ServerName : string) (cert : Certificate) :
  snd (TlsRedis.GetCertificate Certificate pem_Decode pem_Encode X509KeyPair
         store rcg ServerName) = Some (Ok cert) ->
  exists pem,
    store (TlsRedis.Prefix rcg ++ ":" ++ ServerName) (TlsRedis.CertKey rcg)
    = Ok pem
    /\ Forall (fun b => recognised b = true) (blocks pem)
    /\ Exists (fun b => isCertificate b = true) (blocks pem)
    /\ exists k, key (blocks pem) = Some k
                 /\ X509KeyPair (chain (blocks pem)) k = Ok cert.
Proof.
  unfold TlsRedis.GetCertificate.
  destruct (store _ _) as [pem|err]; cbn [snd]; [|discriminate].
  intros H. exists pem. split; [reflexivity|]. now apply decode_Ok_inv.
Qed.

End BundleDecoderFacts.

(** ** The textual codec meets what the decoder relies on *)

Lemma PemText_Decode_consumes (data : string) (blk : pem.Block) (rest : string) :
  PemText.Decode data = (Some blk, rest) ->
  String.length rest < String.length data.
Proof.
  unfold PemText.Decode, strings.HasPrefix.
  destruct (String.prefix PemText.pemStart data) eqn:Hp; [|discriminate].
  apply prefix_length in Hp.
  assert (Hs : 0 < String.length PemText.pemStart) by (simpl; lia).
  remember (drop (String.length PemText.pemStart) data) as r0 eqn:E0.
  assert (H0 : String.length r0 < String.length data).
  { subst r0. rewrite length_drop. lia. }
  clear E0 Hp Hs.
  destruct (_ <? 0)%Z; [discriminate|].
  match goal with
  | |- context [drop ?n r0] =>
      remember (drop n r0) as r1 eqn:E1;
      assert (H1 : String.length r1 <= String.length r0)
        by (subst r1; rewrite length_drop; lia);
      clear E1
  end.
  destruct (_ <? 0)%Z; [discriminate|].
  intros H.
  match type of H with
  | (_, ?r) = _ => assert (Hr : rest = r) by congruence
  end.
  rewrite Hr, length_drop. lia.
Qed.

Lemma PemText_Encode_decoded (data : string) (blk : pem.Block) (rest : string) :
  PemText.Decode data = (Some blk, rest) ->
  exists out, PemText.Encode blk = Ok out.
Proof. intros _. unfold PemText.Encode. eauto. Qed.

Lemma PemText_Encode_nonempty (blk : pem.Block) (out : string) :
  PemText.Encode blk = Ok out -> out <> EmptyString.
Proof. unfold PemText.Encode. intros H. injection H as <-. discriminate. Qed.

(** ** The decoder on the sample bundles *)

Lemma decode_well_formed_bundle_witness :
  PemText.decode Samples.ecBundle
  = Some (Ok ((Samples.certA ++ Samples.certD)%string,
              (Samples.ecParams ++ Samples.ecKey)%string)).
Proof.
  apply (decode_well_formed_bundle PemText.KeyPair PemText.Decode
           PemText.Encode PemText.X509KeyPair PemText_Decode_consumes
           PemText_Encode_decoded PemText_Encode_nonempty Samples.ecBundle
           (Samples.ecParams ++ Samples.ecKey)%string).
  - vm_compute. repeat constructor.
  - vm_compute. apply Exists_cons_hd. reflexivity.
  - vm_compute. reflexivity.
  - vm_compute. reflexivity.
Defined.

Lemma decode_chain_empty_first_witness :
  PemText.decode Samples.keyOnlyBundle = Some (Err "failed to parse PEM data").
Proof.
  apply (decode_chain_empty_first PemText.KeyPair PemText.Decode PemText.Encode
           PemText.X509KeyPair PemText_Decode_consumes PemText_Encode_decoded
           Samples.keyOnlyBundle).
  right; left. vm_compute. repeat constructor.
Defined.

(** C4, as the specification words the message: a bundle without any
    block and a bundle with only a key fail with ["failed to parse PEM
    data"], not with ["failed to parse bundle"]. *)
Lemma decode_chain_empty_message_counterexample :
  PemText.decode EmptyString = Some (Err "failed to parse PEM data")
  /\ PemText.decode Samples.keyOnlyBundle = Some (Err "failed to parse PEM data")
  /\ PemText.decode EmptyString <> Some (Err "failed to parse bundle")
  /\ PemText.decode Samples.keyOnlyBundle <> Some (Err "failed to parse bundle").
Proof. vm_compute. repeat split; discriminate. Qed.

Lemma decode_EC_parameters_unpaired_witness :
  PemText.decode Samples.unpairedBundle
  = Some (Err "expected elliptic private key to immediately follow EC parameters").
Proof.
  apply (decode_EC_parameters_unpaired PemText.KeyPair PemText.Decode
           PemText.Encode PemText.X509KeyPair PemText_Decode_consumes
           PemText_Encode_decoded Samples.unpairedBundle
           [Samples.blockOf "CERTIFICATE" "AAAA"]
           (Samples.blockOf "EC PARAMETERS" "BBBB")
           [Samples.blockOf "CERTIFICATE" "DDDD"]).
  - vm_compute. reflexivity.
  - repeat constructor.
  - reflexivity.
  - vm_compute. discriminate.
Defined.

(** C5, as the specification words the message: EC parameters without
    their key fail with ["expected elliptic private key to immediately
    follow EC parameters"], not with ["EC parameters must be immediately
    followed by the EC private key"]. *)
Lemma decode_EC_pairing_message_counterexample :
  pemBlocks PemText.Decode Samples.loneParamsBundle
  = [Samples.blockOf "EC PARAMETERS" "BBBB"]
  /\ PemText.decode Samples.loneParamsBundle
     = Some (Err "expected elliptic private key to immediately follow EC parameters")
  /\ PemText.decode Samples.loneParamsBundle
     <> Some (Err "EC parameters must be immediately followed by the EC private key").
Proof. vm_compute. repeat split; discriminate. Qed.

Lemma decode_ignores_EC_parameters_after_key_witness :
  PemText.decode Samples.trailingParamsBundle
  = PemText.decode Samples.plainBundle.
Proof.
  apply (decode_ignores_EC_parameters_after_key PemText.KeyPair PemText.Decode
           PemText.Encode PemText.X509KeyPair PemText_Decode_consumes
           Samples.trailingParamsBundle Samples.plainBundle
           [Samples.blockOf "CERTIFICATE" "AAAA";
            Samples.blockOf "RSA PRIVATE KEY" "EEEE"]
           (Samples.blockOf "EC PARAMETERS" "BBBB")
           [Samples.blockOf "CERTIFICATE" "DDDD"]).
  - vm_compute. reflexivity.
  - vm_compute. reflexivity.
  - reflexivity.
  - apply Exists_cons_tl, Exists_cons_hd. reflexivity.
Defined.

(** The bundle with the orphaned parameters decodes, with both
    certificates in its chain. *)
Example decode_trailingParamsBundle :
  PemText.decode Samples.trailingParamsBundle
  = Some (Ok ((Samples.certA ++ Samples.certD)%string, Samples.rsaKey)).
Proof. vm_compute. reflexivity. Qed.

(** ** [strings.Index] and [strings.Replace] *)

Lemma Index_eq (s sub : string) :
  strings.Index s sub =
  if String.prefix sub s then 0%Z
  else match s with
       | EmptyString => (-1)%Z
       | String _ s' =>
           if (strings.Index s' sub <? 0)%Z then (-1)%Z
           else (strings.Index s' sub + 1)%Z
       end.
Proof. destruct s; reflexivity. Qed.

Lemma Index_found (s sub : string) :
  (0 <= strings.Index s sub)%Z ->
  s = take (Z.to_nat (strings.Index s sub)) s ++ sub
      ++ drop (Z.to_nat (strings.Index s sub) + String.length sub) s.
Proof.
  induction s as [|c s IH]; rewrite Index_eq.
  - destruct (String.prefix sub EmptyString) eqn:Hp; [|lia].
    intros _. apply prefix_append in Hp as [t Ht].
    change (Z.to_nat 0) with 0. cbn [take Nat.add String.append].
    rewrite Ht at 1. now rewrite Ht, drop_append.
  - destruct (String.prefix sub (String c s)) eqn:Hp.
    + intros _. apply prefix_append in Hp as [t Ht].
      change (Z.to_nat 0) with 0. cbn [take Nat.add String.append].
      rewrite Ht at 1. now rewrite Ht, drop_append.
    + destruct (strings.Index s sub <? 0)%Z eqn:Hi; [lia|].
      apply Z.ltb_ge in Hi. intros _.
      replace (Z.to_nat (strings.Index s sub + 1))
        with (S (Z.to_nat (strings.Index s sub))) by lia.
      cbn [take drop Nat.add String.append]. f_equal. now apply IH.
Qed.

Lemma Index_first (pre sub post : string) :
  (0 <= strings.Index (pre ++ sub ++ post) sub <= Z.of_nat (String.length pre))%Z.
Proof.
  induction pre as [|c pre IH]; rewrite Index_eq.
  - cbn [String.append].
    assert (Hp : String.prefix sub (sub ++ post) = true)
      by (apply prefix_append; eauto).
    rewrite Hp. simpl. lia.
  - cbn [String.append String.length].
    destruct (String.prefix sub (String c (pre ++ sub ++ post))); [lia|].
    destruct (strings.Index (pre ++ sub ++ post) sub <? 0)%Z eqn:Hi.
    + apply Z.ltb_lt in Hi. lia.
    + lia.
Qed.

Lemma Index_absent (s sub : string) :
  (strings.Index s sub < 0)%Z -> forall pre post, s <> pre ++ sub ++ post.
Proof.
  intros Hi pre post ->. pose proof (Index_first pre sub post). lia.
Qed.

Lemma Index_length (s sub : string) :
  (0 <= strings.Index s sub)%Z ->
  Z.to_nat (strings.Index s sub) + String.length sub <= String.length s.
Proof.
  induction s as [|c s IH]; rewrite Index_eq.
  - destruct (String.prefix sub EmptyString) eqn:Hp; [|lia].
    apply prefix_length in Hp. simpl in *. lia.
  - destruct (String.prefix sub (String c s)) eqn:Hp.
    + apply prefix_length in Hp. simpl in *. lia.
    + destruct (strings.Index s sub <? 0)%Z eqn:Hi; [lia|].
      apply Z.ltb_ge in Hi. specialize (IH Hi). cbn [String.length]. lia.
Qed.

Lemma countFrom_nonneg (rounds : nat) (s sub : string) :
  (0 <= strings.countFrom rounds s sub)%Z.
Proof.
  revert s; induction rounds as [|r IH]; intros s; cbn [strings.countFrom];
    [lia|].
  destruct (strings.Index s sub <? 0)%Z; [lia|].
  specialize (IH (drop (Z.to_nat (strings.Index s sub) + String.length sub) s)).
  lia.
Qed.

(** One replacement: the text before the first instance, the new text,
    and the text after the instance, untouched. *)
Lemma Replace_once (s old new : string) :
  old <> EmptyString ->
  strings.Replace s old new 1 =
  if (strings.Index s old <? 0)%Z then s
  else take (Z.to_nat (strings.Index s old)) s ++ new
       ++ drop (Z.to_nat (strings.Index s old) + String.length old) s.
Proof.
  intros Hold. unfold strings.Replace.
  destruct (String.eqb old new) eqn:Heq; cbn [orb].
  - apply String.eqb_eq in Heq. subst new.
    destruct (strings.Index s old <? 0)%Z eqn:Hi; [reflexivity|].
    apply Z.ltb_ge in Hi. now apply Index_found.
  - change (1 =? 0)%Z with false. cbv iota. unfold strings.Count.
    destruct (String.eqb old EmptyString) eqn:He.
    { apply String.eqb_eq in He. contradiction. }
    destruct (strings.Index s old <? 0)%Z eqn:Hi.
    + destruct (String.length s); simpl; [reflexivity | now rewrite Hi].
    + pose proof Hi as Hi'. apply Z.ltb_ge in Hi'.
      pose proof (Index_length _ _ Hi') as Hl.
      destruct (String.length s) as [|n] eqn:Hs.
      { destruct old; [contradiction | simpl in Hl; lia]. }
      cbn [strings.countFrom]. rewrite Hi.
      pose proof (countFrom_nonneg n
                    (drop (Z.to_nat (strings.Index s old) + String.length old) s)
                    old) as Hc.
      destruct (_ =? 0)%Z eqn:E0; [apply Z.eqb_eq in E0; lia|].
      change (1 <? 0)%Z with false. cbn [orb].
      destruct (_ <? 1)%Z eqn:E1; [apply Z.ltb_lt in E1; lia|].
      reflexivity.
Qed.

Lemma Replace_first_instance (s old new pre post : string) :
  old <> EmptyString -> firstInstance s old pre post ->
  strings.Replace s old new 1 = pre ++ new ++ post.
Proof.
  intros Hold [Hs Hmin]. rewrite Replace_once by assumption.
  pose proof (Index_first pre old post) as Hi. rewrite <- Hs in Hi.
  destruct (strings.Index s old <? 0)%Z eqn:E; [apply Z.ltb_lt in E; lia|].
  pose proof (Index_found s old (proj1 Hi)) as Hf.
  pose proof (Index_length s old (proj1 Hi)) as Hl.
  pose proof (Hmin _ _ Hf) as Hge. rewrite length_take in Hge by lia.
  assert (Hn : Z.to_nat (strings.Index s old) = String.length pre) by lia.
  rewrite Hn. rewrite Hs at 1 2.
  rewrite take_append, <- drop_drop, drop_append, drop_append. reflexivity.
Qed.

Lemma Replace_no_instance (s old new : string) :
  old <> EmptyString ->
  (forall pre post, s <> pre ++ old ++ post) ->
  strings.Replace s old new 1 = s.
Proof.
  intros Hold Hno. rewrite Replace_once by assumption.
  destruct (strings.Index s old <? 0)%Z eqn:E; [reflexivity|].
  apply Z.ltb_ge in E. exfalso. exact (Hno _ _ (Index_found s old E)).
Qed.

(** ** The routing handler: [ServeHTTP] *)

Lemma placeholder_nonempty : Routing.placeholder <> EmptyString.
Proof. discriminate. Qed.

(** Every template has a first instance of the placeholder or none. *)
Lemma firstInstance_or_none (s old : string) :
  (exists pre post, firstInstance s old pre post)
  \/ (forall pre post, s <> pre ++ old ++ post).
Proof.
  destruct (strings.Index s old <? 0)%Z eqn:E.
  - right. apply Index_absent. now apply Z.ltb_lt.
  - left. apply Z.ltb_ge in E.
    exists (take (Z.to_nat (strings.Index s old)) s),
           (drop (Z.to_nat (strings.Index s old) + String.length old) s).
    split; [now apply Index_found|].
    intros pre' post' Hs. pose proof (Index_length s old E) as Hl.
    rewrite length_take by lia.
    pose proof (Index_first pre' old post') as Hi. rewrite <- Hs in Hi. lia.
Qed.

(** C7: with a non-empty token, the host becomes the template with its
    first [{{token}}] replaced by the token: the text before that
    instance, the token, and the text after it as it is (further
    instances included); a template without the placeholder is taken as
    it is.  Nothing else of the request changes, and the next handler
    gets the request with that host. *)
Theorem ServeHTTP_replaces_first_placeholder
  (store : redis.Store) (m : Routing.Middleware) (r : Request)
  (next : Request -> option error) (token : string) :
  store (Routing.Prefix m ++ ":" ++ Host r) (Routing.TokenKey m) = Ok token ->
  token <> EmptyString ->
  let served := Routing.ServeHTTP store m r next in
  let r' := Routing.request served in
  (forall pre post,
      firstInstance (Routing.Domain m) Routing.placeholder pre post ->
      Host r' = pre ++ token ++ post)
  /\ ((forall pre post, Routing.Domain m <> pre ++ Routing.placeholder ++ post) ->
      Host r' = Routing.Domain m)
  /\ Method r' = Method r /\ RequestURI r' = RequestURI r
  /\ In (EvNext r') (Routing.events served)
  /\ Routing.returned served = next r'.
Proof.
  intros Hget Htok. unfold Routing.ServeHTTP. rewrite Hget.
  apply String.eqb_neq in Htok. rewrite Htok. cbn [negb].
  cbn -[strings.Replace Routing.placeholder]. repeat split; auto 6.
  - intros pre post Hfirst.
    exact (Replace_first_instance _ _ token pre post placeholder_nonempty Hfirst).
  - intros Hno. exact (Replace_no_instance _ _ token placeholder_nonempty Hno).
Qed.

(** The routing of the specification: token ["abc"], template
    ["{{token}}.test.com"]. *)
Lemma ServeHTTP_replaces_first_placeholder_witness :
  let store : redis.Store := fun _ _ => Ok "abc" in
  let m := Routing.mkMiddleware "s" "token" "{{token}}.test.com" None
             (redis.mkOptions "127.0.0.1:6379" 0) in
  let r := mkRequest "www.self-domain.com" "GET" "/" in
  Host (Routing.request (Routing.ServeHTTP store m r (fun _ => None)))
  = "abc.test.com".
Proof.
  intros store m r.
  destruct (ServeHTTP_replaces_first_placeholder store m r (fun _ => None)
              "abc" eq_refl ltac:(discriminate)) as [Hfirst _].
  apply (Hfirst EmptyString ".test.com").
  split; [reflexivity|]. intros pre' post' _. apply Nat.le_0_l.
Defined.

(** Only the first instance is replaced. *)
Example ServeHTTP_two_placeholders :
  Host (Routing.request
          (Routing.ServeHTTP (fun _ _ => Ok "abc")
             (Routing.mkMiddleware "s" "token" "{{token}}.{{token}}.com" None
                (redis.mkOptions "127.0.0.1:6379" 0))
             (mkRequest "www.self-domain.com" "GET" "/") (fun _ => None)))
  = "abc.{{token}}.com".
Proof. vm_compute. reflexivity. Qed.

(** C8: when the fetch fails, the handler returns the error of the fetch
    and nothing else happens: the request is as it was and the next
    handler is not called. *)
Theorem ServeHTTP_fetch_error
  (store : redis.Store) (m : Routing.Middleware) (r : Request)
  (next : Request -> option error) (err : error) :
  store (Routing.Prefix m ++ ":" ++ Host r) (Routing.TokenKey m) = Err err ->
  let served := Routing.ServeHTTP store m r next in
  Routing.returned served = Some err
  /\ Routing.request served = r
  /\ forall r', ~ In (EvNext r') (Routing.events served).
Proof.
  intros Hget. unfold Routing.ServeHTTP. rewrite Hget. cbn.
  repeat split. intros r' [H|[]]. discriminate.
Qed.

Lemma ServeHTTP_fetch_error_witness :
  let store : redis.Store := fun _ _ => Err "redis: nil" in
  let r := mkRequest "www.self-domain.com" "GET" "/" in
  let served := Routing.ServeHTTP store Routing.zero r (fun _ => None) in
  Routing.returned served = Some "redis: nil"
  /\ Routing.request served = r
  /\ forall r', ~ In (EvNext r') (Routing.events served).
Proof.
  intros store r.
  apply (ServeHTTP_fetch_error store Routing.zero r (fun _ => None) "redis: nil").
  reflexivity.
Defined.

(** C9: when the token is the empty string, the request is as it was and
    the next handler is called with it; the handler returns what the next
    handler returns. *)
Theorem ServeHTTP_empty_token
  (store : redis.Store) (m : Routing.Middleware) (r : Request)
  (next : Request -> option error) :
  store (Routing.Prefix m ++ ":" ++ Host r) (Routing.TokenKey m)
  = Ok EmptyString ->
  let served := Routing.ServeHTTP store m r next in
  Routing.request served = r
  /\ In (EvNext r) (Routing.events served)
  /\ Routing.returned served = next r.
Proof.
  intros Hget. unfold Routing.ServeHTTP. rewrite Hget. cbn.
  repeat split; auto 6.
Qed.

Lemma ServeHTTP_empty_token_witness :
  let store : redis.Store := fun _ _ => Ok EmptyString in
  let m := Routing.mkMiddleware "s" "token" "{{token}}.test.com" None
             (redis.mkOptions "127.0.0.1:6379" 0) in
  let r := mkRequest "www.self-domain.com" "GET" "/" in
  let next : Request -> option error := fun _ => Some "upstream" in
  let served := Routing.ServeHTTP store m r next in
  Routing.request served = r
  /\ In (EvNext r) (Routing.events served)
  /\ Routing.returned served = Some "upstream".
Proof.
  intros store m r next.
  apply (ServeHTTP_empty_token store m r next). reflexivity.
Defined.

(** C10: with a non-empty token and a template without [{{token}}], the
    host becomes the template as it is; the token is not used. *)
Theorem ServeHTTP_template_without_placeholder
  (store : redis.Store) (m : Routing.Middleware) (r : Request)
  (next : Request -> option error) (token : string) :
  store (Routing.Prefix m ++ ":" ++ Host r) (Routing.TokenKey m) = Ok token ->
  token <> EmptyString ->
  (forall pre post, Routing.Domain m <> pre ++ Routing.placeholder ++ post) ->
  let served := Routing.ServeHTTP store m r next in
  let r' := mkRequest (Routing.Domain m) (Method r) (RequestURI r) in
  Routing.request served = r'
  /\ In (EvNext r') (Routing.events served)
  /\ Routing.returned served = next r'.
Proof.
  intros Hget Htok Hno. unfold Routing.ServeHTTP. rewrite Hget.
  apply String.eqb_neq in Htok. rewrite Htok. cbn [negb].
  rewrite (Replace_no_instance _ _ token placeholder_nonempty Hno).
  cbn. repeat split; auto 6.
Qed.

Lemma ServeHTTP_template_without_placeholder_witness :
  let store : redis.Store := fun _ _ => Ok "abc" in
  let m := Routing.mkMiddleware "s" "token" "fixed.test.com" None
             (redis.mkOptions "127.0.0.1:6379" 0) in
  let r := mkRequest "www.self-domain.com" "GET" "/" in
  let served := Routing.ServeHTTP store m r (fun _ => None) in
  let r' := mkRequest "fixed.test.com" "GET" "/" in
  Routing.request served = r'
  /\ In (EvNext r') (Routing.events served)
  /\ Routing.returned served = None.
Proof.
  intros store m r.
  apply (ServeHTTP_template_without_placeholder store m r (fun _ => None) "abc").
  - reflexivity.
  - discriminate.
  - apply Index_absent. vm_compute. reflexivity.
Defined.

(** With an empty template the host that is forwarded is empty, whatever
    the token is. *)
Lemma ServeHTTP_empty_template
  (store : redis.Store) (m : Routing.Middleware) (r : Request)
  (next : Request -> option error) (token : string) :
  Routing.Domain m = EmptyString ->
  store (Routing.Prefix m ++ ":" ++ Host r) (Routing.TokenKey m) = Ok token ->
  token <> EmptyString ->
  let served := Routing.ServeHTTP store m r next in
  let r' := mkRequest EmptyString (Method r) (RequestURI r) in
  Routing.request served = r'
  /\ In (EvNext r') (Routing.events served)
  /\ Routing.returned served = next r'.
Proof.
  intros Hd Hget Htok. unfold Routing.ServeHTTP. rewrite Hget, Hd.
  apply String.eqb_neq in Htok. rewrite Htok. cbn [negb].
  rewrite (Replace_no_instance EmptyString _ token placeholder_nonempty)
    by (apply Index_absent; vm_compute; reflexivity).
  cbn. repeat split; auto 6.
Qed.

(** ** The dispenser *)

Lemma tokenAt_app (pre l : list Token) (c n i : Z) (k : nat) :
  i = (Z.of_nat (List.length pre) + Z.of_nat k)%Z ->
  tokenAt (mkDispenser (pre ++ l) c n) i = nth_error l k.
Proof.
  intros ->. unfold tokenAt. cbn [tokens].
  destruct (_ <? 0)%Z eqn:E; [apply Z.ltb_lt in E; lia|].
  replace (Z.to_nat (Z.of_nat (List.length pre) + Z.of_nat k))
    with (List.length pre + k) by lia.
  rewrite nth_error_app2 by lia. f_equal. lia.
Qed.

Lemma len_app (pre l : list Token) (c n : Z) :
  len (mkDispenser (pre ++ l) c n)
  = (Z.of_nat (List.length pre) + Z.of_nat (List.length l))%Z.
Proof. unfold len. cbn [tokens]. rewrite length_app. lia. Qed.

Section DispenserAt.

(** The dispenser with its cursor on the token after [pre]. *)
Variables (pre : list Token) (n : Z).

Local Abbreviation at_ tl k :=
  (mkDispenser (pre ++ tl) (Z.of_nat (List.length pre) + k) n).

Lemma Val_at (t : Token) (tl : list Token) :
  Val (at_ (t :: tl) 0) = Text t.
Proof.
  unfold Val. rewrite len_app. cbn [cursor List.length].
  destruct (_ || _)%bool eqn:E.
  { apply orb_true_iff in E as [E|E];
      [apply Z.ltb_lt in E | apply Z.leb_le in E]; lia. }
  now rewrite (tokenAt_app _ _ _ _ _ 0) by lia.
Qed.

Lemma Val_at_next (t1 t2 : Token) (tl : list Token) :
  Val (at_ (t1 :: t2 :: tl) 1) = Text t2.
Proof.
  unfold Val. rewrite len_app. cbn [cursor List.length].
  destruct (_ || _)%bool eqn:E.
  { apply orb_true_iff in E as [E|E];
      [apply Z.ltb_lt in E | apply Z.leb_le in E]; lia. }
  now rewrite (tokenAt_app _ _ _ _ _ 1) by lia.
Qed.

Lemma nextOnSameLine_at (t1 t2 : Token) (tl : list Token) :
  nextOnSameLine (at_ (t1 :: t2 :: tl) 0)
  = if isNextOnNewLine t1 t2 then (false, at_ (t1 :: t2 :: tl) 0)
    else (true, at_ (t1 :: t2 :: tl) 1).
Proof.
  unfold nextOnSameLine. rewrite len_app. cbn [cursor List.length].
  destruct (_ <? 0)%Z eqn:E; [apply Z.ltb_lt in E; lia|].
  destruct (_ <=? _)%Z eqn:E'; [apply Z.leb_le in E'; lia|].
  rewrite (tokenAt_app _ _ _ _ _ 0) by lia.
  rewrite (tokenAt_app _ _ _ _ _ 1) by lia. cbn [nth_error].
  destruct (isNextOnNewLine t1 t2); cbn [negb]; [reflexivity|].
  unfold withCursor. cbn [tokens cursor nesting]. do 2 f_equal. lia.
Qed.

Lemma nextOnSameLine_last (t : Token) :
  nextOnSameLine (at_ [t] 0) = (false, at_ [t] 0).
Proof.
  unfold nextOnSameLine. rewrite len_app. cbn [cursor List.length].
  destruct (_ <? 0)%Z eqn:E; [apply Z.ltb_lt in E; lia|].
  destruct (_ <=? _)%Z eqn:E'; [reflexivity | apply Z.leb_gt in E'; lia].
Qed.

Lemma Next_at (t1 t2 : Token) (tl : list Token) (k : Z) :
  (k = 0 \/ k = -1)%Z ->
  Next (at_ (t1 :: t2 :: tl) k) = (true, at_ (t1 :: t2 :: tl) (k + 1)).
Proof.
  intros Hk. unfold Next. rewrite len_app. cbn [cursor List.length].
  destruct (_ <? _)%Z eqn:E; [|apply Z.ltb_ge in E; lia].
  unfold withCursor. cbn [tokens cursor nesting]. do 2 f_equal. lia.
Qed.

End DispenserAt.

Lemma here_at (pre tl : list Token) (n : Z) :
  here pre tl n = mkDispenser (pre ++ tl) (Z.of_nat (List.length pre) + 0) n.
Proof. unfold here. now rewrite Z.add_0_r. Qed.

Lemma here_step (pre : list Token) (t : Token) (tl : list Token) (n : Z) :
  mkDispenser (pre ++ t :: tl) (Z.of_nat (List.length pre) + 1) n
  = here (pre ++ [t]) tl n.
Proof.
  unfold here. rewrite <- app_assoc, length_app. cbn [app List.length].
  f_equal. lia.
Qed.

Lemma Val_here (pre : list Token) (t : Token) (tl : list Token) (n : Z) :
  Val (here pre (t :: tl) n) = Text t.
Proof. rewrite here_at. apply Val_at. Qed.

Lemma Next_here (pre : list Token) (t1 t2 : Token) (tl : list Token) (n : Z) :
  Next (here pre (t1 :: t2 :: tl) n) = (true, here (pre ++ [t1]) (t2 :: tl) n).
Proof.
  rewrite here_at, Next_at by auto. cbn [Z.add]. now rewrite here_step.
Qed.

Lemma nextOnSameLine_here
  (pre : list Token) (t1 t2 : Token) (tl : list Token) (n : Z) :
  nextOnSameLine (here pre (t1 :: t2 :: tl) n)
  = if isNextOnNewLine t1 t2 then (false, here pre (t1 :: t2 :: tl) n)
    else (true, here (pre ++ [t1]) (t2 :: tl) n).
Proof.
  rewrite here_at, nextOnSameLine_at. now rewrite here_step.
Qed.

Lemma NextArg_here_same
  (pre : list Token) (t1 t2 : Token) (tl : list Token) (n : Z) :
  isNextOnNewLine t1 t2 = false -> Text t2 <> "{" ->
  NextArg (here pre (t1 :: t2 :: tl) n)
  = (true, here (pre ++ [t1]) (t2 :: tl) n).
Proof.
  intros Hl Ht. unfold NextArg. rewrite nextOnSameLine_here, Hl. cbn [negb].
  rewrite Val_here. apply String.eqb_neq in Ht. now rewrite Ht.
Qed.

Lemma NextArg_here_new
  (pre : list Token) (t1 t2 : Token) (tl : list Token) (n : Z) :
  isNextOnNewLine t1 t2 = true ->
  NextArg (here pre (t1 :: t2 :: tl) n) = (false, here pre (t1 :: t2 :: tl) n).
Proof.
  intros Hl. unfold NextArg. now rewrite nextOnSameLine_here, Hl.
Qed.

Lemma NextArg_here_last (pre : list Token) (t : Token) (n : Z) :
  NextArg (here pre [t] n) = (false, here pre [t] n).
Proof.
  unfold NextArg. now rewrite here_at, nextOnSameLine_last.
Qed.

Lemma Token_here (pre : list Token) (t : Token) (tl : list Token) (n : Z) :
  Token_ (here pre (t :: tl) n) = t.
Proof.
  unfold Token_, here, len. cbn [tokens cursor].
  rewrite length_app. cbn [List.length].
  destruct (_ || _)%bool eqn:E.
  { apply orb_true_iff in E as [E|E];
      [apply Z.ltb_lt in E | apply Z.leb_le in E]; lia. }
  now rewrite (tokenAt_app _ _ _ _ _ 0) by lia.
Qed.

(** A quoted token on the same line is an argument whatever its text,
    an opening brace included. *)
Lemma NextArg_here_quoted
  (pre : list Token) (t1 t2 : Token) (tl : list Token) (n : Z) :
  isNextOnNewLine t1 t2 = false -> Quoted t2 = true ->
  NextArg (here pre (t1 :: t2 :: tl) n)
  = (true, here (pre ++ [t1]) (t2 :: tl) n).
Proof.
  intros Hl Hq. unfold NextArg. rewrite nextOnSameLine_here, Hl. cbn [negb].
  rewrite Token_here, Hq. cbn [negb]. now rewrite andb_false_r.
Qed.

Lemma NextBlock_here_inside
  (pre : list Token) (t1 t2 : Token) (tl : list Token) (n : Z) :
  (0 < n)%Z -> Text t2 <> "}" -> Text t2 <> "{" ->
  NextBlock 0 (here pre (t1 :: t2 :: tl) n)
  = (true, here (pre ++ [t1]) (t2 :: tl) n).
Proof.
  intros Hn Hc Ho. unfold NextBlock.
  replace (0 <? nesting (here pre (t1 :: t2 :: tl) n))%Z with true
    by (symmetry; apply Z.ltb_lt; exact Hn).
  rewrite Next_here. cbn [negb]. rewrite Val_here.
  apply String.eqb_neq in Hc, Ho. rewrite Hc, Ho.
  unfold withNesting, here. cbn [tokens cursor nesting].
  f_equal. now apply Z.ltb_lt.
Qed.

Lemma NextBlock_here_open
  (pre : list Token) (t1 t2 t3 : Token) (tl : list Token) :
  isNextOnNewLine t1 t2 = false -> Text t2 = "{" -> Text t3 <> "}" ->
  NextBlock 0 (here pre (t1 :: t2 :: t3 :: tl) 0)
  = (true, here ((pre ++ [t1]) ++ [t2]) (t3 :: tl) 1).
Proof.
  intros Hl Ho Hc. unfold NextBlock.
  change (0 <? nesting (here pre (t1 :: t2 :: t3 :: tl) 0))%Z with false.
  cbv iota. rewrite nextOnSameLine_here, Hl. cbn [negb].
  rewrite Val_here, Ho. cbn [String.eqb Ascii.eqb Bool.eqb negb].
  rewrite Next_here, Val_here. apply String.eqb_neq in Hc. rewrite Hc.
  reflexivity.
Qed.

(** ** The routing handler: [UnmarshalCaddyfile] *)

Lemma Routing_blockLoop_S
  (r : nat) (d : Dispenser) (l : Routing.Locals) (m : Routing.Middleware) :
  Routing.blockLoop (S r) d l m =
  let '(more, d) := NextBlock 0 d in
  if negb more then Some (Ok (d, l, m))
  else match Routing.dispatch d l m with
       | Err err => Some (Err err)
       | Ok (d, l, m) => Routing.blockLoop r d l m
       end.
Proof. reflexivity. Qed.

Lemma Routing_nextLoop_S
  (r : nat) (d : Dispenser) (l : Routing.Locals) (m : Routing.Middleware) :
  Routing.nextLoop (S r) d l m =
  let '(more, d) := Next d in
  if negb more then Some (Ok (d, l, m))
  else match Routing.blockLoop r d l m with
       | None => None
       | Some (Err err) => Some (Err err)
       | Some (Ok (d, l, m)) => Routing.nextLoop r d l m
       end.
Proof. reflexivity. Qed.

Lemma settable_name (name value : string) :
  settable (name, value) = true ->
  (name = "host" \/ name = "port" \/ name = "prefix" \/ name = "domain"
   \/ name = "tokenKey"
   \/ (name = "db" /\ exists v, strconv.Atoi value = Ok v))
  /\ value <> "{" /\ countNewlines value = 0%Z.
Proof.
  unfold settable. rewrite !andb_true_iff, !orb_true_iff, !String.eqb_eq.
  rewrite negb_true_iff, String.eqb_neq, Z.eqb_eq, andb_true_iff, String.eqb_eq.
  intros [[H Hv] Hn]. repeat split; try assumption.
  destruct H as [[[[[H|H]|H]|H]|H]|[H Ha]]; auto 10.
  do 5 right. split; [assumption|].
  destruct (strconv.Atoi value) as [v|]; [eauto | discriminate].
Qed.

Lemma settable_name_plain (name value : string) :
  settable (name, value) = true ->
  name <> "}" /\ name <> "{" /\ countNewlines name = 0%Z.
Proof.
  intros H. apply settable_name in H as [H _].
  destruct H as [H|[H|[H|[H|[H|[H _]]]]]]; subst name;
    repeat split; discriminate.
Qed.

Lemma tok_same_line (line : Z) (name value : string) :
  countNewlines name = 0%Z ->
  isNextOnNewLine (tok line name) (tok line value) = false.
Proof.
  intros H. unfold isNextOnNewLine, tok. cbn [File Line Text].
  rewrite String.eqb_refl, H. cbn [negb orb]. apply Z.ltb_ge. lia.
Qed.

(** An option line is taken in: the switch leaves the cursor on its
    value. *)
Lemma Routing_dispatch_settable
  (pre : list Token) (line n : Z) (name value : string) (tl : list Token)
  (l : Routing.Locals) (m : Routing.Middleware) :
  settable (name, value) = true ->
  exists l' m',
    Routing.dispatch (here pre (tok line name :: tok line value :: tl) n) l m
    = Ok (here (pre ++ [tok line name]) (tok line value :: tl) n, l', m').
Proof.
  intros Hs. pose proof (settable_name_plain _ _ Hs) as (_ & _ & Hnl).
  apply settable_name in Hs as (Hname & Hv & _).
  unfold Routing.dispatch.
  rewrite Val_here, NextArg_here_same, Val_here
    by (try apply tok_same_line; assumption).
  cbn [Text tok].
  destruct Hname as [H|[H|[H|[H|[H|[H [v Hv']]]]]]]; subst name;
    cbn [String.eqb Ascii.eqb Bool.eqb negb]; try rewrite Hv'; eauto.
Qed.

(** The tokens from an option line on start with a name. *)
Lemma optionLines_head
  (line lineD : Z) (opts : list (string * string)) (rest : list Token) :
  Forall (fun o => settable o = true) opts ->
  exists t tl,
    (optionLines line opts ++ tok lineD "domain" :: rest)%list = t :: tl
    /\ Text t <> "}" /\ Text t <> "{".
Proof.
  intros H. destruct opts as [|[name value] opts].
  - exists (tok lineD "domain"), rest. repeat split; discriminate.
  - inversion H as [|? ? Hs _]; subst.
    apply settable_name_plain in Hs as (Hc & Ho & _).
    cbn [optionLines app]. eauto.
Qed.

(** From any option line on, the loop ends at the [domain] line that has
    no value. *)
Lemma Routing_blockLoop_domain_without_value
  (opts : list (string * string)) :
  forall (pre : list Token) (line lineD : Z) (rest : list Token)
         (l : Routing.Locals) (m : Routing.Middleware) (r : nat),
    Forall (fun o => settable o = true) opts ->
    match rest with
    | [] => True
    | t :: _ => isNextOnNewLine (tok lineD "domain") t = true
    end ->
    List.length opts <= r ->
    match Routing.dispatch
            (here pre (optionLines line opts ++ tok lineD "domain" :: rest) 1)
            l m with
    | Err err => Some (Err err)
    | Ok (d, l', m') => Routing.blockLoop r d l' m'
    end = Some (Err "expect domain value").
Proof.
  induction opts as [|[name value] opts IH];
    intros pre line lineD rest l m r Hs Hrest Hr.
  - cbn [optionLines app]. unfold Routing.dispatch. rewrite Val_here.
    cbn [Text tok String.eqb Ascii.eqb Bool.eqb].
    destruct rest as [|t rest'].
    + now rewrite NextArg_here_last.
    + now rewrite NextArg_here_new.
  - inversion Hs as [|? ? Hs1 Hs']; subst. cbn [optionLines app].
    destruct (Routing_dispatch_settable pre line 1 name value
                (optionLines (line + 1) opts ++ tok lineD "domain" :: rest)
                l m Hs1) as (l' & m' & ->).
    destruct r as [|r]; [simpl in Hr; lia|].
    rewrite Routing_blockLoop_S.
    destruct (optionLines_head (line + 1) lineD opts rest Hs')
      as (t & tl & Heq & Hc & Ho).
    rewrite Heq, NextBlock_here_inside by (assumption || lia).
    cbn [negb]. rewrite <- Heq.
    apply IH; [assumption | assumption | simpl in Hr; lia].
Qed.

Lemma length_optionLines (line : Z) (opts : list (string * string)) :
  List.length opts <= List.length (optionLines line opts).
Proof.
  revert line; induction opts as [|[name value] opts IH]; intros line;
    cbn [optionLines List.length]; [lia|].
  specialize (IH (line + 1)%Z). lia.
Qed.

(** X23: the guard of the [domain] line: a [routing] block whose [domain]
    line has no value is refused by [UnmarshalCaddyfile] with
    ["expect domain value"], whatever option lines come before it and
    whatever comes after it; the handler is then not provisioned. *)
Theorem UnmarshalCaddyfile_domain_without_value
  (m : Routing.Middleware) (opts : list (string * string)) (rest : list Token) :
  Forall (fun o => settable o = true) opts ->
  match rest with
  | [] => True
  | t :: _ =>
      isNextOnNewLine (tok (2 + Z.of_nat (List.length opts)) "domain") t = true
  end ->
  Routing.UnmarshalCaddyfile m (NewDispenser (routingBlock opts rest))
  = Some (Err "expect domain value")
  /\ Routing.configure (NewDispenser (routingBlock opts rest))
     = Some (Err "expect domain value").
Proof.
  intros Hs Hrest.
  enough (H : forall m0,
             Routing.UnmarshalCaddyfile m0 (NewDispenser (routingBlock opts rest))
             = Some (Err "expect domain value")).
  { split; [apply H|]. unfold Routing.configure, Routing.parseCaddyfile.
    now rewrite H. }
  clear m. intros m. unfold Routing.UnmarshalCaddyfile, NewDispenser.
  cbn [tokens]. set (l := Routing.mkLocals _ _ _ _ _).
  set (toks := routingBlock opts rest).
  replace (List.length toks + 2) with (S (S (List.length toks))) by lia.
  rewrite Routing_nextLoop_S.
  change (mkDispenser toks (-1) 0)
    with (mkDispenser ([] ++ toks) (Z.of_nat (List.length (@nil Token)) + -1) 0).
  unfold toks at 1, routingBlock. rewrite Next_at by auto.
  change (mkDispenser ([] ++ ?x) (Z.of_nat (List.length (@nil Token)) + (-1 + 1)) 0)
    with (here [] x 0).
  cbn [negb]. rewrite Routing_blockLoop_S.
  destruct (optionLines_head 2 (2 + Z.of_nat (List.length opts)) opts rest Hs)
    as (t & tl & Heq & Hc & Ho).
  rewrite Heq.
  rewrite NextBlock_here_open
    by (try apply tok_same_line; try reflexivity; assumption).
  cbn [negb]. rewrite <- Heq.
  rewrite Routing_blockLoop_domain_without_value; [reflexivity | | | ];
    try assumption.
  unfold toks, routingBlock. cbn [List.length]. rewrite length_app.
  pose proof (length_optionLines 2 opts). lia.
Qed.

Lemma UnmarshalCaddyfile_domain_without_value_witness :
  let toks := [tok 1 "routing"; tok 1 "{";
               tok 2 "host"; tok 2 "10.0.0.1";
               tok 3 "db"; tok 3 "2";
               tok 4 "domain";
               tok 5 "}"] in
  Routing.UnmarshalCaddyfile Routing.zero (NewDispenser toks)
  = Some (Err "expect domain value")
  /\ Routing.configure (NewDispenser toks) = Some (Err "expect domain value").
Proof.
  apply (UnmarshalCaddyfile_domain_without_value Routing.zero
           [("host", "10.0.0.1"); ("db", "2")] [tok 5 "}"]).
  - repeat constructor.
  - reflexivity.
Defined.

(** C3: a [routing] block without any [domain] line is not refused:
    [UnmarshalCaddyfile] and [Provision] both return no error and leave
    the template empty, and the handler so configured then forwards
    every request whose host has a token with an empty [Host].  The
    absence of the template shows at request time, not at startup. *)
Theorem configure_without_domain_forwards_empty_host
  (store : redis.Store) (r : Request) (next : Request -> option error)
  (token : string) :
  store (":" ++ Host r) EmptyString = Ok token ->
  token <> EmptyString ->
  exists m,
    Routing.configure Samples.routingHostOnly = Some (Ok m)
    /\ Routing.Domain m = EmptyString
    /\ let served := Routing.ServeHTTP store m r next in
       let r' := mkRequest EmptyString (Method r) (RequestURI r) in
       Routing.request served = r'
       /\ In (EvNext r') (Routing.events served)
       /\ Routing.returned served = next r'.
Proof.
  intros Hget Htok.
  exists (Routing.mkMiddleware EmptyString EmptyString EmptyString
            (Some (redis.mkOptions "10.0.0.1:6379" 0))
            (redis.mkOptions "10.0.0.1:6379" 0)).
  split; [vm_compute; reflexivity|]. split; [reflexivity|].
  now apply (ServeHTTP_empty_template store _ r next token).
Qed.

Lemma configure_without_domain_forwards_empty_host_witness :
  let store : redis.Store := fun _ _ => Ok "abc" in
  let r := mkRequest "www.self-domain.com" "GET" "/" in
  exists m,
    Routing.configure Samples.routingHostOnly = Some (Ok m)
    /\ Routing.Domain m = EmptyString
    /\ let served := Routing.ServeHTTP store m r (fun _ => None) in
       let r' := mkRequest EmptyString "GET" "/" in
       Routing.request served = r'
       /\ In (EvNext r') (Routing.events served)
       /\ Routing.returned served = None.
Proof.
  intros store r.
  apply (configure_without_domain_forwards_empty_host store r
           (fun _ => None) "abc").
  - reflexivity.
  - discriminate.
Defined.

(** A quoted opening brace is the value of the option, not the start of
    a block. *)
Example UnmarshalCaddyfile_quoted_brace_value :
  Routing.parseCaddyfile
    (NewDispenser
       [tok 1 "routing"; tok 1 "{";
        tok 2 "host"; quoted 2 "{";
        tok 3 "domain"; tok 3 "{{token}}.test.com";
        tok 4 "}"])
  = Some (Ok (Routing.mkMiddleware EmptyString EmptyString "{{token}}.test.com"
                None (redis.mkOptions "{:6379" 0))).
Proof. vm_compute. reflexivity. Qed.

(** C2: the options that are absent from the block are left at the zero
    value of the struct: the prefix and the field name are empty, not
    ["s"], ["token"] and ["cert"]. *)
Theorem UnmarshalCaddyfile_absent_options_left_empty :
  Routing.parseCaddyfile Samples.routingDomainOnly
  = Some (Ok (Routing.mkMiddleware EmptyString EmptyString "{{token}}.test.com"
                None (redis.mkOptions "127.0.0.1:6379" 0)))
  /\ TlsRedis.UnmarshalCaddyfile TlsRedis.new Samples.redisHostOnly
     = Some (Ok (TlsRedis.mkRedisCertGetter EmptyString EmptyString None
                   (redis.mkOptions "127.0.0.1:6379" 0))).
Proof. vm_compute. split; reflexivity. Qed.

(** The defaults of the local variables reach the struct only through a
    line that names the option without a value. *)
Example UnmarshalCaddyfile_bare_options :
  Routing.parseCaddyfile Samples.routingBareOptions
  = Some (Ok (Routing.mkMiddleware "s" "token" "{{token}}.test.com"
                None (redis.mkOptions "127.0.0.1:6379" 0))).
Proof. vm_compute. reflexivity. Qed.

Example UnmarshalCaddyfile_routingFull :
  Routing.parseCaddyfile Samples.routingFull
  = Some (Ok (Routing.mkMiddleware "site" "token" "{{token}}.test.com"
                None (redis.mkOptions "127.0.0.1:6379" 0))).
Proof. vm_compute. reflexivity. Qed.

(** ** The dispenser moves forward *)

Ltac splits := repeat match goal with |- _ /\ _ => split end; try reflexivity.

Lemma Val_dispensed (d : Dispenser) :
  Val d = EmptyString \/ dispenses d (Val d).
Proof.
  unfold Val, tokenAt. destruct (_ || _)%bool; [now left|].
  destruct (cursor d <? 0)%Z; [now left|].
  destruct (nth_error (tokens d) (Z.to_nat (cursor d))) as [t|] eqn:E;
    [|now left].
  right. exists t. split; [exact (nth_error_In _ _ E) | reflexivity].
Qed.

Lemma Val_not_dispensed (d : Dispenser) (text : string) :
  text <> EmptyString -> ~ dispenses d text -> String.eqb (Val d) text = false.
Proof.
  intros Hne Hno. apply String.eqb_neq. intros Heq.
  destruct (Val_dispensed d) as [H|H]; [congruence|]. now rewrite Heq in H.
Qed.

Lemma Next_spec (d : Dispenser) :
  tokens (snd (Next d)) = tokens d
  /\ nesting (snd (Next d)) = nesting d
  /\ (fst (Next d) = true ->
      cursor (snd (Next d)) = (cursor d + 1)%Z
      /\ (cursor (snd (Next d)) <= len d - 1)%Z)
  /\ (fst (Next d) = false -> snd (Next d) = d).
Proof.
  unfold Next. destruct (_ <? _)%Z eqn:E; cbn [fst snd withCursor tokens
    nesting cursor]; splits; try discriminate; try reflexivity.
  apply Z.ltb_lt in E. lia.
Qed.

Lemma nextOnSameLine_spec (d : Dispenser) :
  tokens (snd (nextOnSameLine d)) = tokens d
  /\ nesting (snd (nextOnSameLine d)) = nesting d
  /\ (cursor d <= cursor (snd (nextOnSameLine d)) <= cursor d + 1)%Z
  /\ (fst (nextOnSameLine d) = true ->
      cursor (snd (nextOnSameLine d)) = (cursor d + 1)%Z)
  /\ (onToken d -> onToken (snd (nextOnSameLine d))).
Proof.
  unfold nextOnSameLine, onToken, len.
  destruct (cursor d <? 0)%Z eqn:E0;
    [apply Z.ltb_lt in E0 | apply Z.ltb_ge in E0].
  { cbn [fst snd withCursor tokens nesting cursor]. splits; lia. }
  destruct (_ <=? _)%Z eqn:E1;
    [apply Z.leb_le in E1 | apply Z.leb_gt in E1].
  { cbn [fst snd]. splits; try lia; try discriminate; tauto. }
  destruct (tokenAt d (cursor d)) as [curr|];
    [|cbn [fst snd]; splits; try lia; try discriminate; tauto].
  destruct (tokenAt d (cursor d + 1)) as [next|];
    [|cbn [fst snd]; splits; try lia; try discriminate; tauto].
  destruct (negb (isNextOnNewLine curr next));
    cbn [fst snd withCursor tokens nesting cursor];
    splits; try lia; try discriminate; try tauto.
Qed.

Lemma NextArg_spec (d : Dispenser) :
  tokens (snd (NextArg d)) = tokens d
  /\ nesting (snd (NextArg d)) = nesting d
  /\ (cursor d <= cursor (snd (NextArg d)) <= cursor d + 1)%Z
  /\ (onToken d -> onToken (snd (NextArg d))).
Proof.
  unfold NextArg.
  destruct (nextOnSameLine_spec d) as (Ht & Hn & Hc & Hs & Ho).
  destruct (nextOnSameLine d) as [same d1]. cbn [fst snd] in *.
  destruct same; cbn [negb]; [|cbn [snd]; tauto].
  specialize (Hs eq_refl).
  destruct (String.eqb (Val d1) "{" && negb (Quoted (Token_ d1)));
    cbn [snd withCursor tokens nesting cursor]; splits;
    try assumption; try lia.
  - intros Hon'. unfold onToken, len in *. cbn [withCursor tokens cursor].
    rewrite Ht. lia.
Qed.

Lemma NextBlock_spec (d : Dispenser) :
  onToken d ->
  tokens (snd (NextBlock 0 d)) = tokens d
  /\ onToken (snd (NextBlock 0 d))
  /\ (cursor d <= cursor (snd (NextBlock 0 d)))%Z
  /\ (fst (NextBlock 0 d) = true -> (cursor d < cursor (snd (NextBlock 0 d)))%Z).
Proof.
  intros Hon. unfold NextBlock.
  destruct (0 <? nesting d)%Z.
  - destruct (Next_spec d) as (Ht & Hn & Hs & Hf).
    destruct (Next d) as [more d1]. cbn [fst snd] in *.
    destruct more; cbn [negb].
    2:{ rewrite (Hf eq_refl). cbn [fst snd]. splits; try assumption;
        try lia; intros; discriminate. }
    destruct (Hs eq_refl) as [Hc1 Hb1].
    assert (Hon1 : onToken d1).
    { unfold onToken, len in *. rewrite Ht. lia. }
    destruct (nextOnSameLine_spec d1) as (Ht2 & _ & Hc2 & _ & Ho2).
    destruct (nextOnSameLine d1) as [same d2]. cbn [fst snd] in *.
    specialize (Ho2 Hon1).
    destruct (nextOnSameLine_spec d2) as (Ht3 & _ & Hc3 & _ & Ho3).
    destruct (nextOnSameLine d2) as [same' d3]. cbn [fst snd] in *.
    specialize (Ho3 Ho2).
    assert (Hd : forall (d' : Dispenser) (k : Z),
               tokens d' = tokens d -> onToken d' ->
               (cursor d < cursor d')%Z ->
               tokens (withNesting d' k) = tokens d
               /\ onToken (withNesting d' k)
               /\ (cursor d <= cursor (withNesting d' k))%Z
               /\ (cursor d < cursor (withNesting d' k))%Z).
    { intros d' k Ht' Ho' Hc'. unfold onToken, len, withNesting in *.
      cbn [tokens cursor]. splits; try assumption; lia. }
    destruct (String.eqb (Val d1) "}").
    + destruct same; cbn [negb].
      * destruct (String.eqb (Val d2) "{").
        -- destruct same'; cbn [negb fst snd];
             destruct (Hd d3 (nesting d1) ltac:(congruence) Ho3 ltac:(lia))
               as (? & ? & ? & ?);
             destruct (Hd d3 (nesting d1 + 1)%Z ltac:(congruence) Ho3
                         ltac:(lia)) as (? & ? & ? & ?);
             splits; auto.
        -- cbn [fst snd].
           destruct (Hd d2 (nesting d1) ltac:(congruence) Ho2 ltac:(lia))
             as (? & ? & ? & ?). splits; auto.
      * cbn [fst snd].
        destruct (Hd d2 (nesting d1 - 1)%Z ltac:(congruence) Ho2 ltac:(lia))
          as (? & ? & ? & ?). splits; auto.
    + destruct (String.eqb (Val d1) "{").
      * destruct same; cbn [negb fst snd];
          destruct (Hd d2 (nesting d1) ltac:(congruence) Ho2 ltac:(lia))
            as (? & ? & ? & ?);
          destruct (Hd d2 (nesting d1 + 1)%Z ltac:(congruence) Ho2 ltac:(lia))
            as (? & ? & ? & ?);
          splits; auto.
      * cbn [fst snd].
        destruct (Hd d1 (nesting d1) ltac:(congruence) Hon1 ltac:(lia))
          as (? & ? & ? & ?). splits; auto.
  - destruct (nextOnSameLine_spec d) as (Ht & _ & Hc & Hs & Ho).
    destruct (nextOnSameLine d) as [same d1]. cbn [fst snd] in *.
    specialize (Ho Hon).
    destruct same; cbn [negb].
    2:{ cbn [fst snd]. splits; try assumption; try lia; intros; discriminate. }
    specialize (Hs eq_refl).
    destruct (String.eqb (Val d1) "{"); cbn [negb].
    2:{ cbn [fst snd withCursor tokens cursor]. unfold onToken, len in *.
        cbn [withCursor tokens cursor]. rewrite Ht.
        splits; try lia; intros; discriminate. }
    destruct (Next_spec d1) as (Ht2 & _ & Hs2 & Hf2).
    destruct (Next d1) as [more d2]. cbn [fst snd] in *.
    assert (Hd2 : onToken d2 /\ (cursor d1 <= cursor d2)%Z).
    { destruct more.
      - destruct (Hs2 eq_refl). unfold onToken, len in *. rewrite Ht2. lia.
      - rewrite (Hf2 eq_refl). split; [assumption | lia]. }
    destruct Hd2 as [Hon2 Hc2].
    destruct (String.eqb (Val d2) "}");
      cbn [fst snd withNesting tokens cursor]; unfold onToken, len in *;
      cbn [withNesting tokens cursor]; splits; try congruence; try lia;
      try (intros; discriminate).
    all: rewrite ?Ht2, ?Ht in *; lia.
Qed.

(** ** [UnmarshalCaddyfile] returns, and leaves alone what is not named *)

Ltac dispatch_cases H :=
  repeat match type of H with
         | context [String.eqb (Val ?d) ?s] =>
             let E := fresh "E" in destruct (String.eqb (Val d) s) eqn:E
         end;
  repeat match type of H with
         | context [match ?x with _ => _ end] => destruct x
         end;
  try discriminate H; injection H as <- <- <-.

Lemma Routing_dispatch_spec
  (d : Dispenser) (l : Routing.Locals) (m : Routing.Middleware)
  (d' : Dispenser) (l' : Routing.Locals) (m' : Routing.Middleware) :
  Routing.dispatch d l m = Ok (d', l', m') ->
  tokens d' = tokens d
  /\ (cursor d <= cursor d')%Z
  /\ (onToken d -> onToken d')
  /\ (String.eqb (Val d) "prefix" = false -> Routing.Prefix m' = Routing.Prefix m)
  /\ (String.eqb (Val d) "tokenKey" = false ->
      Routing.TokenKey m' = Routing.TokenKey m)
  /\ (String.eqb (Val d) "domain" = false -> Routing.Domain m' = Routing.Domain m).
Proof.
  unfold Routing.dispatch.
  destruct (NextArg_spec d) as (Ht & _ & Hc & Ho).
  destruct (NextArg d) as [ok d1]. cbn [snd] in *.
  intros H. dispatch_cases H; cbn; splits; auto; try lia; congruence.
Qed.

Lemma Routing_blockLoop_spec (r : nat) :
  forall (d : Dispenser) (l : Routing.Locals) (m : Routing.Middleware),
    onToken d -> remaining d < r ->
    exists res,
      Routing.blockLoop r d l m = Some res
      /\ forall d' l' m',
           res = Ok (d', l', m') ->
           tokens d' = tokens d /\ onToken d' /\ (cursor d <= cursor d')%Z
           /\ (~ dispenses d "prefix" -> Routing.Prefix m' = Routing.Prefix m)
           /\ (~ dispenses d "tokenKey" ->
               Routing.TokenKey m' = Routing.TokenKey m)
           /\ (~ dispenses d "domain" -> Routing.Domain m' = Routing.Domain m).
Proof.
  induction r as [|r IH]; intros d l m Hon Hr; [lia|].
  rewrite Routing_blockLoop_S.
  destruct (NextBlock_spec d Hon) as (Ht1 & Hon1 & Hc1 & Hs1).
  destruct (NextBlock 0 d) as [more d1]. cbn [fst snd] in *.
  destruct more; cbn [negb].
  2:{ eexists; split; [reflexivity|]. intros d' l' m' [= <- <- <-].
      splits; auto. }
  specialize (Hs1 eq_refl).
  destruct (Routing.dispatch d1 l m) as [[[d2 l2] m2]|err] eqn:Ed.
  2:{ eexists; split; [reflexivity|]. intros d' l' m' [=]. }
  apply Routing_dispatch_spec in Ed as (Ht2 & Hc2 & Ho2 & Hp2 & Hk2 & Hd2).
  specialize (Ho2 Hon1).
  destruct (IH d2 l2 m2 Ho2) as (res & -> & Hres).
  { assert (len d1 = len d) by (unfold len; congruence).
    assert (len d2 = len d) by (unfold len; congruence).
    unfold remaining, onToken in *. lia. }
  eexists; split; [reflexivity|]. intros d' l' m' ->.
  destruct (Hres _ _ _ eq_refl) as (Ht3 & Ho3 & Hc3 & Hp3 & Hk3 & Hd3).
  assert (Hsame : forall text, ~ dispenses d text -> ~ dispenses d2 text)
    by (intros text Hno [t [Hin Htx]]; apply Hno; exists t;
        rewrite <- Ht1, <- Ht2; auto).
  assert (Hval : forall text,
             text <> EmptyString -> ~ dispenses d text ->
             String.eqb (Val d1) text = false).
  { intros text Hne Hno. apply Val_not_dispensed; [assumption|].
    intros [t [Hin Htx]]. apply Hno. exists t. rewrite <- Ht1. auto. }
  splits; try congruence; try lia; intros Hno.
  - rewrite (Hp3 (Hsame _ Hno)). apply Hp2, Hval; [discriminate | assumption].
  - rewrite (Hk3 (Hsame _ Hno)). apply Hk2, Hval; [discriminate | assumption].
  - rewrite (Hd3 (Hsame _ Hno)). apply Hd2, Hval; [discriminate | assumption].
Qed.

Lemma Routing_nextLoop_spec (r : nat) :
  forall (d : Dispenser) (l : Routing.Locals) (m : Routing.Middleware),
    (-1 <= cursor d <= len d - 1)%Z -> remaining d + 1 < r ->
    exists res,
      Routing.nextLoop r d l m = Some res
      /\ forall d' l' m',
           res = Ok (d', l', m') ->
           (~ dispenses d "prefix" -> Routing.Prefix m' = Routing.Prefix m)
           /\ (~ dispenses d "tokenKey" ->
               Routing.TokenKey m' = Routing.TokenKey m)
           /\ (~ dispenses d "domain" -> Routing.Domain m' = Routing.Domain m).
Proof.
  induction r as [|r IH]; intros d l m Hc Hr; [lia|].
  rewrite Routing_nextLoop_S.
  destruct (Next_spec d) as (Ht1 & _ & Hs1 & Hf1).
  destruct (Next d) as [more d1]. cbn [fst snd] in *.
  destruct more; cbn [negb].
  2:{ eexists; split; [reflexivity|]. intros d' l' m' [= <- <- <-].
      splits; auto. }
  destruct (Hs1 eq_refl) as [Hc1 Hb1].
  assert (Hon1 : onToken d1).
  { assert (len d1 = len d) by (unfold len; congruence).
    unfold onToken in *. lia. }
  destruct (Routing_blockLoop_spec r d1 l m Hon1) as (res & -> & Hres).
  { assert (len d1 = len d) by (unfold len; congruence).
    unfold remaining, onToken in *. lia. }
  destruct res as [[[d2 l2] m2]|err].
  2:{ eexists; split; [reflexivity|]. intros d' l' m' [=]. }
  destruct (Hres _ _ _ eq_refl) as (Ht2 & Ho2 & Hc2 & Hp2 & Hk2 & Hd2).
  destruct (IH d2 l2 m2) as (res & -> & Hres').
  { assert (len d1 = len d) by (unfold len; congruence).
    assert (len d2 = len d) by (unfold len; congruence).
    unfold onToken in *. lia. }
  { assert (len d1 = len d) by (unfold len; congruence).
    assert (len d2 = len d) by (unfold len; congruence).
    unfold remaining, onToken in *. lia. }
  eexists; split; [reflexivity|]. intros d' l' m' ->.
  destruct (Hres' _ _ _ eq_refl) as (Hp3 & Hk3 & Hd3).
  assert (Hsame1 : forall text, ~ dispenses d text -> ~ dispenses d1 text)
    by (intros text Hno [t [Hin Htx]]; apply Hno; exists t;
        rewrite <- Ht1; auto).
  assert (Hsame2 : forall text, ~ dispenses d text -> ~ dispenses d2 text)
    by (intros text Hno [t [Hin Htx]]; apply Hno; exists t;
        rewrite <- Ht1, <- Ht2; auto).
  splits; intros Hno.
  - now rewrite (Hp3 (Hsame2 _ Hno)), (Hp2 (Hsame1 _ Hno)).
  - now rewrite (Hk3 (Hsame2 _ Hno)), (Hk2 (Hsame1 _ Hno)).
  - now rewrite (Hd3 (Hsame2 _ Hno)), (Hd2 (Hsame1 _ Hno)).
Qed.

(** X15: the two loops of [UnmarshalCaddyfile] end on every token list:
    it returns, within [length tokens + 2] iterations of either. *)
Lemma Routing_UnmarshalCaddyfile_returns
  (m : Routing.Middleware) (toks : list Token) :
  exists res, Routing.UnmarshalCaddyfile m (NewDispenser toks) = Some res.
Proof.
  unfold Routing.UnmarshalCaddyfile.
  destruct (Routing_nextLoop_spec (List.length toks + 2) (NewDispenser toks)
              (Routing.mkLocals "127.0.0.1" "6379" 0 "s" "token") m)
    as (res & Hres & _).
  { unfold len. cbn [NewDispenser tokens cursor]. lia. }
  { unfold remaining, len. cbn [NewDispenser tokens cursor]. lia. }
  cbn [NewDispenser tokens] in *. rewrite Hres.
  destruct res as [[[d' l'] m']|err]; eauto.
Qed.

(** An option that the block does not name keeps the value that the
    struct had before: the defaults of the local variables do not reach
    it. *)
Lemma Routing_UnmarshalCaddyfile_absent
  (m m' : Routing.Middleware) (toks : list Token) :
  Routing.UnmarshalCaddyfile m (NewDispenser toks) = Some (Ok m') ->
  ((forall t, In t toks -> Text t <> "prefix") ->
   Routing.Prefix m' = Routing.Prefix m)
  /\ ((forall t, In t toks -> Text t <> "tokenKey") ->
      Routing.TokenKey m' = Routing.TokenKey m)
  /\ ((forall t, In t toks -> Text t <> "domain") ->
      Routing.Domain m' = Routing.Domain m).
Proof.
  unfold Routing.UnmarshalCaddyfile.
  destruct (Routing_nextLoop_spec (List.length toks + 2) (NewDispenser toks)
              (Routing.mkLocals "127.0.0.1" "6379" 0 "s" "token") m)
    as (res & Hres & Hkeep).
  { unfold len. cbn [NewDispenser tokens cursor]. lia. }
  { unfold remaining, len. cbn [NewDispenser tokens cursor]. lia. }
  cbn [NewDispenser tokens] in *. rewrite Hres.
  destruct res as [[[d' l'] m'']|err]; [|discriminate].
  intros [= <-]. cbn [Routing.Prefix Routing.TokenKey Routing.Domain].
  destruct (Hkeep _ _ _ eq_refl) as (Hp & Hk & Hd).
  splits; intros Hno; [apply Hp | apply Hk | apply Hd];
    intros [t [Hin Htx]]; exact (Hno t Hin Htx).
Qed.

(** *** The certificate getter *)

Lemma TlsRedis_blockLoop_S
  (r : nat) (d : Dispenser) (l : TlsRedis.Locals) (m : TlsRedis.RedisCertGetter) :
  TlsRedis.blockLoop (S r) d l m =
  let '(more, d) := NextBlock 0 d in
  if negb more then Some (Ok (d, l, m))
  else match TlsRedis.dispatch d l m with
       | Err err => Some (Err err)
       | Ok (d, l, m) => TlsRedis.blockLoop r d l m
       end.
Proof. reflexivity. Qed.

Lemma TlsRedis_nextLoop_S
  (r : nat) (d : Dispenser) (l : TlsRedis.Locals) (m : TlsRedis.RedisCertGetter) :
  TlsRedis.nextLoop (S r) d l m =
  let '(more, d) := Next d in
  if negb more then Some (Ok (d, l, m))
  else match TlsRedis.blockLoop r d l m with
       | None => None
       | Some (Err err) => Some (Err err)
       | Some (Ok (d, l, m)) => TlsRedis.nextLoop r d l m
       end.
Proof. reflexivity. Qed.

Lemma TlsRedis_dispatch_spec
  (d : Dispenser) (l : TlsRedis.Locals) (m : TlsRedis.RedisCertGetter)
  (d' : Dispenser) (l' : TlsRedis.Locals) (m' : TlsRedis.RedisCertGetter) :
  TlsRedis.dispatch d l m = Ok (d', l', m') ->
  tokens d' = tokens d
  /\ (cursor d <= cursor d')%Z
  /\ (onToken d -> onToken d')
  /\ (String.eqb (Val d) "prefix" = false -> TlsRedis.Prefix m' = TlsRedis.Prefix m)
  /\ (String.eqb (Val d) "certKey" = false ->
      TlsRedis.CertKey m' = TlsRedis.CertKey m).
Proof.
  unfold TlsRedis.dispatch.
  destruct (NextArg_spec d) as (Ht & _ & Hc & Ho).
  destruct (NextArg d) as [ok d1]. cbn [snd] in *.
  intros H. dispatch_cases H; cbn; splits; auto; try lia; congruence.
Qed.

Lemma TlsRedis_blockLoop_spec (r : nat) :
  forall (d : Dispenser) (l : TlsRedis.Locals) (m : TlsRedis.RedisCertGetter),
    onToken d -> remaining d < r ->
    exists res,
      TlsRedis.blockLoop r d l m = Some res
      /\ forall d' l' m',
           res = Ok (d', l', m') ->
           tokens d' = tokens d /\ onToken d' /\ (cursor d <= cursor d')%Z
           /\ (~ dispenses d "prefix" -> TlsRedis.Prefix m' = TlsRedis.Prefix m)
           /\ (~ dispenses d "certKey" ->
               TlsRedis.CertKey m' = TlsRedis.CertKey m).
Proof.
  induction r as [|r IH]; intros d l m Hon Hr; [lia|].
  rewrite TlsRedis_blockLoop_S.
  destruct (NextBlock_spec d Hon) as (Ht1 & Hon1 & Hc1 & Hs1).
  destruct (NextBlock 0 d) as [more d1]. cbn [fst snd] in *.
  destruct more; cbn [negb].
  2:{ eexists; split; [reflexivity|]. intros d' l' m' [= <- <- <-].
      splits; auto. }
  specialize (Hs1 eq_refl).
  destruct (TlsRedis.dispatch d1 l m) as [[[d2 l2] m2]|err] eqn:Ed.
  2:{ eexists; split; [reflexivity|]. intros d' l' m' [=]. }
  apply TlsRedis_dispatch_spec in Ed as (Ht2 & Hc2 & Ho2 & Hp2 & Hk2).
  specialize (Ho2 Hon1).
  destruct (IH d2 l2 m2 Ho2) as (res & -> & Hres).
  { assert (len d1 = len d) by (unfold len; congruence).
    assert (len d2 = len d) by (unfold len; congruence).
    unfold remaining, onToken in *. lia. }
  eexists; split; [reflexivity|]. intros d' l' m' ->.
  destruct (Hres _ _ _ eq_refl) as (Ht3 & Ho3 & Hc3 & Hp3 & Hk3).
  assert (Hsame : forall text, ~ dispenses d text -> ~ dispenses d2 text)
    by (intros text Hno [t [Hin Htx]]; apply Hno; exists t;
        rewrite <- Ht1, <- Ht2; auto).
  assert (Hval : forall text,
             text <> EmptyString -> ~ dispenses d text ->
             String.eqb (Val d1) text = false).
  { intros text Hne Hno. apply Val_not_dispensed; [assumption|].
    intros [t [Hin Htx]]. apply Hno. exists t. rewrite <- Ht1. auto. }
  splits; try congruence; try lia; intros Hno.
  - rewrite (Hp3 (Hsame _ Hno)). apply Hp2, Hval; [discriminate | assumption].
  - rewrite (Hk3 (Hsame _ Hno)). apply Hk2, Hval; [discriminate | assumption].
Qed.

Lemma TlsRedis_nextLoop_spec (r : nat) :
  forall (d : Dispenser) (l : TlsRedis.Locals) (m : TlsRedis.RedisCertGetter),
    (-1 <= cursor d <= len d - 1)%Z -> remaining d + 1 < r ->
    exists res,
      TlsRedis.nextLoop r d l m = Some res
      /\ forall d' l' m',
           res = Ok (d', l', m') ->
           (~ dispenses d "prefix" -> TlsRedis.Prefix m' = TlsRedis.Prefix m)
           /\ (~ dispenses d "certKey" ->
               TlsRedis.CertKey m' = TlsRedis.CertKey m).
Proof.
  induction r as [|r IH]; intros d l m Hc Hr; [lia|].
  rewrite TlsRedis_nextLoop_S.
  destruct (Next_spec d) as (Ht1 & _ & Hs1 & Hf1).
  destruct (Next d) as [more d1]. cbn [fst snd] in *.
  destruct more; cbn [negb].
  2:{ eexists; split; [reflexivity|]. intros d' l' m' [= <- <- <-].
      splits; auto. }
  destruct (Hs1 eq_refl) as [Hc1 Hb1].
  assert (Hon1 : onToken d1).
  { assert (len d1 = len d) by (unfold len; congruence).
    unfold onToken in *. lia. }
  destruct (TlsRedis_blockLoop_spec r d1 l m Hon1) as (res & -> & Hres).
  { assert (len d1 = len d) by (unfold len; congruence).
    unfold remaining, onToken in *. lia. }
  destruct res as [[[d2 l2] m2]|err].
  2:{ eexists; split; [reflexivity|]. intros d' l' m' [=]. }
  destruct (Hres _ _ _ eq_refl) as (Ht2 & Ho2 & Hc2 & Hp2 & Hk2).
  destruct (IH d2 l2 m2) as (res & -> & Hres').
  { assert (len d1 = len d) by (unfold len; congruence).
    assert (len d2 = len d) by (unfold len; congruence).
    unfold onToken in *. lia. }
  { assert (len d1 = len d) by (unfold len; congruence).
    assert (len d2 = len d) by (unfold len; congruence).
    unfold remaining, onToken in *. lia. }
  eexists; split; [reflexivity|]. intros d' l' m' ->.
  destruct (Hres' _ _ _ eq_refl) as (Hp3 & Hk3).
  assert (Hsame1 : forall text, ~ dispenses d text -> ~ dispenses d1 text)
    by (intros text Hno [t [Hin Htx]]; apply Hno; exists t;
        rewrite <- Ht1; auto).
  assert (Hsame2 : forall text, ~ dispenses d text -> ~ dispenses d2 text)
    by (intros text Hno [t [Hin Htx]]; apply Hno; exists t;
        rewrite <- Ht1, <- Ht2; auto).
  splits; intros Hno.
  - now rewrite (Hp3 (Hsame2 _ Hno)), (Hp2 (Hsame1 _ Hno)).
  - now rewrite (Hk3 (Hsame2 _ Hno)), (Hk2 (Hsame1 _ Hno)).
Qed.

(** X21: the two loops of the [UnmarshalCaddyfile] of the certificate
    getter end on every token list. *)
Lemma TlsRedis_UnmarshalCaddyfile_returns
  (m : TlsRedis.RedisCertGetter) (toks : list Token) :
  exists res, TlsRedis.UnmarshalCaddyfile m (NewDispenser toks) = Some res.
Proof.
  unfold TlsRedis.UnmarshalCaddyfile.
  destruct (TlsRedis_nextLoop_spec (List.length toks + 2) (NewDispenser toks)
              (TlsRedis.mkLocals "127.0.0.1" "6379" 0 "s" "cert") m)
    as (res & Hres & _).
  { unfold len. cbn [NewDispenser tokens cursor]. lia. }
  { unfold remaining, len. cbn [NewDispenser tokens cursor]. lia. }
  cbn [NewDispenser tokens] in *. rewrite Hres.
  destruct res as [[[d' l'] m']|err]; eauto.
Qed.

Lemma TlsRedis_UnmarshalCaddyfile_absent
  (m m' : TlsRedis.RedisCertGetter) (toks : list Token) :
  TlsRedis.UnmarshalCaddyfile m (NewDispenser toks) = Some (Ok m') ->
  ((forall t, In t toks -> Text t <> "prefix") ->
   TlsRedis.Prefix m' = TlsRedis.Prefix m)
  /\ ((forall t, In t toks -> Text t <> "certKey") ->
      TlsRedis.CertKey m' = TlsRedis.CertKey m).
Proof.
  unfold TlsRedis.UnmarshalCaddyfile.
  destruct (TlsRedis_nextLoop_spec (List.length toks + 2) (NewDispenser toks)
              (TlsRedis.mkLocals "127.0.0.1" "6379" 0 "s" "cert") m)
    as (res & Hres & Hkeep).
  { unfold len. cbn [NewDispenser tokens cursor]. lia. }
  { unfold remaining, len. cbn [NewDispenser tokens cursor]. lia. }
  cbn [NewDispenser tokens] in *. rewrite Hres.
  destruct res as [[[d' l'] m'']|err]; [|discriminate].
  intros [= <-]. cbn [TlsRedis.Prefix TlsRedis.CertKey].
  destruct (Hkeep _ _ _ eq_refl) as (Hp & Hk).
  splits; intros Hno; [apply Hp | apply Hk];
    intros [t [Hin Htx]]; exact (Hno t Hin Htx).
Qed.

(** ** More of the decoder on the sample bundles *)

Section DecoderSamples.

Import Samples.

Local Abbreviation cert := (blockOf "CERTIFICATE").
Local Abbreviation ecp := (blockOf "EC PARAMETERS" "BBBB").
Local Abbreviation eck := (blockOf "EC PRIVATE KEY" "CCCC").
Local Abbreviation rsa := (blockOf "RSA PRIVATE KEY" "EEEE").

Lemma decode_unrecognized_block_type_witness :
  PemText.decode unknownBundle = Some (Err "unrecognized PEM block type: FOO").
Proof.
  apply (decode_unrecognized_block_type PemText.KeyPair PemText.Decode
           PemText.Encode PemText.X509KeyPair PemText_Decode_consumes
           PemText_Encode_decoded unknownBundle
           [cert "AAAA"; ecp; eck] (blockOf "FOO" "FFFF") [cert "DDDD"]).
  - vm_compute. reflexivity.
  - repeat constructor.
  - right. eexists. vm_compute. reflexivity.
  - reflexivity.
Defined.

Lemma decode_no_private_key_witness :
  PemText.decode certOnlyBundle = Some (Err "no private key block found").
Proof.
  apply (decode_no_private_key PemText.KeyPair PemText.Decode PemText.Encode
           PemText.X509KeyPair PemText_Decode_consumes PemText_Encode_decoded
           PemText_Encode_nonempty certOnlyBundle).
  - vm_compute. discriminate.
  - vm_compute. repeat constructor.
Defined.

Lemma decode_key_pair_error_witness :
  tlsCertFromCertAndKeyPEMBundle PemText.KeyPair PemText.Decode PemText.Encode
    mismatch ecBundle
  = Some (Err "making X509 key pair: tls: private key does not match public key").
Proof.
  apply (decode_key_pair_error PemText.KeyPair PemText.Decode PemText.Encode
           mismatch PemText_Decode_consumes PemText_Encode_decoded
           PemText_Encode_nonempty ecBundle (ecParams ++ ecKey)%string).
  - vm_compute. repeat constructor.
  - vm_compute. apply Exists_cons_hd. reflexivity.
  - vm_compute. reflexivity.
  - reflexivity.
Defined.

Lemma decode_ignores_later_keys_witness :
  PemText.decode twoKeysBundle = PemText.decode plainBundle.
Proof.
  apply (decode_ignores_later_keys PemText.KeyPair PemText.Decode
           PemText.Encode PemText.X509KeyPair PemText_Decode_consumes
           twoKeysBundle plainBundle [cert "AAAA"; rsa] eck [cert "DDDD"]).
  - vm_compute. reflexivity.
  - vm_compute. reflexivity.
  - reflexivity.
  - apply Exists_cons_tl, Exists_cons_hd. reflexivity.
Defined.

Lemma decode_succeeds_iff_witness :
  PemText.decode plainBundle = Some (Ok ((certA ++ certD)%string, rsaKey)).
Proof.
  apply (decode_succeeds_iff PemText.KeyPair PemText.Decode PemText.Encode
           PemText.X509KeyPair PemText_Decode_consumes PemText_Encode_decoded
           PemText_Encode_nonempty plainBundle).
  split; [vm_compute; repeat constructor|].
  split; [vm_compute; apply Exists_cons_hd; reflexivity|].
  exists rsaKey. split; vm_compute; reflexivity.
Defined.

Lemma decode_error_messages_witness :
  let err := "unrecognized PEM block type: FOO" in
  err = "expected elliptic private key to immediately follow EC parameters"
  \/ (exists b, In b (pemBlocks PemText.Decode unknownBundle)
                /\ recognised b = false
                /\ err = ("unrecognized PEM block type: " ++ pem.Type_ b)%string)
  \/ err = "failed to parse PEM data"
  \/ err = "no private key block found"
  \/ exists reason, err = ("making X509 key pair: " ++ reason)%string.
Proof.
  apply (decode_error_messages PemText.KeyPair PemText.Decode PemText.Encode
           PemText.X509KeyPair PemText_Decode_consumes PemText_Encode_decoded
           unknownBundle).
  vm_compute. reflexivity.
Defined.

Lemma GetCertificate_certificate_from_store_witness :
  let rcg := TlsRedis.mkRedisCertGetter "site" "cert" None
               (redis.mkOptions "127.0.0.1:6379" 0) in
  let store := oneRecord "site:example.com" "cert" ecBundle in
  exists pem,
    store "site:example.com" "cert" = Ok pem
    /\ Forall (fun b => recognised b = true) (pemBlocks PemText.Decode pem)
    /\ Exists (fun b => isCertificate b = true) (pemBlocks PemText.Decode pem)
    /\ exists k,
         firstKey PemText.Encode (pemBlocks PemText.Decode pem) = Some k
         /\ PemText.X509KeyPair
              (chainOf PemText.Encode (pemBlocks PemText.Decode pem)) k
            = Ok ((certA ++ certD)%string, (ecParams ++ ecKey)%string).
Proof.
  intros rcg store.
  apply (GetCertificate_certificate_from_store PemText.KeyPair PemText.Decode
           PemText.Encode PemText.X509KeyPair PemText_Decode_consumes
           store rcg "example.com").
  vm_compute. reflexivity.
Defined.

Lemma tlsCertFromCertAndKeyPEMBundle_returns_witness :
  exists res, PemText.decode Samples.unpairedBundle = Some res.
Proof.
  apply (tlsCertFromCertAndKeyPEMBundle_returns PemText.KeyPair PemText.Decode
           PemText.Encode PemText.X509KeyPair PemText_Decode_consumes).
Defined.

End DecoderSamples.

(** ** [UnmarshalCaddyfile], line by line *)

Lemma Next_here_last (pre : list Token) (t : Token) (n : Z) :
  Next (here pre [t] n) = (false, here pre [t] n).
Proof.
  unfold Next, here, len. cbn [tokens cursor]. rewrite length_app.
  cbn [List.length]. destruct (_ <? _)%Z eqn:E; [|reflexivity].
  apply Z.ltb_lt in E. lia.
Qed.

Lemma NextBlock_here_close (pre : list Token) (t1 t2 : Token) :
  Text t2 = "}" ->
  NextBlock 0 (here pre [t1; t2] 1) = (false, here (pre ++ [t1]) [t2] 0).
Proof.
  intros Hc. unfold NextBlock.
  change (0 <? nesting (here pre [t1; t2] 1))%Z with true. cbv iota.
  rewrite Next_here. cbn [negb]. rewrite Val_here, Hc.
  cbn [String.eqb Ascii.eqb Bool.eqb].
  rewrite here_at, nextOnSameLine_last, <- here_at. cbn [negb]. reflexivity.
Qed.

Lemma optionLines_app
  (line : Z) (opts opts' : list (string * string)) :
  optionLines line (opts ++ opts')
  = (optionLines line opts
     ++ optionLines (line + Z.of_nat (List.length opts)) opts')%list.
Proof.
  revert line; induction opts as [|[name value] opts IH]; intros line.
  - cbn [app optionLines List.length]. now replace (line + Z.of_nat 0)%Z with line by lia.
  - cbn [app optionLines List.length]. rewrite IH.
    replace (line + Z.of_nat (S (List.length opts)))%Z
      with (line + 1 + Z.of_nat (List.length opts))%Z by lia.
    reflexivity.
Qed.

Lemma optionLines_then_head
  (line : Z) (opts : list (string * string)) (t : Token) (tl : list Token) :
  Forall (fun o => settable o = true) opts ->
  Text t <> "}" -> Text t <> "{" ->
  exists t' tl',
    (optionLines line opts ++ t :: tl)%list = t' :: tl'
    /\ Text t' <> "}" /\ Text t' <> "{".
Proof.
  intros H Hc Ho. destruct opts as [|[name value] opts].
  - exists t, tl. auto.
  - inversion H as [|? ? Hs _]; subst.
    apply settable_name_plain in Hs as (Hc' & Ho' & _).
    cbn [optionLines app]. eauto.
Qed.

(** On an option line the switch does what the line says. *)
Lemma Routing_dispatch_assign
  (pre : list Token) (line n : Z) (name value : string) (tl : list Token)
  (l : Routing.Locals) (m : Routing.Middleware) :
  settable (name, value) = true ->
  Routing.dispatch (here pre (tok line name :: tok line value :: tl) n) l m
  = Ok (here (pre ++ [tok line name]) (tok line value :: tl) n,
        fst (routingAssign (l, m) (name, value)),
        snd (routingAssign (l, m) (name, value))).
Proof.
  intros Hs. pose proof (settable_name_plain _ _ Hs) as (_ & _ & Hnl).
  apply settable_name in Hs as (Hname & Hv & _).
  unfold Routing.dispatch, routingAssign.
  rewrite Val_here, NextArg_here_same, Val_here
    by (try apply tok_same_line; assumption).
  cbn [Text tok].
  destruct Hname as [H|[H|[H|[H|[H|[H [v Hv']]]]]]]; subst name;
    cbn [String.eqb Ascii.eqb Bool.eqb negb]; try rewrite Hv'; reflexivity.
Qed.

(** The option lines are taken in one after the other. *)
Lemma routingFromSwitch_options (opts : list (string * string)) :
  forall (pre : list Token) (line : Z) (t : Token) (tl : list Token)
         (l : Routing.Locals) (m : Routing.Middleware) (r : nat),
    Forall (fun o => settable o = true) opts ->
    Text t <> "}" -> Text t <> "{" ->
    routingFromSwitch (List.length opts + r)
      (here pre (optionLines line opts ++ t :: tl) 1) l m
    = routingFromSwitch r
        (here (pre ++ optionLines line opts) (t :: tl) 1)
        (fst (fold_left routingAssign opts (l, m)))
        (snd (fold_left routingAssign opts (l, m))).
Proof.
  induction opts as [|[name value] opts IH];
    intros pre line t tl l m r Hs Hc Ho.
  - cbn [optionLines app List.length Nat.add fold_left fst snd].
    now rewrite app_nil_r.
  - inversion Hs as [|? ? Hs1 Hs']; subst.
    cbn [optionLines app List.length Nat.add fold_left].
    unfold routingFromSwitch at 1.
    rewrite Routing_dispatch_assign by assumption.
    rewrite Routing_blockLoop_S.
    destruct (optionLines_then_head (line + 1) opts t tl Hs' Hc Ho)
      as (t' & tl' & Heq & Hc' & Ho').
    rewrite Heq, NextBlock_here_inside by (assumption || lia).
    cbn [negb]. rewrite <- Heq.
    fold (routingFromSwitch (List.length opts + r)
            (here ((pre ++ [tok line name]) ++ [tok line value])
               (optionLines (line + 1) opts ++ t :: tl) 1)
            (fst (routingAssign (l, m) (name, value)))
            (snd (routingAssign (l, m) (name, value)))).
    rewrite IH by assumption.
    rewrite <- surjective_pairing.
    replace (((pre ++ [tok line name]) ++ [tok line value])
             ++ optionLines (line + 1) opts)%list
      with (pre ++ tok line name :: tok line value
                   :: optionLines (line + 1) opts)%list
      by (now rewrite <- !app_assoc).
    reflexivity.
Qed.

(** From the directive to the first token of the block. *)
Lemma Routing_UnmarshalCaddyfile_enter
  (m : Routing.Middleware) (directive : string) (t : Token) (tl : list Token) :
  countNewlines directive = 0%Z -> Text t <> "}" ->
  let toks := tok 1 directive :: tok 1 "{" :: t :: tl in
  Routing.UnmarshalCaddyfile m (NewDispenser toks)
  = match routingFromSwitch (List.length toks)
            (here [tok 1 directive; tok 1 "{"] (t :: tl) 1)
            routingDefaults m with
    | None => None
    | Some (Err err) => Some (Err err)
    | Some (Ok (d, l, m')) =>
        match Routing.nextLoop (S (List.length toks)) d l m' with
        | None => None
        | Some (Err err) => Some (Err err)
        | Some (Ok (_, l, m')) =>
            Some (Ok (Routing.mkMiddleware (Routing.Prefix m')
                        (Routing.TokenKey m') (Routing.Domain m')
                        (Routing.redisClient m')
                        (redis.mkOptions
                           (strings.Join [Routing.host l; Routing.port l] ":")
                           (Routing.db l))))
        end
    end.
Proof.
  intros Hd Hc toks. unfold Routing.UnmarshalCaddyfile, NewDispenser.
  cbn [tokens]. fold routingDefaults.
  replace (List.length toks + 2) with (S (S (List.length toks))) by lia.
  rewrite Routing_nextLoop_S.
  change (mkDispenser toks (-1) 0)
    with (mkDispenser ([] ++ toks) (Z.of_nat (List.length (@nil Token)) + -1) 0).
  unfold toks at 1. rewrite Next_at by auto.
  change (mkDispenser ([] ++ ?x) (Z.of_nat (List.length (@nil Token)) + (-1 + 1)) 0)
    with (here [] x 0).
  cbn [negb]. rewrite Routing_blockLoop_S.
  rewrite NextBlock_here_open
    by (try apply tok_same_line; try reflexivity; assumption).
  cbn [negb app]. unfold routingFromSwitch.
  destruct (Routing.dispatch _ _ _) as [[[d l] m']|err]; [|reflexivity].
  destruct (Routing.blockLoop _ _ _ _) as [[[[d' l'] m'']|err]|]; reflexivity.
Qed.

(** After the option lines [opts] of a block, the loop is at the switch
    on the next token, with what the lines have set. *)
Lemma Routing_UnmarshalCaddyfile_reaches
  (m : Routing.Middleware) (opts : list (string * string))
  (t : Token) (tl : list Token) :
  Forall (fun o => settable o = true) opts ->
  Text t <> "}" -> Text t <> "{" ->
  let toks := openBlock "routing" opts (t :: tl) in
  let lm := fold_left routingAssign opts (routingDefaults, m) in
  Routing.UnmarshalCaddyfile m (NewDispenser toks)
  = match routingFromSwitch (List.length toks - List.length opts)
            (here ([tok 1 "routing"; tok 1 "{"] ++ optionLines 2 opts)
               (t :: tl) 1)
            (fst lm) (snd lm) with
    | None => None
    | Some (Err err) => Some (Err err)
    | Some (Ok (d, l, m')) =>
        match Routing.nextLoop (S (List.length toks)) d l m' with
        | None => None
        | Some (Err err) => Some (Err err)
        | Some (Ok (_, l, m')) =>
            Some (Ok (Routing.mkMiddleware (Routing.Prefix m')
                        (Routing.TokenKey m') (Routing.Domain m')
                        (Routing.redisClient m')
                        (redis.mkOptions
                           (strings.Join [Routing.host l; Routing.port l] ":")
                           (Routing.db l))))
        end
    end.
Proof.
  intros Hs Hc Ho toks lm. unfold toks, openBlock.
  destruct (optionLines_then_head 2 opts t tl Hs Hc Ho)
    as (t' & tl' & Heq & Hc' & _).
  rewrite Heq, Routing_UnmarshalCaddyfile_enter by (reflexivity || assumption).
  rewrite <- Heq.
  set (n := List.length (tok 1 "routing" :: tok 1 "{"
                           :: (optionLines 2 opts ++ t :: tl)%list)).
  assert (Hn : n = List.length opts + (n - List.length opts)).
  { subst n. cbn [List.length]. rewrite length_app.
    pose proof (length_optionLines 2 opts). lia. }
  rewrite Hn at 1. rewrite routingFromSwitch_options by assumption.
  reflexivity.
Qed.

Lemma Routing_dispatch_unknown
  (d : Dispenser) (l : Routing.Locals) (m : Routing.Middleware) :
  routingOption (Val d) = false ->
  Routing.dispatch d l m = Err ("Unknown field: " ++ Val d).
Proof.
  unfold routingOption, Routing.dispatch. intros H.
  repeat (apply orb_false_iff in H; destruct H as [H ?]).
  now repeat match goal with E : String.eqb _ _ = false |- _ => rewrite E; clear E end.
Qed.

(** X9: a token that is not the name of an option, met where a line of
    the block starts, ends [UnmarshalCaddyfile] with ["Unknown field: "]
    and that token, whatever option lines come before it. *)
Theorem UnmarshalCaddyfile_unknown_field
  (m : Routing.Middleware) (opts : list (string * string))
  (t : Token) (tl : list Token) :
  Forall (fun o => settable o = true) opts ->
  routingOption (Text t) = false ->
  Text t <> "}" -> Text t <> "{" ->
  Routing.UnmarshalCaddyfile m
    (NewDispenser (openBlock "routing" opts (t :: tl)))
  = Some (Err ("Unknown field: " ++ Text t)).
Proof.
  intros Hs Hu Hc Ho.
  rewrite Routing_UnmarshalCaddyfile_reaches by assumption.
  unfold routingFromSwitch.
  rewrite Routing_dispatch_unknown by (now rewrite Val_here).
  now rewrite Val_here.
Qed.

(** X10: a [db] line whose value is not a number ends
    [UnmarshalCaddyfile] with the argument error that names the value. *)
Theorem UnmarshalCaddyfile_db_not_a_number
  (m : Routing.Middleware) (opts : list (string * string))
  (line : Z) (value : string) (tl : list Token) (reason : error) :
  Forall (fun o => settable o = true) opts ->
  strconv.Atoi value = Err reason -> value <> "{" ->
  Routing.UnmarshalCaddyfile m
    (NewDispenser
       (openBlock "routing" opts (tok line "db" :: tok line value :: tl)))
  = Some (Err ("wrong argument count or unexpected line ending after '"
               ++ value ++ "'")).
Proof.
  intros Hs Ha Hv.
  rewrite Routing_UnmarshalCaddyfile_reaches by (assumption || discriminate).
  unfold routingFromSwitch, Routing.dispatch.
  rewrite Val_here, NextArg_here_same, Val_here
    by (try apply tok_same_line; try reflexivity; assumption).
  cbn [Text tok String.eqb Ascii.eqb Bool.eqb]. rewrite Ha.
  unfold ArgErr, Err_. rewrite Val_here. cbn [Text tok].
  apply String.eqb_neq in Hv. now rewrite Hv.
Qed.

Lemma closedBlock_last
  (directive : string) (init : list (string * string)) (name value : string) :
  closedBlock directive (init ++ [(name, value)])
  = openBlock directive init
      [tok (2 + Z.of_nat (List.length init)) name;
       tok (2 + Z.of_nat (List.length init)) value;
       tok (2 + Z.of_nat (List.length (init ++ [(name, value)]))) "}"].
Proof.
  unfold closedBlock, openBlock. rewrite optionLines_app.
  cbn [optionLines]. now rewrite <- app_assoc.
Qed.

(** The last line of a block and its closing brace. *)
Lemma Routing_UnmarshalCaddyfile_last_line
  (m : Routing.Middleware) (init : list (string * string))
  (name value : string) (line close : Z) :
  Forall (fun o => settable o = true) init ->
  settable (name, value) = true ->
  Routing.UnmarshalCaddyfile m
    (NewDispenser
       (openBlock "routing" init
          [tok line name; tok line value; tok close "}"]))
  = Some (Ok (routingConfigured m (init ++ [(name, value)]))).
Proof.
  intros Hinit Hl.
  pose proof (settable_name_plain _ _ Hl) as (Hc & Ho & _).
  rewrite Routing_UnmarshalCaddyfile_reaches by assumption.
  set (toks := openBlock "routing" init _).
  assert (Hn : exists r, List.length toks - List.length init = S r).
  { exists (List.length toks - List.length init - 1).
    subst toks. unfold openBlock. cbn [List.length].
    rewrite length_app. cbn [List.length].
    pose proof (length_optionLines 2 init). lia. }
  destruct Hn as [r ->].
  unfold routingFromSwitch.
  rewrite Routing_dispatch_assign by assumption.
  rewrite Routing_blockLoop_S, NextBlock_here_close by reflexivity.
  cbn [negb]. rewrite Routing_nextLoop_S, Next_here_last. cbn [negb].
  unfold routingConfigured. rewrite fold_left_app. cbn [fold_left].
  destruct (fold_left routingAssign init (routingDefaults, m)) as [l0 m0].
  cbn [fst snd]. destruct (routingAssign (l0, m0) (name, value)) as [l1 m1].
  reflexivity.
Qed.

(** X11: a [routing] block of well-formed option lines, closed by its
    brace, is taken in: each line sets its option, a later line
    overrides an earlier one, and the address and the database of the
    store come from the [host], [port] and [db] lines or their defaults
    [127.0.0.1], [6379] and [0]. *)
Theorem UnmarshalCaddyfile_closed_block
  (m : Routing.Middleware) (opts : list (string * string)) :
  Forall (fun o => settable o = true) opts ->
  Routing.UnmarshalCaddyfile m (NewDispenser (closedBlock "routing" opts))
  = Some (Ok (routingConfigured m opts)).
Proof.
  intros Hs. destruct opts as [|o opts0]; [vm_compute; reflexivity|].
  assert (Hne : o :: opts0 <> []) by discriminate.
  remember (o :: opts0) as opts eqn:Eo. clear Eo o opts0.
  destruct (exists_last Hne) as (init & [name value] & ->).
  apply Forall_app in Hs as [Hinit Hlast].
  inversion Hlast as [|? ? Hl _]; subst.
  rewrite closedBlock_last.
  now apply Routing_UnmarshalCaddyfile_last_line.
Qed.

(** X12: from the Caddyfile to the request: with the lines [prefix P],
    [tokenKey K] and [domain T], the handler is configured, and a request
    for which the store holds a non-empty token under the key [P:host]
    and the field [K] gets the host [T] with its first placeholder
    replaced by that token. *)
Theorem configure_then_ServeHTTP
  (P K T : string) (store : redis.Store) (r : Request)
  (next : Request -> option error) (token pre post : string) :
  Forall (fun o => settable o = true)
    [("prefix", P); ("tokenKey", K); ("domain", T)] ->
  store (P ++ ":" ++ Host r) K = Ok token ->
  token <> EmptyString ->
  firstInstance T Routing.placeholder pre post ->
  exists m,
    Routing.configure
      (NewDispenser
         (closedBlock "routing" [("prefix", P); ("tokenKey", K); ("domain", T)]))
    = Some (Ok m)
    /\ Routing.request (Routing.ServeHTTP store m r next)
       = mkRequest (pre ++ token ++ post) (Method r) (RequestURI r)
    /\ Routing.returned (Routing.ServeHTTP store m r next)
       = next (mkRequest (pre ++ token ++ post) (Method r) (RequestURI r)).
Proof.
  intros Hs Hget Htok Hfirst. eexists. split.
  - unfold Routing.configure, Routing.parseCaddyfile.
    change [("prefix", P); ("tokenKey", K); ("domain", T)]
      with ([("prefix", P); ("tokenKey", K)] ++ [("domain", T)])%list in *.
    apply Forall_app in Hs as [Hinit Hlast].
    inversion Hlast as [|? ? Hl _]; subst.
    rewrite closedBlock_last, Routing_UnmarshalCaddyfile_last_line
      by assumption.
    unfold routingConfigured. cbn. reflexivity.
  - unfold Routing.ServeHTTP. cbn [Routing.Prefix Routing.TokenKey Routing.Domain].
    rewrite Hget. apply String.eqb_neq in Htok. rewrite Htok. cbn [negb].
    rewrite (Replace_first_instance _ _ token pre post placeholder_nonempty
               Hfirst).
    split; reflexivity.
Qed.

(** ** The defaults of the address *)

Lemma Routing_dispatch_locals
  (d : Dispenser) (l : Routing.Locals) (m : Routing.Middleware)
  (d' : Dispenser) (l' : Routing.Locals) (m' : Routing.Middleware) :
  Routing.dispatch d l m = Ok (d', l', m') ->
  (String.eqb (Val d) "host" = false -> Routing.host l' = Routing.host l)
  /\ (String.eqb (Val d) "port" = false -> Routing.port l' = Routing.port l)
  /\ (String.eqb (Val d) "db" = false -> Routing.db l' = Routing.db l).
Proof.
  unfold Routing.dispatch. destruct (NextArg d) as [ok d1].
  intros H. dispatch_cases H; cbn; splits; auto; congruence.
Qed.

Lemma Routing_blockLoop_locals (r : nat) :
  forall (d : Dispenser) (l : Routing.Locals) (m : Routing.Middleware)
         (d' : Dispenser) (l' : Routing.Locals) (m' : Routing.Middleware),
    onToken d ->
    Routing.blockLoop r d l m = Some (Ok (d', l', m')) ->
    tokens d' = tokens d /\ onToken d'
    /\ (~ dispenses d "host" -> Routing.host l' = Routing.host l)
    /\ (~ dispenses d "port" -> Routing.port l' = Routing.port l)
    /\ (~ dispenses d "db" -> Routing.db l' = Routing.db l).
Proof.
  induction r as [|r IH]; intros d l m d' l' m' Hon H; [discriminate|].
  rewrite Routing_blockLoop_S in H.
  destruct (NextBlock_spec d Hon) as (Ht1 & Hon1 & _ & _).
  destruct (NextBlock 0 d) as [more d1]. cbn [fst snd] in *.
  destruct more; cbn [negb] in H.
  2:{ injection H as <- <- <-. splits; auto. }
  destruct (Routing.dispatch d1 l m) as [[[d2 l2] m2]|err] eqn:Ed;
    [|discriminate].
  pose proof (Routing_dispatch_locals _ _ _ _ _ _ Ed) as (Hh2 & Hp2 & Hd2).
  apply Routing_dispatch_spec in Ed as (Ht2 & _ & Ho2 & _).
  specialize (Ho2 Hon1).
  destruct (IH _ _ _ _ _ _ Ho2 H) as (Ht3 & Ho3 & Hh3 & Hp3 & Hd3).
  assert (Hsame : forall text, ~ dispenses d text -> ~ dispenses d2 text)
    by (intros text Hno [t [Hin Htx]]; apply Hno; exists t;
        rewrite <- Ht1, <- Ht2; auto).
  assert (Hval : forall text,
             text <> EmptyString -> ~ dispenses d text ->
             String.eqb (Val d1) text = false).
  { intros text Hne Hno. apply Val_not_dispensed; [assumption|].
    intros [t [Hin Htx]]. apply Hno. exists t. rewrite <- Ht1. auto. }
  splits; try congruence; intros Hno.
  - rewrite (Hh3 (Hsame _ Hno)). apply Hh2, Hval; [discriminate | assumption].
  - rewrite (Hp3 (Hsame _ Hno)). apply Hp2, Hval; [discriminate | assumption].
  - rewrite (Hd3 (Hsame _ Hno)). apply Hd2, Hval; [discriminate | assumption].
Qed.

Lemma Routing_nextLoop_locals (r : nat) :
  forall (d : Dispenser) (l : Routing.Locals) (m : Routing.Middleware)
         (d' : Dispenser) (l' : Routing.Locals) (m' : Routing.Middleware),
    (-1 <= cursor d <= len d - 1)%Z ->
    Routing.nextLoop r d l m = Some (Ok (d', l', m')) ->
    (~ dispenses d "host" -> Routing.host l' = Routing.host l)
    /\ (~ dispenses d "port" -> Routing.port l' = Routing.port l)
    /\ (~ dispenses d "db" -> Routing.db l' = Routing.db l).
Proof.
  induction r as [|r IH]; intros d l m d' l' m' Hc H; [discriminate|].
  rewrite Routing_nextLoop_S in H.
  destruct (Next_spec d) as (Ht1 & _ & Hs1 & _).
  destruct (Next d) as [more d1]. cbn [fst snd] in *.
  destruct more; cbn [negb] in H.
  2:{ injection H as <- <- <-. splits; auto. }
  destruct (Hs1 eq_refl) as [Hc1 Hb1].
  assert (Hon1 : onToken d1).
  { assert (len d1 = len d) by (unfold len; congruence).
    unfold onToken in *. lia. }
  destruct (Routing.blockLoop r d1 l m) as [[[[d2 l2] m2]|err]|] eqn:Eb;
    try discriminate.
  destruct (Routing_blockLoop_locals _ _ _ _ _ _ _ Hon1 Eb)
    as (Ht2 & Ho2 & Hh2 & Hp2 & Hd2).
  assert (Hc2 : (-1 <= cursor d2 <= len d2 - 1)%Z)
    by (unfold onToken in Ho2; lia).
  destruct (IH d2 l2 m2 d' l' m' Hc2 H) as (Hh3 & Hp3 & Hd3).
  assert (Hsame1 : forall text, ~ dispenses d text -> ~ dispenses d1 text)
    by (intros text Hno [t [Hin Htx]]; apply Hno; exists t;
        rewrite <- Ht1; auto).
  assert (Hsame2 : forall text, ~ dispenses d text -> ~ dispenses d2 text)
    by (intros text Hno [t [Hin Htx]]; apply Hno; exists t;
        rewrite <- Ht1, <- Ht2; auto).
  splits; intros Hno.
  - now rewrite (Hh3 (Hsame2 _ Hno)), (Hh2 (Hsame1 _ Hno)).
  - now rewrite (Hp3 (Hsame2 _ Hno)), (Hp2 (Hsame1 _ Hno)).
  - now rewrite (Hd3 (Hsame2 _ Hno)), (Hd2 (Hsame1 _ Hno)).
Qed.

(** X13: whatever the tokens, when [UnmarshalCaddyfile] takes them in,
    the address of the store has the host [127.0.0.1] unless a token
    [host] is among them, the port [6379] unless a token [port] is, and
    the database is [0] unless a token [db] is. *)
Theorem UnmarshalCaddyfile_address_defaults
  (m m' : Routing.Middleware) (toks : list Token) :
  Routing.UnmarshalCaddyfile m (NewDispenser toks) = Some (Ok m') ->
  ((forall t, In t toks -> Text t <> "host") ->
   exists port, redis.Addr (Routing.redisOptions m') = "127.0.0.1:" ++ port)
  /\ ((forall t, In t toks -> Text t <> "port") ->
      exists host, redis.Addr (Routing.redisOptions m') = host ++ ":6379")
  /\ ((forall t, In t toks -> Text t <> "db") ->
      redis.DB (Routing.redisOptions m') = 0%Z).
Proof.
  unfold Routing.UnmarshalCaddyfile. cbn [NewDispenser tokens].
  destruct (Routing.nextLoop _ _ _ _) as [[[[d' l'] m'']|err]|] eqn:En;
    try discriminate.
  intros [= <-]. cbn [Routing.redisOptions redis.Addr redis.DB strings.Join].
  apply Routing_nextLoop_locals in En as (Hh & Hp & Hd).
  2:{ unfold len. cbn [NewDispenser tokens cursor]. lia. }
  cbn [Routing.host Routing.port Routing.db] in *.
  splits; intros Hno.
  - rewrite Hh by (intros [t [Hin Htx]]; exact (Hno t Hin Htx)). now eexists.
  - rewrite Hp by (intros [t [Hin Htx]]; exact (Hno t Hin Htx)). now eexists.
  - apply Hd. intros [t [Hin Htx]]. exact (Hno t Hin Htx).
Qed.

(** ** The errors of [UnmarshalCaddyfile] *)

(** [d.ArgErr()] has two messages; which one depends on the text of the
    token that is loaded, and a quoted opening brace is loaded as an
    argument. *)
Lemma ArgErr_messages (d : Dispenser) :
  (exists value,
      ArgErr d = "wrong argument count or unexpected line ending after '"
                 ++ value ++ "'")
  \/ ArgErr d = "unexpected token '{', expecting argument".
Proof.
  unfold ArgErr, Err_. destruct (String.eqb (Val d) "{").
  - now right.
  - left. now exists (Val d).
Qed.

Lemma NextArg_argument (d : Dispenser) :
  fst (NextArg d) = true ->
  Val (snd (NextArg d)) <> "{" \/ Quoted (Token_ (snd (NextArg d))) = true.
Proof.
  unfold NextArg. destruct (nextOnSameLine d) as [same d1].
  destruct same; cbn [negb fst snd]; [|discriminate].
  destruct (String.eqb (Val d1) "{") eqn:E; cbn [andb].
  - destruct (Quoted (Token_ d1)) eqn:Q; cbn [negb fst snd];
      [now right | discriminate].
  - cbn [fst snd]. intros _. left. now apply String.eqb_neq.
Qed.

Lemma Routing_dispatch_errors
  (d : Dispenser) (l : Routing.Locals) (m : Routing.Middleware) (err : error) :
  Routing.dispatch d l m = Err err ->
  err = "expect domain value"
  \/ (exists value,
         err = "wrong argument count or unexpected line ending after '"
               ++ value ++ "'")
  \/ err = "unexpected token '{', expecting argument"
  \/ exists field, err = "Unknown field: " ++ field.
Proof.
  unfold Routing.dispatch.
  destruct (NextArg d) as [ok d1]. intros H.
  repeat match type of H with
         | context [String.eqb (Val d) ?s] =>
             let E := fresh "E" in destruct (String.eqb (Val d) s) eqn:E
         end;
    try (destruct ok; try discriminate H);
    try (destruct (strconv.Atoi (Val d1)); try discriminate H);
    try discriminate H; injection H as <-.
  all: first
         [ now left
         | destruct (ArgErr_messages d1) as [[value ->] | ->];
           [ right; left; now exists value | right; right; now left ]
         | right; right; right; now exists (Val d) ].
Qed.

Lemma Routing_blockLoop_errors (r : nat) :
  forall (d : Dispenser) (l : Routing.Locals) (m : Routing.Middleware)
         (err : error),
    Routing.blockLoop r d l m = Some (Err err) ->
    err = "expect domain value"
    \/ (exists value,
           err = "wrong argument count or unexpected line ending after '"
                 ++ value ++ "'")
    \/ err = "unexpected token '{', expecting argument"
    \/ exists field, err = "Unknown field: " ++ field.
Proof.
  induction r as [|r IH]; intros d l m err H; [discriminate|].
  rewrite Routing_blockLoop_S in H.
  destruct (NextBlock 0 d) as [more d1].
  destruct more; cbn [negb] in H; [|discriminate].
  destruct (Routing.dispatch d1 l m) as [[[d2 l2] m2]|e] eqn:Ed.
  - exact (IH _ _ _ _ H).
  - injection H as <-. exact (Routing_dispatch_errors _ _ _ _ Ed).
Qed.

(** X14: whatever the tokens, quoted or not, [UnmarshalCaddyfile] fails
    with one of four messages only: the missing value of [domain], one
    of the two messages of [d.ArgErr()] for a [db] that is not a number
    (the one that names the value, or the unexpected opening brace when
    the value is a quoted brace), or the unknown field. *)
Theorem UnmarshalCaddyfile_error_messages
  (m : Routing.Middleware) (d : Dispenser) (err : error) :
  Routing.UnmarshalCaddyfile m d = Some (Err err) ->
  err = "expect domain value"
  \/ (exists value,
         err = "wrong argument count or unexpected line ending after '"
               ++ value ++ "'")
  \/ err = "unexpected token '{', expecting argument"
  \/ exists field, err = "Unknown field: " ++ field.
Proof.
  unfold Routing.UnmarshalCaddyfile.
  generalize (List.length (tokens d) + 2)
             (Routing.mkLocals "127.0.0.1" "6379" 0 "s" "token").
  intros r l H.
  assert (Hloop : forall r d l m,
             Routing.nextLoop r d l m = Some (Err err) ->
             err = "expect domain value"
             \/ (exists value,
                    err = "wrong argument count or unexpected line ending after '"
                          ++ value ++ "'")
             \/ err = "unexpected token '{', expecting argument"
             \/ exists field, err = "Unknown field: " ++ field).
  { clear. induction r as [|r IH]; intros d l m H; [discriminate|].
    rewrite Routing_nextLoop_S in H.
    destruct (Next d) as [more d1].
    destruct more; cbn [negb] in H; [|discriminate].
    destruct (Routing.blockLoop r d1 l m) as [[[[d2 l2] m2]|e]|] eqn:Eb;
      try discriminate.
    - exact (IH _ _ _ H).
    - injection H as <-. exact (Routing_blockLoop_errors _ _ _ _ _ Eb). }
  destruct (Routing.nextLoop r d l m) as [[[[d' l'] m']|e]|] eqn:En;
    try discriminate.
  injection H as <-. exact (Hloop _ _ _ _ En).
Qed.

(** ** [UnmarshalCaddyfile] on sample blocks *)

Lemma UnmarshalCaddyfile_unknown_field_witness :
  Routing.UnmarshalCaddyfile Routing.zero
    (NewDispenser
       [tok 1 "routing"; tok 1 "{";
        tok 2 "prefix"; tok 2 "site";
        tok 3 "certKey"; tok 3 "cert";
        tok 4 "}"])
  = Some (Err "Unknown field: certKey").
Proof.
  apply (UnmarshalCaddyfile_unknown_field Routing.zero [("prefix", "site")]
           (tok 3 "certKey") [tok 3 "cert"; tok 4 "}"]).
  - repeat constructor.
  - reflexivity.
  - discriminate.
  - discriminate.
Defined.

Lemma UnmarshalCaddyfile_db_not_a_number_witness :
  Routing.UnmarshalCaddyfile Routing.zero
    (NewDispenser
       [tok 1 "routing"; tok 1 "{";
        tok 2 "host"; tok 2 "10.0.0.1";
        tok 3 "db"; tok 3 "one";
        tok 4 "}"])
  = Some (Err "wrong argument count or unexpected line ending after 'one'").
Proof.
  apply (UnmarshalCaddyfile_db_not_a_number Routing.zero [("host", "10.0.0.1")]
           3 "one" [tok 4 "}"] "invalid syntax").
  - repeat constructor.
  - reflexivity.
  - discriminate.
Defined.

Lemma UnmarshalCaddyfile_closed_block_witness :
  Routing.UnmarshalCaddyfile Routing.zero
    (NewDispenser
       [tok 1 "routing"; tok 1 "{";
        tok 2 "domain"; tok 2 "{{token}}.old.com";
        tok 3 "port"; tok 3 "6380";
        tok 4 "db"; tok 4 "3";
        tok 5 "domain"; tok 5 "{{token}}.test.com";
        tok 6 "}"])
  = Some (Ok (Routing.mkMiddleware EmptyString EmptyString "{{token}}.test.com"
                None (redis.mkOptions "127.0.0.1:6380" 3))).
Proof.
  apply (UnmarshalCaddyfile_closed_block Routing.zero
           [("domain", "{{token}}.old.com"); ("port", "6380"); ("db", "3");
            ("domain", "{{token}}.test.com")]).
  repeat constructor.
Defined.

Lemma configure_then_ServeHTTP_witness :
  let store := Samples.oneRecord "site:www.self-domain.com" "token" "abc" in
  let r := mkRequest "www.self-domain.com" "GET" "/" in
  exists m,
    Routing.configure
      (NewDispenser
         (closedBlock "routing"
            [("prefix", "site"); ("tokenKey", "token");
             ("domain", "{{token}}.test.com")]))
    = Some (Ok m)
    /\ Routing.request (Routing.ServeHTTP store m r (fun _ => None))
       = mkRequest "abc.test.com" "GET" "/"
    /\ Routing.returned (Routing.ServeHTTP store m r (fun _ => None)) = None.
Proof.
  intros store r.
  apply (configure_then_ServeHTTP "site" "token" "{{token}}.test.com" store r
           (fun _ => None) "abc" EmptyString ".test.com").
  - repeat constructor.
  - reflexivity.
  - discriminate.
  - split; [reflexivity|]. intros pre' post' _. apply Nat.le_0_l.
Defined.

Lemma UnmarshalCaddyfile_address_defaults_witness :
  let m' := Routing.mkMiddleware EmptyString EmptyString EmptyString None
              (redis.mkOptions "10.0.0.1:6379" 0) in
  ((forall t, In t (tokens Samples.routingHostOnly) -> Text t <> "host") ->
   exists port, redis.Addr (Routing.redisOptions m') = "127.0.0.1:" ++ port)
  /\ ((forall t, In t (tokens Samples.routingHostOnly) -> Text t <> "port") ->
      exists host, redis.Addr (Routing.redisOptions m') = host ++ ":6379")
  /\ ((forall t, In t (tokens Samples.routingHostOnly) -> Text t <> "db") ->
      redis.DB (Routing.redisOptions m') = 0%Z).
Proof.
  intros m'.
  apply (UnmarshalCaddyfile_address_defaults Routing.zero m'
           (tokens Samples.routingHostOnly)).
  vm_compute. reflexivity.
Defined.

Lemma UnmarshalCaddyfile_error_messages_witness :
  let err := "unexpected token '{', expecting argument" in
  err = "expect domain value"
  \/ (exists value,
         err = "wrong argument count or unexpected line ending after '"
               ++ value ++ "'")
  \/ err = "unexpected token '{', expecting argument"
  \/ exists field, err = "Unknown field: " ++ field.
Proof.
  apply (UnmarshalCaddyfile_error_messages Routing.zero
           (NewDispenser
              [tok 1 "routing"; tok 1 "{"; tok 2 "db"; quoted 2 "{";
               tok 3 "}"])).
  vm_compute. reflexivity.
Defined.

(** ** The certificate getter, line by line *)

Lemma settableCert_name (name value : string) :
  settableCert (name, value) = true ->
  (name = "host" \/ name = "port" \/ name = "prefix" \/ name = "certKey"
   \/ (name = "db" /\ exists v, strconv.Atoi value = Ok v))
  /\ value <> "{" /\ countNewlines value = 0%Z.
Proof.
  unfold settableCert. rewrite !andb_true_iff, !orb_true_iff, !String.eqb_eq.
  rewrite negb_true_iff, String.eqb_neq, Z.eqb_eq, andb_true_iff, String.eqb_eq.
  intros [[H Hv] Hn]. repeat split; try assumption.
  destruct H as [[[[H|H]|H]|H]|[H Ha]]; auto 10.
  do 4 right. split; [assumption|].
  destruct (strconv.Atoi value) as [v|]; [eauto | discriminate].
Qed.

Lemma settableCert_name_plain (name value : string) :
  settableCert (name, value) = true ->
  name <> "}" /\ name <> "{" /\ countNewlines name = 0%Z.
Proof.
  intros H. apply settableCert_name in H as [H _].
  destruct H as [H|[H|[H|[H|[H _]]]]]; subst name;
    repeat split; discriminate.
Qed.

Lemma optionLines_then_head_cert
  (line : Z) (opts : list (string * string)) (t : Token) (tl : list Token) :
  Forall (fun o => settableCert o = true) opts ->
  Text t <> "}" -> Text t <> "{" ->
  exists t' tl',
    (optionLines line opts ++ t :: tl)%list = t' :: tl'
    /\ Text t' <> "}" /\ Text t' <> "{".
Proof.
  intros H Hc Ho. destruct opts as [|[name value] opts].
  - exists t, tl. auto.
  - inversion H as [|? ? Hs _]; subst.
    apply settableCert_name_plain in Hs as (Hc' & Ho' & _).
    cbn [optionLines app]. eauto.
Qed.

(** The same for the certificate getter: on an option line the switch
    does what the line says. *)
Lemma TlsRedis_dispatch_assign
  (pre : list Token) (line n : Z) (name value : string) (tl : list Token)
  (l : TlsRedis.Locals) (m : TlsRedis.RedisCertGetter) :
  settableCert (name, value) = true ->
  TlsRedis.dispatch (here pre (tok line name :: tok line value :: tl) n) l m
  = Ok (here (pre ++ [tok line name]) (tok line value :: tl) n,
        fst (certAssign (l, m) (name, value)),
        snd (certAssign (l, m) (name, value))).
Proof.
  intros Hs. pose proof (settableCert_name_plain _ _ Hs) as (_ & _ & Hnl).
  apply settableCert_name in Hs as (Hname & Hv & _).
  unfold TlsRedis.dispatch, certAssign.
  rewrite Val_here, NextArg_here_same, Val_here
    by (try apply tok_same_line; assumption).
  cbn [Text tok].
  destruct Hname as [H|[H|[H|[H|[H [v Hv']]]]]]; subst name;
    cbn [String.eqb Ascii.eqb Bool.eqb negb]; try rewrite Hv'; reflexivity.
Qed.

(** The option lines are taken in one after the other. *)
Lemma certFromSwitch_options (opts : list (string * string)) :
  forall (pre : list Token) (line : Z) (t : Token) (tl : list Token)
         (l : TlsRedis.Locals) (m : TlsRedis.RedisCertGetter) (r : nat),
    Forall (fun o => settableCert o = true) opts ->
    Text t <> "}" -> Text t <> "{" ->
    certFromSwitch (List.length opts + r)
      (here pre (optionLines line opts ++ t :: tl) 1) l m
    = certFromSwitch r
        (here (pre ++ optionLines line opts) (t :: tl) 1)
        (fst (fold_left certAssign opts (l, m)))
        (snd (fold_left certAssign opts (l, m))).
Proof.
  induction opts as [|[name value] opts IH];
    intros pre line t tl l m r Hs Hc Ho.
  - cbn [optionLines app List.length Nat.add fold_left fst snd].
    now rewrite app_nil_r.
  - inversion Hs as [|? ? Hs1 Hs']; subst.
    cbn [optionLines app List.length Nat.add fold_left].
    unfold certFromSwitch at 1.
    rewrite TlsRedis_dispatch_assign by assumption.
    rewrite TlsRedis_blockLoop_S.
    destruct (optionLines_then_head_cert (line + 1) opts t tl Hs' Hc Ho)
      as (t' & tl' & Heq & Hc' & Ho').
    rewrite Heq, NextBlock_here_inside by (assumption || lia).
    cbn [negb]. rewrite <- Heq.
    fold (certFromSwitch (List.length opts + r)
            (here ((pre ++ [tok line name]) ++ [tok line value])
               (optionLines (line + 1) opts ++ t :: tl) 1)
            (fst (certAssign (l, m) (name, value)))
            (snd (certAssign (l, m) (name, value)))).
    rewrite IH by assumption.
    rewrite <- surjective_pairing.
    replace (((pre ++ [tok line name]) ++ [tok line value])
             ++ optionLines (line + 1) opts)%list
      with (pre ++ tok line name :: tok line value
                   :: optionLines (line + 1) opts)%list
      by (now rewrite <- !app_assoc).
    reflexivity.
Qed.

(** From the directive to the first token of the block. *)
Lemma TlsRedis_UnmarshalCaddyfile_enter
  (m : TlsRedis.RedisCertGetter) (directive : string) (t : Token) (tl : list Token) :
  countNewlines directive = 0%Z -> Text t <> "}" ->
  let toks := tok 1 directive :: tok 1 "{" :: t :: tl in
  TlsRedis.UnmarshalCaddyfile m (NewDispenser toks)
  = match certFromSwitch (List.length toks)
            (here [tok 1 directive; tok 1 "{"] (t :: tl) 1)
            certDefaults m with
    | None => None
    | Some (Err err) => Some (Err err)
    | Some (Ok (d, l, m')) =>
        match TlsRedis.nextLoop (S (List.length toks)) d l m' with
        | None => None
        | Some (Err err) => Some (Err err)
        | Some (Ok (_, l, m')) =>
            Some (Ok (TlsRedis.mkRedisCertGetter (TlsRedis.Prefix m')
                        (TlsRedis.CertKey m') (TlsRedis.redisClient m')
                        (redis.mkOptions
                           (strings.Join [TlsRedis.host l; TlsRedis.port l] ":")
                           (TlsRedis.db l))))
        end
    end.
Proof.
  intros Hd Hc toks. unfold TlsRedis.UnmarshalCaddyfile, NewDispenser.
  cbn [tokens]. fold certDefaults.
  replace (List.length toks + 2) with (S (S (List.length toks))) by lia.
  rewrite TlsRedis_nextLoop_S.
  change (mkDispenser toks (-1) 0)
    with (mkDispenser ([] ++ toks) (Z.of_nat (List.length (@nil Token)) + -1) 0).
  unfold toks at 1. rewrite Next_at by auto.
  change (mkDispenser ([] ++ ?x) (Z.of_nat (List.length (@nil Token)) + (-1 + 1)) 0)
    with (here [] x 0).
  cbn [negb]. rewrite TlsRedis_blockLoop_S.
  rewrite NextBlock_here_open
    by (try apply tok_same_line; try reflexivity; assumption).
  cbn [negb app]. unfold certFromSwitch.
  destruct (TlsRedis.dispatch _ _ _) as [[[d l] m']|err]; [|reflexivity].
  destruct (TlsRedis.blockLoop _ _ _ _) as [[[[d' l'] m'']|err]|]; reflexivity.
Qed.

(** After the option lines [opts] of a block, the loop is at the switch
    on the next token, with what the lines have set. *)
Lemma TlsRedis_UnmarshalCaddyfile_reaches
  (m : TlsRedis.RedisCertGetter) (opts : list (string * string))
  (t : Token) (tl : list Token) :
  Forall (fun o => settableCert o = true) opts ->
  Text t <> "}" -> Text t <> "{" ->
  let toks := openBlock "redis" opts (t :: tl) in
  let lm := fold_left certAssign opts (certDefaults, m) in
  TlsRedis.UnmarshalCaddyfile m (NewDispenser toks)
  = match certFromSwitch (List.length toks - List.length opts)
            (here ([tok 1 "redis"; tok 1 "{"] ++ optionLines 2 opts)
               (t :: tl) 1)
            (fst lm) (snd lm) with
    | None => None
    | Some (Err err) => Some (Err err)
    | Some (Ok (d, l, m')) =>
        match TlsRedis.nextLoop (S (List.length toks)) d l m' with
        | None => None
        | Some (Err err) => Some (Err err)
        | Some (Ok (_, l, m')) =>
            Some (Ok (TlsRedis.mkRedisCertGetter (TlsRedis.Prefix m')
                        (TlsRedis.CertKey m') (TlsRedis.redisClient m')
                        (redis.mkOptions
                           (strings.Join [TlsRedis.host l; TlsRedis.port l] ":")
                           (TlsRedis.db l))))
        end
    end.
Proof.
  intros Hs Hc Ho toks lm. unfold toks, openBlock.
  destruct (optionLines_then_head_cert 2 opts t tl Hs Hc Ho)
    as (t' & tl' & Heq & Hc' & _).
  rewrite Heq, TlsRedis_UnmarshalCaddyfile_enter by (reflexivity || assumption).
  rewrite <- Heq.
  set (n := List.length (tok 1 "redis" :: tok 1 "{"
                           :: (optionLines 2 opts ++ t :: tl)%list)).
  assert (Hn : n = List.length opts + (n - List.length opts)).
  { subst n. cbn [List.length]. rewrite length_app.
    pose proof (length_optionLines 2 opts). lia. }
  rewrite Hn at 1. rewrite certFromSwitch_options by assumption.
  reflexivity.
Qed.

Lemma TlsRedis_dispatch_unknown
  (d : Dispenser) (l : TlsRedis.Locals) (m : TlsRedis.RedisCertGetter) :
  certOption (Val d) = false ->
  TlsRedis.dispatch d l m = Err ("Unknown field: " ++ Val d).
Proof.
  unfold certOption, TlsRedis.dispatch. intros H.
  repeat (apply orb_false_iff in H; destruct H as [H ?]).
  now repeat match goal with E : String.eqb _ _ = false |- _ => rewrite E; clear E end.
Qed.

(** X16: in a [redis] block of the certificate getter, a token that is
    not the name of one of its options ([domain] and [tokenKey] are
    not), met where a line starts, ends [UnmarshalCaddyfile] with
    ["Unknown field: "] and that token. *)
Theorem RedisCertGetter_unknown_field
  (m : TlsRedis.RedisCertGetter) (opts : list (string * string))
  (t : Token) (tl : list Token) :
  Forall (fun o => settableCert o = true) opts ->
  certOption (Text t) = false ->
  Text t <> "}" -> Text t <> "{" ->
  TlsRedis.UnmarshalCaddyfile m
    (NewDispenser (openBlock "redis" opts (t :: tl)))
  = Some (Err ("Unknown field: " ++ Text t)).
Proof.
  intros Hs Hu Hc Ho.
  rewrite TlsRedis_UnmarshalCaddyfile_reaches by assumption.
  unfold certFromSwitch.
  rewrite TlsRedis_dispatch_unknown by (now rewrite Val_here).
  now rewrite Val_here.
Qed.

(** X17: in a [redis] block of the certificate getter, a [db] line
    whose value is not a number ends [UnmarshalCaddyfile] with the
    argument error that names the value. *)
Theorem RedisCertGetter_db_not_a_number
  (m : TlsRedis.RedisCertGetter) (opts : list (string * string))
  (line : Z) (value : string) (tl : list Token) (reason : error) :
  Forall (fun o => settableCert o = true) opts ->
  strconv.Atoi value = Err reason -> value <> "{" ->
  TlsRedis.UnmarshalCaddyfile m
    (NewDispenser
       (openBlock "redis" opts (tok line "db" :: tok line value :: tl)))
  = Some (Err ("wrong argument count or unexpected line ending after '"
               ++ value ++ "'")).
Proof.
  intros Hs Ha Hv.
  rewrite TlsRedis_UnmarshalCaddyfile_reaches by (assumption || discriminate).
  unfold certFromSwitch, TlsRedis.dispatch.
  rewrite Val_here, NextArg_here_same, Val_here
    by (try apply tok_same_line; try reflexivity; assumption).
  cbn [Text tok String.eqb Ascii.eqb Bool.eqb]. rewrite Ha.
  unfold ArgErr, Err_. rewrite Val_here. cbn [Text tok].
  apply String.eqb_neq in Hv. now rewrite Hv.
Qed.

(** The last line of a block and its closing brace. *)
Lemma TlsRedis_UnmarshalCaddyfile_last_line
  (m : TlsRedis.RedisCertGetter) (init : list (string * string))
  (name value : string) (line close : Z) :
  Forall (fun o => settableCert o = true) init ->
  settableCert (name, value) = true ->
  TlsRedis.UnmarshalCaddyfile m
    (NewDispenser
       (openBlock "redis" init
          [tok line name; tok line value; tok close "}"]))
  = Some (Ok (certConfigured m (init ++ [(name, value)]))).
Proof.
  intros Hinit Hl.
  pose proof (settableCert_name_plain _ _ Hl) as (Hc & Ho & _).
  rewrite TlsRedis_UnmarshalCaddyfile_reaches by assumption.
  set (toks := openBlock "redis" init _).
  assert (Hn : exists r, List.length toks - List.length init = S r).
  { exists (List.length toks - List.length init - 1).
    subst toks. unfold openBlock. cbn [List.length].
    rewrite length_app. cbn [List.length].
    pose proof (length_optionLines 2 init). lia. }
  destruct Hn as [r ->].
  unfold certFromSwitch.
  rewrite TlsRedis_dispatch_assign by assumption.
  rewrite TlsRedis_blockLoop_S, NextBlock_here_close by reflexivity.
  cbn [negb]. rewrite TlsRedis_nextLoop_S, Next_here_last. cbn [negb].
  unfold certConfigured. rewrite fold_left_app. cbn [fold_left].
  destruct (fold_left certAssign init (certDefaults, m)) as [l0 m0].
  cbn [fst snd]. destruct (certAssign (l0, m0) (name, value)) as [l1 m1].
  reflexivity.
Qed.

(** X18: a [redis] block of the certificate getter, made of
    well-formed option lines and closed by its
    brace, is taken in: each line sets its option, a later line
    overrides an earlier one, and the address and the database of the
    store come from the [host], [port] and [db] lines or their defaults
    [127.0.0.1], [6379] and [0]. *)
Theorem RedisCertGetter_closed_block
  (m : TlsRedis.RedisCertGetter) (opts : list (string * string)) :
  Forall (fun o => settableCert o = true) opts ->
  TlsRedis.UnmarshalCaddyfile m (NewDispenser (closedBlock "redis" opts))
  = Some (Ok (certConfigured m opts)).
Proof.
  intros Hs. destruct opts as [|o opts0]; [vm_compute; reflexivity|].
  assert (Hne : o :: opts0 <> []) by discriminate.
  remember (o :: opts0) as opts eqn:Eo. clear Eo o opts0.
  destruct (exists_last Hne) as (init & [name value] & ->).
  apply Forall_app in Hs as [Hinit Hlast].
  inversion Hlast as [|? ? Hl _]; subst.
  rewrite closedBlock_last.
  now apply TlsRedis_UnmarshalCaddyfile_last_line.
Qed.

(** ** The defaults of the address *)

Lemma TlsRedis_dispatch_locals
  (d : Dispenser) (l : TlsRedis.Locals) (m : TlsRedis.RedisCertGetter)
  (d' : Dispenser) (l' : TlsRedis.Locals) (m' : TlsRedis.RedisCertGetter) :
  TlsRedis.dispatch d l m = Ok (d', l', m') ->
  (String.eqb (Val d) "host" = false -> TlsRedis.host l' = TlsRedis.host l)
  /\ (String.eqb (Val d) "port" = false -> TlsRedis.port l' = TlsRedis.port l)
  /\ (String.eqb (Val d) "db" = false -> TlsRedis.db l' = TlsRedis.db l).
Proof.
  unfold TlsRedis.dispatch. destruct (NextArg d) as [ok d1].
  intros H. dispatch_cases H; cbn; splits; auto; congruence.
Qed.

Lemma TlsRedis_blockLoop_locals (r : nat) :
  forall (d : Dispenser) (l : TlsRedis.Locals) (m : TlsRedis.RedisCertGetter)
         (d' : Dispenser) (l' : TlsRedis.Locals) (m' : TlsRedis.RedisCertGetter),
    onToken d ->
    TlsRedis.blockLoop r d l m = Some (Ok (d', l', m')) ->
    tokens d' = tokens d /\ onToken d'
    /\ (~ dispenses d "host" -> TlsRedis.host l' = TlsRedis.host l)
    /\ (~ dispenses d "port" -> TlsRedis.port l' = TlsRedis.port l)
    /\ (~ dispenses d "db" -> TlsRedis.db l' = TlsRedis.db l).
Proof.
  induction r as [|r IH]; intros d l m d' l' m' Hon H; [discriminate|].
  rewrite TlsRedis_blockLoop_S in H.
  destruct (NextBlock_spec d Hon) as (Ht1 & Hon1 & _ & _).
  destruct (NextBlock 0 d) as [more d1]. cbn [fst snd] in *.
  destruct more; cbn [negb] in H.
  2:{ injection H as <- <- <-. splits; auto. }
  destruct (TlsRedis.dispatch d1 l m) as [[[d2 l2] m2]|err] eqn:Ed;
    [|discriminate].
  pose proof (TlsRedis_dispatch_locals _ _ _ _ _ _ Ed) as (Hh2 & Hp2 & Hd2).
  apply TlsRedis_dispatch_spec in Ed as (Ht2 & _ & Ho2 & _).
  specialize (Ho2 Hon1).
  destruct (IH _ _ _ _ _ _ Ho2 H) as (Ht3 & Ho3 & Hh3 & Hp3 & Hd3).
  assert (Hsame : forall text, ~ dispenses d text -> ~ dispenses d2 text)
    by (intros text Hno [t [Hin Htx]]; apply Hno; exists t;
        rewrite <- Ht1, <- Ht2; auto).
  assert (Hval : forall text,
             text <> EmptyString -> ~ dispenses d text ->
             String.eqb (Val d1) text = false).
  { intros text Hne Hno. apply Val_not_dispensed; [assumption|].
    intros [t [Hin Htx]]. apply Hno. exists t. rewrite <- Ht1. auto. }
  splits; try congruence; intros Hno.
  - rewrite (Hh3 (Hsame _ Hno)). apply Hh2, Hval; [discriminate | assumption].
  - rewrite (Hp3 (Hsame _ Hno)). apply Hp2, Hval; [discriminate | assumption].
  - rewrite (Hd3 (Hsame _ Hno)). apply Hd2, Hval; [discriminate | assumption].
Qed.

Lemma TlsRedis_nextLoop_locals (r : nat) :
  forall (d : Dispenser) (l : TlsRedis.Locals) (m : TlsRedis.RedisCertGetter)
         (d' : Dispenser) (l' : TlsRedis.Locals) (m' : TlsRedis.RedisCertGetter),
    (-1 <= cursor d <= len d - 1)%Z ->
    TlsRedis.nextLoop r d l m = Some (Ok (d', l', m')) ->
    (~ dispenses d "host" -> TlsRedis.host l' = TlsRedis.host l)
    /\ (~ dispenses d "port" -> TlsRedis.port l' = TlsRedis.port l)
    /\ (~ dispenses d "db" -> TlsRedis.db l' = TlsRedis.db l).
Proof.
  induction r as [|r IH]; intros d l m d' l' m' Hc H; [discriminate|].
  rewrite TlsRedis_nextLoop_S in H.
  destruct (Next_spec d) as (Ht1 & _ & Hs1 & _).
  destruct (Next d) as [more d1]. cbn [fst snd] in *.
  destruct more; cbn [negb] in H.
  2:{ injection H as <- <- <-. splits; auto. }
  destruct (Hs1 eq_refl) as [Hc1 Hb1].
  assert (Hon1 : onToken d1).
  { assert (len d1 = len d) by (unfold len; congruence).
    unfold onToken in *. lia. }
  destruct (TlsRedis.blockLoop r d1 l m) as [[[[d2 l2] m2]|err]|] eqn:Eb;
    try discriminate.
  destruct (TlsRedis_blockLoop_locals _ _ _ _ _ _ _ Hon1 Eb)
    as (Ht2 & Ho2 & Hh2 & Hp2 & Hd2).
  assert (Hc2 : (-1 <= cursor d2 <= len d2 - 1)%Z)
    by (unfold onToken in Ho2; lia).
  destruct (IH d2 l2 m2 d' l' m' Hc2 H) as (Hh3 & Hp3 & Hd3).
  assert (Hsame1 : forall text, ~ dispenses d text -> ~ dispenses d1 text)
    by (intros text Hno [t [Hin Htx]]; apply Hno; exists t;
        rewrite <- Ht1; auto).
  assert (Hsame2 : forall text, ~ dispenses d text -> ~ dispenses d2 text)
    by (intros text Hno [t [Hin Htx]]; apply Hno; exists t;
        rewrite <- Ht1, <- Ht2; auto).
  splits; intros Hno.
  - now rewrite (Hh3 (Hsame2 _ Hno)), (Hh2 (Hsame1 _ Hno)).
  - now rewrite (Hp3 (Hsame2 _ Hno)), (Hp2 (Hsame1 _ Hno)).
  - now rewrite (Hd3 (Hsame2 _ Hno)), (Hd2 (Hsame1 _ Hno)).
Qed.

(** X19: whatever the tokens, when the [UnmarshalCaddyfile] of the
    certificate getter takes them in,
    the address of the store has the host [127.0.0.1] unless a token
    [host] is among them, the port [6379] unless a token [port] is, and
    the database is [0] unless a token [db] is. *)
Theorem RedisCertGetter_address_defaults
  (m m' : TlsRedis.RedisCertGetter) (toks : list Token) :
  TlsRedis.UnmarshalCaddyfile m (NewDispenser toks) = Some (Ok m') ->
  ((forall t, In t toks -> Text t <> "host") ->
   exists port, redis.Addr (TlsRedis.redisOptions m') = "127.0.0.1:" ++ port)
  /\ ((forall t, In t toks -> Text t <> "port") ->
      exists host, redis.Addr (TlsRedis.redisOptions m') = host ++ ":6379")
  /\ ((forall t, In t toks -> Text t <> "db") ->
      redis.DB (TlsRedis.redisOptions m') = 0%Z).
Proof.
  unfold TlsRedis.UnmarshalCaddyfile. cbn [NewDispenser tokens].
  destruct (TlsRedis.nextLoop _ _ _ _) as [[[[d' l'] m'']|err]|] eqn:En;
    try discriminate.
  intros [= <-]. cbn [TlsRedis.redisOptions redis.Addr redis.DB strings.Join].
  apply TlsRedis_nextLoop_locals in En as (Hh & Hp & Hd).
  2:{ unfold len. cbn [NewDispenser tokens cursor]. lia. }
  cbn [TlsRedis.host TlsRedis.port TlsRedis.db] in *.
  splits; intros Hno.
  - rewrite Hh by (intros [t [Hin Htx]]; exact (Hno t Hin Htx)). now eexists.
  - rewrite Hp by (intros [t [Hin Htx]]; exact (Hno t Hin Htx)). now eexists.
  - apply Hd. intros [t [Hin Htx]]. exact (Hno t Hin Htx).
Qed.


Lemma TlsRedis_dispatch_errors
  (d : Dispenser) (l : TlsRedis.Locals) (m : TlsRedis.RedisCertGetter)
  (err : error) :
  TlsRedis.dispatch d l m = Err err ->
  (exists value,
      err = "wrong argument count or unexpected line ending after '"
            ++ value ++ "'")
  \/ err = "unexpected token '{', expecting argument"
  \/ exists field, err = "Unknown field: " ++ field.
Proof.
  unfold TlsRedis.dispatch.
  destruct (NextArg d) as [ok d1]. intros H.
  repeat match type of H with
         | context [String.eqb (Val d) ?s] =>
             let E := fresh "E" in destruct (String.eqb (Val d) s) eqn:E
         end;
    try (destruct ok; try discriminate H);
    try (destruct (strconv.Atoi (Val d1)); try discriminate H);
    try discriminate H; injection H as <-.
  all: first
         [ destruct (ArgErr_messages d1) as [[value ->] | ->];
           [ left; now exists value | right; now left ]
         | right; right; now exists (Val d) ].
Qed.

Lemma TlsRedis_blockLoop_errors (r : nat) :
  forall (d : Dispenser) (l : TlsRedis.Locals) (m : TlsRedis.RedisCertGetter)
         (err : error),
    TlsRedis.blockLoop r d l m = Some (Err err) ->
    (exists value,
        err = "wrong argument count or unexpected line ending after '"
              ++ value ++ "'")
    \/ err = "unexpected token '{', expecting argument"
    \/ exists field, err = "Unknown field: " ++ field.
Proof.
  induction r as [|r IH]; intros d l m err H; [discriminate|].
  rewrite TlsRedis_blockLoop_S in H.
  destruct (NextBlock 0 d) as [more d1].
  destruct more; cbn [negb] in H; [|discriminate].
  destruct (TlsRedis.dispatch d1 l m) as [[[d2 l2] m2]|e] eqn:Ed.
  - exact (IH _ _ _ _ H).
  - injection H as <-. exact (TlsRedis_dispatch_errors _ _ _ _ Ed).
Qed.

(** X20: whatever the tokens, quoted or not, the [UnmarshalCaddyfile] of
    the certificate getter fails with one of three messages only: one of
    the two messages of [d.ArgErr()] for a [db] that is not a number (the
    one that names the value, or the unexpected opening brace when the
    value is a quoted brace), or the unknown field. *)
Theorem RedisCertGetter_error_messages
  (rcg : TlsRedis.RedisCertGetter) (d : Dispenser) (err : error) :
  TlsRedis.UnmarshalCaddyfile rcg d = Some (Err err) ->
  (exists value,
      err = "wrong argument count or unexpected line ending after '"
            ++ value ++ "'")
  \/ err = "unexpected token '{', expecting argument"
  \/ exists field, err = "Unknown field: " ++ field.
Proof.
  unfold TlsRedis.UnmarshalCaddyfile.
  generalize (List.length (tokens d) + 2)
             (TlsRedis.mkLocals "127.0.0.1" "6379" 0 "s" "cert").
  intros r l H.
  assert (Hloop : forall r d l m,
             TlsRedis.nextLoop r d l m = Some (Err err) ->
             (exists value,
                 err = "wrong argument count or unexpected line ending after '"
                       ++ value ++ "'")
             \/ err = "unexpected token '{', expecting argument"
             \/ exists field, err = "Unknown field: " ++ field).
  { clear. induction r as [|r IH]; intros d l m H; [discriminate|].
    rewrite TlsRedis_nextLoop_S in H.
    destruct (Next d) as [more d1].
    destruct more; cbn [negb] in H; [|discriminate].
    destruct (TlsRedis.blockLoop r d1 l m) as [[[[d2 l2] m2]|e]|] eqn:Eb;
      try discriminate.
    - exact (IH _ _ _ H).
    - injection H as <-. exact (TlsRedis_blockLoop_errors _ _ _ _ _ Eb). }
  destruct (TlsRedis.nextLoop r d l rcg) as [[[[d' l'] m']|e]|] eqn:En;
    try discriminate.
  injection H as <-. exact (Hloop _ _ _ _ En).
Qed.

(** ** From the [redis] block to the lookup *)

Section ConfiguredGetter.

Variable Certificate : Type.
Variable pem_Decode : string -> option pem.Block * string.
Variable pem_Encode : pem.Block -> result string.
Variable X509KeyPair : string -> string -> result Certificate.

(** X22: from the Caddyfile to the handshake: with the lines [prefix P]
    and [certKey K], the certificate getter is configured, and after
    [Provision] its [GetCertificate] reads, for every server name, the
    field [K] under the key [P:serverName] taken as it is, and returns
    the error of the store or what the decoder makes of the value. *)
Theorem RedisCertGetter_configure_then_GetCertificate
  (P K : string) :
  Forall (fun o => settableCert o = true) [("prefix", P); ("certKey", K)] ->
  exists rcg,
    TlsRedis.UnmarshalCaddyfile TlsRedis.new
      (NewDispenser (closedBlock "redis" [("prefix", P); ("certKey", K)]))
    = Some (Ok rcg)
    /\ snd (TlsRedis.Provision rcg) = None
    /\ forall (store : redis.Store) (ServerName : string),
         TlsRedis.GetCertificate Certificate pem_Decode pem_Encode X509KeyPair
           store (fst (TlsRedis.Provision rcg)) ServerName
         = ([EvDebugf ("SNI: " ++ ServerName);
             EvHGet (P ++ ":" ++ ServerName) K],
            match store (P ++ ":" ++ ServerName) K with
            | Err err => Some (Err err)
            | Ok pem =>
                tlsCertFromCertAndKeyPEMBundle Certificate pem_Decode
                  pem_Encode X509KeyPair pem
            end).
Proof.
  intros Hs. eexists. split; [|split].
  - change [("prefix", P); ("certKey", K)]
      with ([("prefix", P)] ++ [("certKey", K)])%list in *.
    apply Forall_app in Hs as [Hinit Hlast].
    inversion Hlast as [|? ? Hl _]; subst.
    rewrite closedBlock_last, TlsRedis_UnmarshalCaddyfile_last_line
      by assumption.
    unfold certConfigured. cbn. reflexivity.
  - reflexivity.
  - intros store ServerName. unfold TlsRedis.GetCertificate.
    cbn [TlsRedis.Provision fst TlsRedis.Prefix TlsRedis.CertKey].
    destruct (store (P ++ ":" ++ ServerName) K); reflexivity.
Qed.

End ConfiguredGetter.

(** ** The certificate getter on sample blocks *)

Lemma RedisCertGetter_unknown_field_witness :
  TlsRedis.UnmarshalCaddyfile TlsRedis.new
    (NewDispenser
       [tok 1 "redis"; tok 1 "{";
        tok 2 "prefix"; tok 2 "site";
        tok 3 "tokenKey"; tok 3 "token";
        tok 4 "}"])
  = Some (Err "Unknown field: tokenKey").
Proof.
  apply (RedisCertGetter_unknown_field TlsRedis.new [("prefix", "site")]
           (tok 3 "tokenKey") [tok 3 "token"; tok 4 "}"]).
  - repeat constructor.
  - reflexivity.
  - discriminate.
  - discriminate.
Defined.

Lemma RedisCertGetter_db_not_a_number_witness :
  TlsRedis.UnmarshalCaddyfile TlsRedis.new
    (NewDispenser
       [tok 1 "redis"; tok 1 "{";
        tok 2 "db"; tok 2 "1x";
        tok 3 "}"])
  = Some (Err "wrong argument count or unexpected line ending after '1x'").
Proof.
  apply (RedisCertGetter_db_not_a_number TlsRedis.new [] 2 "1x" [tok 3 "}"]
           "invalid syntax").
  - constructor.
  - reflexivity.
  - discriminate.
Defined.

Lemma RedisCertGetter_closed_block_witness :
  TlsRedis.UnmarshalCaddyfile TlsRedis.new
    (NewDispenser
       [tok 1 "redis"; tok 1 "{";
        tok 2 "host"; tok 2 "10.0.0.7";
        tok 3 "prefix"; tok 3 "old";
        tok 4 "certKey"; tok 4 "pem";
        tok 5 "prefix"; tok 5 "site";
        tok 6 "}"])
  = Some (Ok (TlsRedis.mkRedisCertGetter "site" "pem" None
                (redis.mkOptions "10.0.0.7:6379" 0))).
Proof.
  apply (RedisCertGetter_closed_block TlsRedis.new
           [("host", "10.0.0.7"); ("prefix", "old"); ("certKey", "pem");
            ("prefix", "site")]).
  repeat constructor.
Defined.

Lemma RedisCertGetter_address_defaults_witness :
  let rcg' := TlsRedis.mkRedisCertGetter EmptyString EmptyString None
                (redis.mkOptions "127.0.0.1:6379" 0) in
  ((forall t, In t (tokens Samples.redisHostOnly) -> Text t <> "host") ->
   exists port, redis.Addr (TlsRedis.redisOptions rcg') = "127.0.0.1:" ++ port)
  /\ ((forall t, In t (tokens Samples.redisHostOnly) -> Text t <> "port") ->
      exists host, redis.Addr (TlsRedis.redisOptions rcg') = host ++ ":6379")
  /\ ((forall t, In t (tokens Samples.redisHostOnly) -> Text t <> "db") ->
      redis.DB (TlsRedis.redisOptions rcg') = 0%Z).
Proof.
  intros rcg'.
  apply (RedisCertGetter_address_defaults TlsRedis.new rcg'
           (tokens Samples.redisHostOnly)).
  vm_compute. reflexivity.
Defined.

Lemma RedisCertGetter_error_messages_witness :
  let err := "unexpected token '{', expecting argument" in
  (exists value,
      err = "wrong argument count or unexpected line ending after '"
            ++ value ++ "'")
  \/ err = "unexpected token '{', expecting argument"
  \/ exists field, err = "Unknown field: " ++ field.
Proof.
  apply (RedisCertGetter_error_messages TlsRedis.new
           (NewDispenser
              [tok 1 "redis"; tok 1 "{"; tok 2 "db"; quoted 2 "{";
               tok 3 "}"])).
  vm_compute. reflexivity.
Defined.

Lemma RedisCertGetter_configure_then_GetCertificate_witness :
  exists rcg,
    TlsRedis.UnmarshalCaddyfile TlsRedis.new
      (NewDispenser (closedBlock "redis" [("prefix", "site"); ("certKey", "cert")]))
    = Some (Ok rcg)
    /\ snd (TlsRedis.Provision rcg) = None
    /\ forall (store : redis.Store) (ServerName : string),
         TlsRedis.GetCertificate PemText.KeyPair PemText.Decode PemText.Encode
           PemText.X509KeyPair store (fst (TlsRedis.Provision rcg)) ServerName
         = ([EvDebugf ("SNI: " ++ ServerName);
             EvHGet ("site" ++ ":" ++ ServerName) "cert"],
            match store ("site" ++ ":" ++ ServerName) "cert" with
            | Err err => Some (Err err)
            | Ok pem => PemText.decode pem
            end).
Proof.
  apply (RedisCertGetter_configure_then_GetCertificate PemText.KeyPair
           PemText.Decode PemText.Encode PemText.X509KeyPair "site" "cert").
  repeat constructor.
Defined.
